(** * claude-code-proxy: the translation and streaming core

    A shallow embedding of
      - [src/core/token_estimator.py]        (module [TokenEstimator]),
      - [src/core/client.py]                 (module [Client]),
      - [src/conversion/response_converter.py] (module [Converter]),
    followed by the properties of the specification that are settled
    against these definitions.

    Conventions.  A Python [str] is a list of Unicode code points, so that
    [len] and the CJK range test of the estimator mean what they mean in
    Python.  Integers are [Z].  The floating-point arithmetic of the
    estimator is the kernel's binary64 arithmetic (exact for lengths below
    2^53).  A decoded JSON object is a record of the keys the source reads,
    each a [field]: missing, present with [null], or present with a value of
    the type of the backend's schema; the interpreter errors raised on a
    [None] operand are results of type [exn].  A line of the backend stream
    is given by what the translator makes of it (blank, not a data line, the
    end marker, a payload that does not decode, a decoded payload).
    [json.loads] on the arguments of a tool call is a parameter of the
    translators that tells how the call ends (it returns, it raises
    [JSONDecodeError], it raises something else); module [Json] is the
    instance used on concrete inputs.  The attribute
    [config.enable_token_estimation] is a parameter as well: [None] when the
    [config] object has no such attribute, which is what [Config()] of
    [src/core/config.py] builds.  Logging is left out. *)

From Stdlib Require Import ZArith NArith List String Ascii Bool Lia Floats Uint63.
From stdpp Require Import base option list gmap.
Import ListNotations.

Local Open Scope Z_scope.
Set Warnings "-inexact-float".

(** ** Python values *)

Module Py.

(** [str]: a sequence of code points. *)
Definition str : Type := list N.

(** A literal of the source, written in ASCII. *)
Definition lit (s : string) : str :=
  map N_of_ascii (list_ascii_of_string s).

(** [bool(s)] for an optional string: [None] and [''] are false. *)
Definition truthy (s : option str) : bool :=
  match s with
  | Some (_ :: _) => true
  | _ => false
  end.

(** A key of a decoded JSON object. *)
Inductive field (A : Type) : Type :=
| Absent
| Null
| Val (a : A).
Arguments Absent {A}.
Arguments Null {A}.
Arguments Val {A} a.

(** [k in d] *)
Definition has_key {A} (f : field A) : bool :=
  match f with
  | Absent => false
  | _ => true
  end.

(** [d.get(k)]: [None] both for a missing key and for [null]. *)
Definition get {A} (f : field A) : option A :=
  match f with
  | Val a => Some a
  | _ => None
  end.

(** [d.get(k, default)]: the default replaces a missing key only. *)
Definition get_or {A} (default : A) (f : field A) : option A :=
  match f with
  | Absent => Some default
  | Null => None
  | Val a => Some a
  end.

(** The exceptions (subclasses of [Exception]) that reach the handlers. *)
Inductive exn : Type :=
| HTTPException (status_code : Z) (detail : str)
| TypeError
| AttributeError
| OtherException (message : str).

(** How a call of [json.loads] ends: with a value, with
    [JSONDecodeError], or with another exception ([ValueError] for a numeral
    of more than 4300 digits, [RecursionError] for nesting beyond the
    recursion limit), which [except json.JSONDecodeError] does not catch. *)
Inductive loads_result : Type :=
| Decoded
| JSONDecodeError
| LoadsError (message : str).

Definition decodes (r : loads_result) : bool :=
  match r with
  | Decoded => true
  | _ => false
  end.

(** [str(n)] for a count: the decimal digits. *)
Fixpoint digits (fuel : nat) (n : N) (acc : str) : str :=
  match fuel with
  | O => acc
  | S fuel' =>
      let acc := (48 + n mod 10)%N :: acc in
      if (n / 10 =? 0)%N then acc else digits fuel' (n / 10)%N acc
  end.

Definition str_of_nat (n : nat) : str :=
  digits (S (N.to_nat (N.log2 (N.of_nat n)))) (N.of_nat n) [].

(** [str.isspace] on one code point. *)
Definition isspace (c : N) : bool :=
  (((9 <=? c) && (c <=? 13)) || ((28 <=? c) && (c <=? 32))
   || (c =? 133) || (c =? 160) || (c =? 5760)
   || ((8192 <=? c) && (c <=? 8202))
   || (c =? 8232) || (c =? 8233) || (c =? 8239) || (c =? 8287)
   || (c =? 12288))%N.

Fixpoint lstrip (s : str) : str :=
  match s with
  | c :: s' => if isspace c then lstrip s' else s
  | [] => []
  end.

(** [s.strip()] *)
Definition strip (s : str) : str :=
  rev (lstrip (rev (lstrip s))).

(** [int(x)] on a finite float: truncation toward zero. *)
Definition int_of_float (x : float) : Z :=
  match Prim2SF x with
  | S754_finite s m e =>
      let magnitude :=
        match e with
        | Zneg p => Z.shiftr (Zpos m) (Zpos p)
        | _ => Z.shiftl (Zpos m) e
        end in
      if s then - magnitude else magnitude
  | _ => 0
  end.

(** [float(n)] for an integer below 2^53, and for a length. *)
Definition float_of_Z (n : Z) : float :=
  PrimFloat.of_uint63 (Uint63.of_Z n).

Definition float_of_nat (n : nat) : float :=
  float_of_Z (Z.of_nat n).

End Py.
Export Py.

(** ** The decoded payloads of the backend stream *)

Module Wire.

(** [tool_calls[i].function] *)
Record function_delta : Type := {
  fn_name : field str;
  fn_arguments : field str
}.

Record tool_call_delta : Type := {
  tc_index : field Z;
  tc_id : field str;
  tc_function : field function_delta
}.

(** [choices[0].delta] *)
Record delta : Type := {
  delta_content : field str;
  delta_tool_calls : field (list tool_call_delta)
}.

Record choice : Type := {
  choice_delta : field delta;
  finish_reason : field str
}.

(** The usage object, with the alternate key names that
    [should_use_estimation] also reads. *)
Record usage : Type := {
  prompt_tokens : field Z;
  completion_tokens : field Z;
  input_tokens : field Z;
  output_tokens : field Z
}.

(** The object under the key [error]. *)
Record error_info : Type := {
  error_type : field str;
  error_message : field str
}.

Record chunk : Type := {
  error : field error_info;
  choices : field (list choice);
  chunk_usage : field usage
}.

(** [{}] where the source defaults a missing object to it. *)
Definition empty_function : function_delta :=
  {| fn_name := Absent; fn_arguments := Absent |}.

Definition empty_delta : delta :=
  {| delta_content := Absent; delta_tool_calls := Absent |}.

(** The complete result of a non-streaming call. *)
Record response_tool_call : Type := {
  rtc_type : field str;
  rtc_id : field str;
  rtc_function : field function_delta
}.

Record response_message : Type := {
  message_content : field str;
  message_tool_calls : field (list response_tool_call)
}.

Record response_choice : Type := {
  choice_message : field response_message;
  choice_finish_reason : field str
}.

Record openai_response : Type := {
  response_id : field str;
  response_choices : field (list response_choice);
  response_usage : field usage
}.

Definition empty_message : response_message :=
  {| message_content := Absent; message_tool_calls := Absent |}.

Definition empty_usage : usage :=
  {| prompt_tokens := Absent; completion_tokens := Absent;
     input_tokens := Absent; output_tokens := Absent |}.

(** One line of the stream, as the translator classifies it.  A payload
    that decodes to a value that is no object is given by what the test
    ["error" in chunk] of the second translator does on it: it raises
    [TypeError] on a number, a truth value or [null] ([None] below), and
    answers on a string or a list. *)
Inductive line : Type :=
| Blank                (* [line.strip()] is empty *)
| NotData              (* no [data: ] prefix *)
| Done                 (* [data: [DONE]] *)
| Malformed            (* [json.loads] raises [JSONDecodeError] *)
| Undecodable (message : str)
                       (* [json.loads] raises another exception *)
| NotAnObject (holds_error : option bool)
                       (* the payload decodes, but not to an object *)
| Data (c : chunk).    (* the payload decodes to the object [c] *)

(** The error payloads the client puts on the stream. *)
Definition error_chunk (kind message : str) : chunk :=
  {| error := Val {| error_type := Val kind; error_message := Val message |};
     choices := Absent;
     chunk_usage := Absent |}.

End Wire.
Export Wire.

(** ** src/core/token_estimator.py *)

Module TokenEstimator.

(** Modelled from the spec: the request model of [src/models/claude.py] is
    not among the sources.  An element of a content list or of a
    system-prompt list either carries a [text] or is skipped by the
    estimator. *)
Inductive content_item : Type :=
| ItemText (text : str)
| ItemOther.

(** Modelled from the spec: the textual content of a message or of the
    system prompt, a string or a list of blocks (the argument of
    [estimate_text_tokens]). *)
Inductive text_arg : Type :=
| ContentStr (s : str)
| ContentList (items : list content_item).

(** Modelled from the spec: a message of the request, with its role and
    its content. *)
Record message : Type := {
  role : str;
  content : text_arg
}.

(** Modelled from the spec: the attributes of [ClaudeMessagesRequest]
    (declared in [src/models/claude.py]) that the estimator and the
    translators read. *)
Record ClaudeMessagesRequest : Type := {
  model : str;
  max_tokens : Z;
  messages : list message;
  system : option text_arg
}.

Definition ENGLISH_CHAR_PER_TOKEN : float := 4.0%float.
Definition CHINESE_CHAR_PER_TOKEN : float := 1.2%float.
Definition MIXED_CHAR_PER_TOKEN : float := 2.5%float.

(** The character class of the source: U+4E00 to U+9FFF. *)
Definition is_cjk (c : N) : bool :=
  ((19968 <=? c) && (c <=? 40959))%N.

(** [text_content] of [estimate_text_tokens]: the string itself, or the
    texts of a list joined with a blank after each and stripped. *)
Definition text_content_of (text : text_arg) : str :=
  match text with
  | ContentStr s => s
  | ContentList items =>
      strip (concat (map (fun item =>
                            match item with
                            | ItemText t => t ++ [32%N]
                            | ItemOther => []
                            end) items))
  end.

(** [not text] *)
Definition is_empty (text : text_arg) : bool :=
  match text with
  | ContentStr [] | ContentList [] => true
  | _ => false
  end.

Definition chinese_ratio_of (chinese_chars total_chars : nat) : float :=
  (float_of_nat chinese_chars / float_of_nat total_chars)%float.

(** The characters-per-token divisor chosen from the ratio. *)
Definition divisor_of (chinese_ratio : float) : float :=
  if (0.7 <? chinese_ratio)%float then CHINESE_CHAR_PER_TOKEN
  else if (chinese_ratio <? 0.1)%float then ENGLISH_CHAR_PER_TOKEN
  else MIXED_CHAR_PER_TOKEN.

Definition estimate_text_tokens (text : text_arg) : Z :=
  if is_empty text then 0
  else
    let text_content := text_content_of text in
    match text_content with
    | [] => 0
    | _ =>
        let chinese_chars := length (List.filter is_cjk text_content) in
        let total_chars := length text_content in
        let chinese_ratio := chinese_ratio_of chinese_chars total_chars in
        let estimated_tokens :=
          (float_of_nat total_chars / divisor_of chinese_ratio)%float in
        Z.max 1 (int_of_float estimated_tokens)
    end.

(** One message of [estimate_messages_tokens], without the overhead. *)
Definition message_tokens (m : message) : Z :=
  1 +
  match content m with
  | ContentStr s => estimate_text_tokens (ContentStr s)
  | ContentList items =>
      fold_left (fun total item =>
                   match item with
                   | ItemText t => total + estimate_text_tokens (ContentStr t)
                   | ItemOther => total
                   end) items 0
  end.

Definition estimate_messages_tokens (msgs : list message) : Z :=
  let total_tokens := fold_left (fun total m => total + message_tokens m) msgs 0 in
  let overhead_tokens := Z.of_nat (length msgs) * 3 in
  Z.max 1 (total_tokens + overhead_tokens).

Definition estimate_request_input_tokens (request : ClaudeMessagesRequest) : Z :=
  let from_messages :=
    match messages request with
    | [] => 0
    | msgs => estimate_messages_tokens msgs
    end in
  let from_system :=
    match system request with
    | Some sys => if is_empty sys then 0 else estimate_text_tokens sys
    | None => 0
    end in
  Z.max 1 (from_messages + from_system + 5).

Definition estimate_completion_tokens (text : str) : Z :=
  estimate_text_tokens (ContentStr text).

Definition estimate_input_tokens (request : ClaudeMessagesRequest) : Z :=
  estimate_request_input_tokens request.

Definition estimate_output_tokens (text : str) : Z :=
  estimate_completion_tokens text.

(** [should_use_estimation]: both counts are present and zero, under
    either pair of key names.  An empty usage object has every key
    missing and so answers [true] as well. *)
Definition should_use_estimation (usage_data : usage) : bool :=
  let input_tokens :=
    match prompt_tokens usage_data with
    | Absent => get_or 0 (input_tokens usage_data)
    | Null => None
    | Val n => Some n
    end in
  let output_tokens :=
    match completion_tokens usage_data with
    | Absent => get_or 0 (output_tokens usage_data)
    | Null => None
    | Val n => Some n
    end in
  bool_decide (input_tokens = Some 0) && bool_decide (output_tokens = Some 0).

End TokenEstimator.

(** ** json.loads on texts within the limits of the interpreter *)

Module Json.

Local Open Scope N_scope.

Definition is_ws (c : N) : bool :=
  (c =? 32) || (c =? 9) || (c =? 10) || (c =? 13).

Definition is_digit (c : N) : bool := (48 <=? c) && (c <=? 57).

Definition is_hex (c : N) : bool :=
  is_digit c || ((65 <=? c) && (c <=? 70)) || ((97 <=? c) && (c <=? 102)).

(** The characters that may follow a backslash, [u] apart. *)
Definition is_escape (c : N) : bool :=
  (c =? 34) || (c =? 92) || (c =? 47) || (c =? 98) || (c =? 102)
  || (c =? 110) || (c =? 114) || (c =? 116).

Fixpoint skip_ws (s : str) : str :=
  match s with
  | c :: s' => if is_ws c then skip_ws s' else s
  | [] => []
  end.

Fixpoint digits (s : str) : str :=
  match s with
  | c :: s' => if is_digit c then digits s' else s
  | [] => []
  end.

(** A string, from just after its opening quote (strict mode: no control
    character); the result is what follows the closing quote. *)
Fixpoint scanstring (s : str) : option str :=
  match s with
  | [] => None
  | c :: s1 =>
      if c =? 34 then Some s1
      else if c =? 92 then
        match s1 with
        | e :: s2 =>
            if e =? 117 then
              match s2 with
              | h1 :: h2 :: h3 :: h4 :: s3 =>
                  if is_hex h1 && is_hex h2 && is_hex h3 && is_hex h4
                  then scanstring s3 else None
              | _ => None
              end
            else if is_escape e then scanstring s2 else None
        | [] => None
        end
      else if c <? 32 then None
      else scanstring s1
  end.

(** The optional fraction and exponent of a number. *)
Definition fraction (s : str) : str :=
  match s with
  | dot :: d :: s' => if (dot =? 46) && is_digit d then digits s' else s
  | _ => s
  end.

Definition exponent (s : str) : str :=
  match s with
  | e :: s1 =>
      if (e =? 101) || (e =? 69) then
        let s2 := match s1 with
                  | sign :: s' => if (sign =? 45) || (sign =? 43) then s' else s1
                  | [] => s1
                  end in
        match s2 with
        | d :: s3 => if is_digit d then digits s3 else s
        | [] => s
        end
      else s
  | [] => s
  end.

(** A number at the head of [s]: an optional minus sign, then a zero or a
    digit string without a leading zero, then the optional fraction and
    exponent. *)
Definition number (s : str) : option str :=
  let s1 := match s with
            | sign :: s' => if sign =? 45 then s' else s
            | [] => s
            end in
  match s1 with
  | d :: s2 =>
      if d =? 48 then Some (exponent (fraction s2))
      else if is_digit d then Some (exponent (fraction (digits s2)))
      else None
  | [] => None
  end.

(** [s] starts with the literal [w]; the result is the rest. *)
Fixpoint literal (w s : str) : option str :=
  match w, s with
  | [], _ => Some s
  | a :: w', b :: s' => if a =? b then literal w' s' else None
  | _ :: _, [] => None
  end.

(** One value at the head of [s], in the order of the scanner. *)
Fixpoint value (fuel : nat) (s : str) : option str :=
  match fuel with
  | O => None
  | S fuel' =>
      match s with
      | [] => None
      | c :: s1 =>
          if c =? 34 then scanstring s1
          else if c =? 123 then
            match skip_ws s1 with
            | c1 :: s2 =>
                if c1 =? 125 then Some s2
                else if c1 =? 34 then members fuel' s2
                else None
            | [] => None
            end
          else if c =? 91 then
            match skip_ws s1 with
            | c1 :: s2 =>
                if c1 =? 93 then Some s2 else elements fuel' (c1 :: s2)
            | [] => None
            end
          else
            match literal (lit "null") s, literal (lit "true") s,
                  literal (lit "false") s with
            | Some r, _, _ | None, Some r, _ | None, None, Some r => Some r
            | None, None, None =>
                match number s with
                | Some r => Some r
                | None =>
                    match literal (lit "NaN") s, literal (lit "Infinity") s,
                          literal (lit "-Infinity") s with
                    | Some r, _, _ | None, Some r, _ | None, None, Some r => Some r
                    | None, None, None => None
                    end
                end
            end
      end
  end
with members (fuel : nat) (s : str) : option str :=
  (* [s] follows the opening quote of a key *)
  match fuel with
  | O => None
  | S fuel' =>
      match scanstring s with
      | None => None
      | Some s1 =>
          match skip_ws s1 with
          | colon :: s2 =>
              if colon =? 58 then
                match value fuel' (skip_ws s2) with
                | None => None
                | Some s3 =>
                    match skip_ws s3 with
                    | c :: s4 =>
                        if c =? 125 then Some s4
                        else if c =? 44 then
                          match skip_ws s4 with
                          | q :: s5 => if q =? 34 then members fuel' s5 else None
                          | [] => None
                          end
                        else None
                    | [] => None
                    end
                end
              else None
          | [] => None
          end
      end
  end
with elements (fuel : nat) (s : str) : option str :=
  match fuel with
  | O => None
  | S fuel' =>
      match value fuel' s with
      | None => None
      | Some s1 =>
          match skip_ws s1 with
          | c :: s2 =>
              if c =? 93 then Some s2
              else if c =? 44 then elements fuel' (skip_ws s2)
              else None
          | [] => None
          end
      end
  end.

(** [json.loads(s)] returns (rather than raising [JSONDecodeError]): one
    value, surrounded by blanks only.  Every recursive call has consumed a
    character, and a call chain spends two units of fuel per character at
    most. *)
Definition loads_ok (s : str) : bool :=
  match value (2 * length s + 2) (skip_ws s) with
  | Some rest => match skip_ws rest with [] => true | _ => false end
  | None => false
  end.

(** [json.loads(s)] for a text whose numerals have at most 4300 digits
    and whose nesting stays below the recursion limit: on such a text the
    call returns or raises [JSONDecodeError]. *)
Definition loads (s : str) : loads_result :=
  if loads_ok s then Decoded else JSONDecodeError.

End Json.

(** ** src/core/client.py *)

Module Client.

(** [self.active_requests]: request id to the state of its [asyncio.Event]. *)
Abbreviation registry := (gmap str bool).

Definition cancel_request (active_requests : registry) (request_id : str)
  : registry * bool :=
  match active_requests !! request_id with
  | Some _ => (<[request_id := true]> active_requests, true)
  | None => (active_requests, false)
  end.

(** [if request_id:] and the entry made for it. *)
Definition track (active_requests : registry) (request_id : option str) : registry :=
  match request_id with
  | Some (c :: s) => <[c :: s := false]> active_requests
  | _ => active_requests
  end.

(** The [finally] clause of both calls. *)
Definition untrack (active_requests : registry) (request_id : option str) : registry :=
  match request_id with
  | Some (c :: s) =>
      match active_requests !! (c :: s) with
      | Some _ => delete (c :: s) active_requests
      | None => active_requests
      end
  | _ => active_requests
  end.

(** What [self.client.chat.completions.create] raises. *)
Inductive backend_error : Type :=
| AuthenticationError
| RateLimitError
| BadRequestError
| APIError (status_code : option Z)
| UnexpectedError.

Inductive backend_reply (A : Type) : Type :=
| Reply (completion : A)
| Failure (e : backend_error).
Arguments Reply {A} completion.
Arguments Failure {A} e.

(** What happens while [create_chat_completion] is suspended: other tasks
    act on the registry, the cancel event of this call fires or not before
    the wait returns, and the backend answers. *)
Record in_flight (A : Type) : Type := {
  others : registry -> registry;
  cancel_fired : bool;
  backend : backend_reply A
}.
Arguments others {A} _ _.
Arguments cancel_fired {A} _.
Arguments backend {A} _.

(** The result of a call: the completion, or the status code of the
    [HTTPException] raised (its detail text is left out). *)
Inductive outcome (A : Type) : Type :=
| Returned (completion : A)
| HTTPError (status_code : Z).
Arguments Returned {A} completion.
Arguments HTTPError {A} status_code.

Definition create_chat_completion {A : Type}
    (active_requests : registry) (request_id : option str) (env : in_flight A)
  : outcome A * registry :=
  let active_requests := track active_requests request_id in
  (* try: *)
  let active_requests := others env active_requests in
  let result :=
    if truthy request_id && cancel_fired env then
      (* the 499 raised in the body is caught by [except Exception] *)
      HTTPError 500
    else
      match backend env with
      | Reply completion => Returned completion
      | Failure AuthenticationError => HTTPError 401
      | Failure RateLimitError => HTTPError 429
      | Failure BadRequestError => HTTPError 400
      | Failure (APIError (Some status_code)) => HTTPError status_code
      | Failure (APIError None) => HTTPError 500
      | Failure UnexpectedError => HTTPError 500
      end in
  (* finally: *)
  (result, untrack active_requests request_id).

(** One turn of the chunk loop of [create_chat_completion_stream]: what
    other tasks do to the registry during the wait, and how the wait
    ends. *)
Inductive fetched : Type :=
| Fetched (c : chunk)
| Undumpable            (* [model_dump] or [json.dumps] raises *)
| StopAsyncIteration
| TimeoutError
| FetchError (message : str).

Record turn : Type := {
  meanwhile : registry -> registry;
  arrives : fetched
}.

(** [self.active_requests[request_id].is_set()], guarded as in the source. *)
Definition is_cancelled (active_requests : registry) (request_id : option str) : bool :=
  match request_id with
  | Some (c :: s) =>
      match active_requests !! (c :: s) with
      | Some flag => flag
      | None => false
      end
  | _ => false
  end.

(** [finish_reason in ['stop', 'length', 'function_call', 'tool_calls',
    'content_filter']] on the first choice. *)
Definition ends_stream (c : chunk) : bool :=
  match get (choices c) with
  | Some (ch :: _) =>
      match get (finish_reason ch) with
      | Some r =>
          bool_decide (r ∈ [lit "stop"; lit "length"; lit "function_call";
                            lit "tool_calls"; lit "content_filter"])
      | None => false
      end
  | _ => false
  end.

(** The text of the timeout payload after [chunk_count] chunks. *)
Definition timeout_message (chunk_count : nat) : str :=
  lit "Timeout waiting for streaming chunk after " ++ str_of_nat chunk_count
  ++ lit " chunks".

(** The chunk loop.  [demand] is the number of lines the consumer still
    takes; the generator is closed once it has yielded that many.  A list
    of turns that runs out stands for a backend stream that has ended.  The
    result is the yielded lines and the registry when the body is left. *)
Fixpoint chunk_loop (request_id : option str) (demand : nat)
    (chunk_count : nat) (active_requests : registry) (turns : list turn)
  : list line * registry :=
  match demand with
  | O => ([], active_requests)
  | S demand' =>
      match turns with
      | [] => ([Done], active_requests)
      | t :: turns' =>
          let active_requests := meanwhile t active_requests in
          match arrives t with
          | StopAsyncIteration => ([Done], active_requests)
          | TimeoutError =>
              ([Data (error_chunk (lit "timeout_error")
                        (timeout_message chunk_count))],
               active_requests)
          | FetchError message =>
              ([Data (error_chunk (lit "stream_error")
                        (lit "Streaming error: " ++ message))],
               active_requests)
          | Fetched c =>
              let chunk_count := S chunk_count in
              if is_cancelled active_requests request_id then
                ([Data (error_chunk (lit "client_error")
                          (lit "Request cancelled by client"))],
                 active_requests)
              else if ends_stream c then
                (Data c :: match demand' with O => [] | S _ => [Done] end,
                 active_requests)
              else
                let '(lines, active_requests) :=
                  chunk_loop request_id demand' chunk_count active_requests
                    turns' in
                (Data c :: lines, active_requests)
          | Undumpable =>
              let chunk_count := S chunk_count in
              if is_cancelled active_requests request_id then
                ([Data (error_chunk (lit "client_error")
                          (lit "Request cancelled by client"))],
                 active_requests)
              else chunk_loop request_id demand chunk_count active_requests
                     turns'
          end
      end
  end.

(** [create_chat_completion_stream].  [created] tells whether the
    streaming call could be opened.  A generator that is never asked for
    a line never runs. *)
Definition create_chat_completion_stream
    (active_requests : registry) (request_id : option str)
    (created : option str) (turns : list turn) (demand : nat)
  : list line * registry :=
  match demand with
  | O => ([], active_requests)
  | S _ =>
      let active_requests := track active_requests request_id in
      (* try: *)
      let '(lines, active_requests) :=
        match created with
        | Some failure =>
            ([Data (error_chunk (lit "connection_error")
                      (lit "Failed to start streaming: " ++ failure))],
             active_requests)
        | None => chunk_loop request_id demand 0 active_requests turns
        end in
      (* finally: *)
      (lines, untrack active_requests request_id)
  end.

End Client.

(** ** src/conversion/response_converter.py *)

Module Converter.

Import TokenEstimator.
Import Client.

(** Modelled from the spec: [src/core/constants.py] is not among the
    sources; the stop reasons are the three values of the finish-reason
    table, and the event names are those of the event stream. *)
Inductive stop_reason : Type :=
| STOP_END_TURN
| STOP_MAX_TOKENS
| STOP_TOOL_USE.

(** *** The events of the target stream *)

Inductive opened_block : Type :=
| TextBlock                                (* text, empty *)
| ToolUseBlock (id name : option str).     (* tool_use, input empty *)

Inductive block_delta : Type :=
| TextDelta (text : str)
| InputJsonDelta (partial_json : str).

Inductive error_text : Type :=
| Message (m : option str)
| StreamingError (e : exn).                (* 'Streaming error: ' + str(e) *)

(** The freshly drawn message id of [message_start] is left out. *)
Inductive event : Type :=
| MessageStart (model : str)
| ContentBlockStart (index : Z) (block : opened_block)
| Ping
| ContentBlockDelta (index : option Z) (d : block_delta)
| ContentBlockStop (index : Z)
| MessageDelta (stop : stop_reason) (input_tokens output_tokens : Z)
| MessageStop
| Error (kind : option str) (text : error_text).

(** *** The state of one translation *)

(** An entry of [current_tool_calls]. *)
Record tool_call_entry : Type := {
  tool_id : option str;
  tool_name : option str;
  args_buffer : str;
  json_sent : bool;
  claude_index : option Z;
  started : bool
}.

Definition new_tool_call : tool_call_entry :=
  {| tool_id := None; tool_name := None; args_buffer := [];
     json_sent := false; claude_index := None; started := false |}.

(** [current_tool_calls]: keys in insertion order; a key is the [index]
    of the fragment, which may be [None]. *)
Definition tool_calls : Type := list (option Z * tool_call_entry).

Fixpoint lookup_call (k : option Z) (d : tool_calls) : option tool_call_entry :=
  match d with
  | [] => None
  | (k', v) :: d' => if decide (k = k') then Some v else lookup_call k d'
  end.

(** [d[k] = v]: in place for a known key, at the end for a new one. *)
Fixpoint store_call (k : option Z) (v : tool_call_entry) (d : tool_calls) : tool_calls :=
  match d with
  | [] => [(k, v)]
  | (k', v') :: d' =>
      if decide (k = k') then (k, v) :: d' else (k', v') :: store_call k v d'
  end.

Record state : Type := {
  tool_block_counter : Z;
  current_tool_calls : tool_calls;
  final_stop_reason : stop_reason;
  total_input_tokens : Z;
  total_output_tokens : Z
}.

Definition text_block_index : Z := 0.

Definition initial_state : state :=
  {| tool_block_counter := 0;
     current_tool_calls := [];
     final_stop_reason := STOP_END_TURN;
     total_input_tokens := 0;
     total_output_tokens := 0 |}.

Definition set_tool_block (counter : Z) (calls : tool_calls) (st : state) : state :=
  {| tool_block_counter := counter;
     current_tool_calls := calls;
     final_stop_reason := final_stop_reason st;
     total_input_tokens := total_input_tokens st;
     total_output_tokens := total_output_tokens st |}.

Definition set_final_stop_reason (r : stop_reason) (st : state) : state :=
  {| tool_block_counter := tool_block_counter st;
     current_tool_calls := current_tool_calls st;
     final_stop_reason := r;
     total_input_tokens := total_input_tokens st;
     total_output_tokens := total_output_tokens st |}.

Definition set_total_input_tokens (n : Z) (st : state) : state :=
  {| tool_block_counter := tool_block_counter st;
     current_tool_calls := current_tool_calls st;
     final_stop_reason := final_stop_reason st;
     total_input_tokens := n;
     total_output_tokens := total_output_tokens st |}.

Definition set_total_output_tokens (n : Z) (st : state) : state :=
  {| tool_block_counter := tool_block_counter st;
     current_tool_calls := current_tool_calls st;
     final_stop_reason := final_stop_reason st;
     total_input_tokens := total_input_tokens st;
     total_output_tokens := n |}.

(** *** A generator body: the events yielded so far, and a value or the
    exception that interrupted it *)

Inductive result (A : Type) : Type :=
| Ok (a : A)
| Raised (e : exn).
Arguments Ok {A} a.
Arguments Raised {A} e.

Definition gen (A : Type) : Type := list event * result A.

Definition ret {A} (a : A) : gen A := ([], Ok a).
Definition yield (e : event) : gen unit := ([e], Ok tt).
Definition yield_all (evs : list event) : gen unit := (evs, Ok tt).
Definition raise {A} (e : exn) : gen A := ([], Raised e).

Definition bind {A B} (m : gen A) (k : A -> gen B) : gen B :=
  match m with
  | (evs, Ok a) => let '(evs', r) := k a in (evs ++ evs', r)
  | (evs, Raised e) => (evs, Raised e)
  end.

Notation "'let*' x ':=' m 'in' k" := (bind m (fun x => k))
  (at level 10, x pattern, m at level 100, k at level 200).

(** *** The finish-reason table *)

(** The dictionary lookup of [convert_openai_to_claude_response]. *)
Definition stop_reason_table (finish_reason : option str) : stop_reason :=
  match finish_reason with
  | Some r =>
      if bool_decide (r = lit "stop") then STOP_END_TURN
      else if bool_decide (r = lit "length") then STOP_MAX_TOKENS
      else if bool_decide (r = lit "tool_calls") then STOP_TOOL_USE
      else if bool_decide (r = lit "function_call") then STOP_TOOL_USE
      else STOP_END_TURN
  | None => STOP_END_TURN
  end.

(** The [if]/[elif] chain of the two streaming translators. *)
Definition stop_reason_of_finish (finish_reason : str) : stop_reason :=
  if bool_decide (finish_reason = lit "length") then STOP_MAX_TOKENS
  else if bool_decide (finish_reason ∈ [lit "tool_calls"; lit "function_call"])
  then STOP_TOOL_USE
  else if bool_decide (finish_reason = lit "stop") then STOP_END_TURN
  else STOP_END_TURN.

(** *** The streaming translators *)

(** The two translators are one text with five differences, marked below. *)
Inductive variant : Type :=
| Basic               (* convert_openai_streaming_to_claude *)
| WithCancellation.   (* convert_openai_streaming_to_claude_with_cancellation *)

Definition with_cancellation (v : variant) : bool :=
  match v with
  | Basic => false
  | WithCancellation => true
  end.

(** What the chunk source does when asked for the next line. *)
Inductive fetch : Type :=
| Yields (l : line)
| Raises (e : exn).

(** How the body of the loop leaves one line. *)
Inductive control : Type :=
| Continue (st : state)
| Break (st : state)
| Return.

Section Streaming.

(** How [json.loads] ends on this string. *)
Variable json_loads : str -> loads_result.

(** The attribute [enable_token_estimation] of the [config] object:
    [Some flag] when the object has it, [None] when it has not.  The
    object that [Config()] of [src/core/config.py] builds has not. *)
Variable enable_token_estimation : option bool.

Variable v : variant.

(** The usage object of a chunk: each positive count replaces the
    running total.  [None > 0] raises. *)
Definition extract_usage (st : state) (c : chunk) : gen state :=
  match get_or empty_usage (chunk_usage c) with
  | None => ret st
  | Some usage =>
      let* st := match prompt_tokens usage with
            | Absent => ret st
            | Null => raise TypeError
            | Val n => ret (if 0 <? n then set_total_input_tokens n st else st)
            end in
      match completion_tokens usage with
      | Absent => ret st
      | Null => raise TypeError
      | Val n => ret (if 0 <? n then set_total_output_tokens n st else st)
      end
  end.

(** "Update tool call ID if provided" and "Update function name". *)
Definition merge_identity (tool_call : tool_call_entry) (tc_delta : tool_call_delta)
    (function_data : function_delta) : tool_call_entry :=
  let tool_call :=
    if truthy (get (tc_id tc_delta)) then
      {| tool_id := get (tc_id tc_delta); tool_name := tool_name tool_call;
         args_buffer := args_buffer tool_call; json_sent := json_sent tool_call;
         claude_index := claude_index tool_call; started := started tool_call |}
    else tool_call in
  if truthy (get (fn_name function_data)) then
    {| tool_id := tool_id tool_call; tool_name := get (fn_name function_data);
       args_buffer := args_buffer tool_call; json_sent := json_sent tool_call;
       claude_index := claude_index tool_call; started := started tool_call |}
  else tool_call.

(** "Start content block when we have complete initial data". *)
Definition start_block (counter : Z) (tool_call : tool_call_entry)
  : gen (Z * tool_call_entry) :=
  if truthy (tool_id tool_call) && truthy (tool_name tool_call)
     && negb (started tool_call) then
    let counter := counter + 1 in
    let index := text_block_index + counter in
    let* _ := yield (ContentBlockStart index
                       (ToolUseBlock (tool_id tool_call) (tool_name tool_call))) in
    ret (counter,
         {| tool_id := tool_id tool_call; tool_name := tool_name tool_call;
            args_buffer := args_buffer tool_call;
            json_sent := json_sent tool_call;
            claude_index := Some index; started := true |})
  else ret (counter, tool_call).

(** "Handle function arguments". *)
Definition append_arguments (tool_call : tool_call_entry)
    (function_data : function_delta) : gen tool_call_entry :=
  if has_key (fn_arguments function_data) && started tool_call then
    match fn_arguments function_data with
    | Val fragment =>
        let buffer := args_buffer tool_call ++ fragment in
        let tool_call :=
          {| tool_id := tool_id tool_call; tool_name := tool_name tool_call;
             args_buffer := buffer; json_sent := json_sent tool_call;
             claude_index := claude_index tool_call;
             started := started tool_call |} in
        match json_loads buffer with
        | Decoded =>
            if negb (json_sent tool_call) then
              let* _ := yield (ContentBlockDelta (claude_index tool_call)
                                 (InputJsonDelta buffer)) in
              ret {| tool_id := tool_id tool_call;
                     tool_name := tool_name tool_call;
                     args_buffer := buffer; json_sent := true;
                     claude_index := claude_index tool_call;
                     started := started tool_call |}
            else ret tool_call
        | JSONDecodeError => ret tool_call
        | LoadsError message => raise (OtherException message)
        end
    | _ =>
        (* difference 4: the second translator skips [None] *)
        if with_cancellation v then ret tool_call else raise TypeError
    end
  else ret tool_call.

(** The body of [for tc_delta in delta["tool_calls"]]. *)
Definition handle_tool_call_delta (st : state) (tc_delta : tool_call_delta)
  : gen state :=
  let tc_index := get_or 0 (tc_index tc_delta) in
  (* Initialize tool call tracking by index if not exists *)
  let calls :=
    match lookup_call tc_index (current_tool_calls st) with
    | Some _ => current_tool_calls st
    | None => store_call tc_index new_tool_call (current_tool_calls st)
    end in
  let tool_call := default new_tool_call (lookup_call tc_index calls) in
  match get_or empty_function (tc_function tc_delta) with
  | None => raise AttributeError
  | Some function_data =>
      let tool_call := merge_identity tool_call tc_delta function_data in
      let* (counter, tool_call) :=
        start_block (tool_block_counter st) tool_call in
      let* tool_call := append_arguments tool_call function_data in
      ret (set_tool_block counter (store_call tc_index tool_call calls) st)
  end.

Fixpoint handle_tool_calls (st : state) (deltas : list tool_call_delta)
  : gen state :=
  match deltas with
  | [] => ret st
  | tc_delta :: deltas' =>
      let* st := handle_tool_call_delta st tc_delta in
      handle_tool_calls st deltas'
  end.

(** "Check for error data from the client": the error event, and
    [return]. *)
Definition inline_error (c : chunk) : gen control :=
  match error c with
  | Val error_info =>
      let* _ :=
        yield (Error (get_or (lit "unknown_error") (error_type error_info))
                 (Message (get_or (lit "Unknown error occurred")
                             (error_message error_info)))) in
      ret Return
  | _ => raise AttributeError
  end.

(** "Handle text delta". *)
Definition text_delta (delta : delta) : gen unit :=
  match get (delta_content delta) with
  | Some (ch :: text) =>
      yield (ContentBlockDelta (Some text_block_index)
               (TextDelta (ch :: text)))
  | _ => ret tt
  end.

(** "Handle tool call deltas".  An empty list does nothing in either
    translator. *)
Definition tool_call_deltas (st : state) (delta : delta) : gen state :=
  match delta_tool_calls delta with
  | Absent => ret st
  | Null =>
      (* difference 3: the first translator iterates [None] *)
      if with_cancellation v then ret st else raise TypeError
  | Val deltas => handle_tool_calls st deltas
  end.

(** "Handle finish reason". *)
Definition finish (st : state) (finish_reason : option str) : control :=
  match finish_reason with
  | Some (ch :: reason) =>
      Break (set_final_stop_reason (stop_reason_of_finish (ch :: reason)) st)
  | _ => Continue st
  end.

(** A payload with a first choice. *)
Definition process_choice (st : state) (c : chunk) (choice : choice)
  : gen control :=
  let* st := extract_usage st c in
  match get_or empty_delta (choice_delta choice) with
  | None => raise TypeError
  | Some delta =>
      let finish_reason := get (finish_reason choice) in
      let* _ := text_delta delta in
      let* st := tool_call_deltas st delta in
      ret (finish st finish_reason)
  end.

(** A decoded payload, from [chunk = json.loads(chunk_data)] to the end
    of the loop body. *)
Definition process_chunk (st : state) (c : chunk) : gen control :=
  (* difference 2: only the second translator looks for [error] *)
  if with_cancellation v && has_key (error c) then inline_error c
  else
    match get_or [] (choices c) with
    | None | Some [] => ret (Continue st)
    | Some (choice :: _) => process_choice st c choice
    end.

(** A payload that decodes to a value that is no object: the first use
    of the value raises. *)
Definition reject_value (holds_error : option bool) : gen control :=
  if with_cancellation v then
    match holds_error with
    | None => raise TypeError              (* ["error" in chunk] *)
    | Some true => raise TypeError         (* [chunk["error"]] *)
    | Some false => raise AttributeError   (* [chunk.get] *)
    end
  else raise AttributeError.               (* [chunk.get] *)

(** One line of the stream. *)
Definition process_line (st : state) (l : line) : gen control :=
  match l with
  | Blank | NotData => ret (Continue st)
  | Done => ret (Break st)
  | Malformed => ret (Continue st)
  | Undecodable message => raise (OtherException message)
  | NotAnObject holds_error => reject_value holds_error
  | Data c => process_chunk st c
  end.

(** How the [try] block is left. *)
Inductive loop_end : Type :=
| Exhausted (st : state)                     (* the stream ended *)
| Broken (st : state) (client : registry)    (* [break] *)
| Returned                                   (* [return] in the body *)
| Failed (e : exn).                          (* an exception *)

(** The [async for] loop.  [http_request k] is the answer of
    [is_disconnected()] at its [k]-th call. *)
Fixpoint consume (http_request : nat -> bool) (request_id : str)
    (polls : nat) (client : registry) (st : state) (openai_stream : list fetch)
  : list event * loop_end :=
  match openai_stream with
  | [] => ([], Exhausted st)
  | Raises e :: _ => ([], Failed e)
  | Yields l :: rest =>
      (* difference 1: the second translator checks the connection *)
      if with_cancellation v && http_request polls then
        ([], Broken st (fst (cancel_request client request_id)))
      else
        match process_line st l with
        | (evs, Ok (Continue st')) =>
            let '(evs', e) :=
              consume http_request request_id (S polls) client st' rest in
            (evs ++ evs', e)
        | (evs, Ok (Break st')) => (evs, Broken st' client)
        | (evs, Ok Return) => (evs, Returned)
        | (evs, Raised e) => (evs, Failed e)
        end
  end.

(** Reading [config.enable_token_estimation]. *)
Definition read_enable_token_estimation : gen bool :=
  match enable_token_estimation with
  | Some flag => ret flag
  | None => raise AttributeError
  end.

(** "Apply token estimation if enabled and usage data is incomplete": the
    two totals after it, [flag] being the value read from [config]. *)
Definition final_usage (flag : bool) (original_request : ClaudeMessagesRequest)
    (st : state) : Z * Z :=
  if flag && (total_input_tokens st =? 0) && (total_output_tokens st =? 0) then
    let estimated_input := estimate_input_tokens original_request in
    let estimated_output := Z.min (max_tokens original_request / 4) 50 in
    (estimated_input, estimated_output)
  else (total_input_tokens st, total_output_tokens st).

(** The stops of the started tool blocks, in the order of the
    dictionary. *)
Fixpoint tool_stops (d : tool_calls) : list event :=
  match d with
  | [] => []
  | (_, tool_data) :: d' =>
      match started tool_data, claude_index tool_data with
      | true, Some index => ContentBlockStop index :: tool_stops d'
      | _, _ => tool_stops d'
      end
  end.

(** "Send final SSE events": the code that follows the [try] block. *)
Definition closing (original_request : ClaudeMessagesRequest) (st : state)
  : gen unit :=
  let* _ := yield (ContentBlockStop text_block_index) in
  let* _ := yield_all (tool_stops (current_tool_calls st)) in
  let* flag := read_enable_token_estimation in
  let '(input_tokens, output_tokens) := final_usage flag original_request st in
  let* _ := yield (MessageDelta (final_stop_reason st) input_tokens
                     output_tokens) in
  yield MessageStop.

(** "Send initial SSE events". *)
Definition opening (original_request : ClaudeMessagesRequest) : list event :=
  [MessageStart (model original_request);
   ContentBlockStart 0 TextBlock;
   Ping].

(** How the generator ends. *)
Inductive ending : Type :=
| Completed                 (* after the closing events *)
| Aborted                   (* [return] after an error event *)
| Propagated (e : exn).     (* the exception reaches the caller *)

(** The [except] clauses.  Difference 5: the second translator treats
    [HTTPException] apart and re-raises every status but 499. *)
Definition handle_exception (e : exn) : list event * ending :=
  match with_cancellation v, e with
  | true, HTTPException status_code _ =>
      if status_code =? 499 then
        ([Error (Some (lit "cancelled"))
            (Message (Some (lit "Request was cancelled by client")))],
         Aborted)
      else ([], Propagated e)
  | _, _ =>
      ([Error (Some (lit "api_error")) (StreamingError e)], Aborted)
  end.

(** The closing events, and how the generator ends with them: an
    exception raised after the [try] block reaches the caller. *)
Definition close (original_request : ClaudeMessagesRequest) (st : state)
  : list event * ending :=
  match closing original_request st with
  | (evs, Ok _) => (evs, Completed)
  | (evs, Raised e) => (evs, Propagated e)
  end.

(** A whole translation: the events, the way it ends, and the registry
    of the client afterwards. *)
Definition translate (http_request : nat -> bool) (client : registry)
    (request_id : str) (openai_stream : list fetch)
    (original_request : ClaudeMessagesRequest)
  : list event * ending * registry :=
  match consume http_request request_id 0 client initial_state openai_stream with
  | (evs, Exhausted st) =>
      let '(evs', end_) := close original_request st in
      (opening original_request ++ evs ++ evs', end_, client)
  | (evs, Broken st client') =>
      let '(evs', end_) := close original_request st in
      (opening original_request ++ evs ++ evs', end_, client')
  | (evs, Returned) => (opening original_request ++ evs, Aborted, client)
  | (evs, Failed e) =>
      let '(evs', end_) := handle_exception e in
      (opening original_request ++ evs ++ evs', end_, client)
  end.

End Streaming.

Definition convert_openai_streaming_to_claude
    (json_loads : str -> loads_result) (enable_token_estimation : option bool)
    (openai_stream : list fetch) (original_request : ClaudeMessagesRequest)
  : list event * ending :=
  fst (translate json_loads enable_token_estimation Basic
         (fun _ => false) ∅ [] openai_stream original_request).

Definition convert_openai_streaming_to_claude_with_cancellation
    (json_loads : str -> loads_result) (enable_token_estimation : option bool)
    (openai_stream : list fetch) (original_request : ClaudeMessagesRequest)
    (http_request : nat -> bool) (openai_client : registry) (request_id : str)
  : list event * ending * registry :=
  translate json_loads enable_token_estimation WithCancellation
    http_request openai_client request_id openai_stream original_request.

(** *** The non-streaming translator *)

(** [input] of a tool-use block: the decoded arguments, or the wrapper
    around the string that does not decode. *)
Inductive tool_input : Type :=
| Parsed (arguments : str)
| RawArguments (arguments : option str).

(** An id taken from the backend, or drawn with [uuid4]. *)
Inductive ident : Type :=
| Given (s : option str)
| Generated.

Inductive content_block : Type :=
| Text (text : str)
| ToolUse (id : ident) (name : option str) (input : tool_input).

Record claude_response : Type := {
  claude_id : ident;
  claude_model : str;
  claude_content : list content_block;
  claude_stop_reason : stop_reason;
  usage_input_tokens : Z;
  usage_output_tokens : Z
}.

Definition ident_of (f : field str) : ident :=
  match f with
  | Absent => Generated
  | Null => Given None
  | Val s => Given (Some s)
  end.

Section Response.

Variable json_loads : str -> loads_result.
Variable enable_token_estimation : option bool.

(** The body of [for tool_call in tool_calls]: the block to append, if
    the call is a function call. *)
Definition tool_use_block (tool_call : response_tool_call)
  : result (option content_block) :=
  if bool_decide (get (rtc_type tool_call) = Some (lit "function")) then
    match get_or empty_function (rtc_function tool_call) with
    | None => Raised AttributeError
    | Some function_data =>
        match get_or (lit "{}") (fn_arguments function_data) with
        | None => Raised TypeError
        | Some text =>
            match json_loads text with
            | LoadsError message => Raised (OtherException message)
            | outcome =>
                let arguments :=
                  if decodes outcome then Parsed text
                  else RawArguments (get_or [] (fn_arguments function_data)) in
                Ok (Some (ToolUse (ident_of (rtc_id tool_call))
                            (get_or [] (fn_name function_data))
                            arguments))
            end
        end
    end
  else Ok None.

Fixpoint add_tool_blocks (content_blocks : list content_block)
    (calls : list response_tool_call) : result (list content_block) :=
  match calls with
  | [] => Ok content_blocks
  | tool_call :: calls' =>
      match tool_use_block tool_call with
      | Raised e => Raised e
      | Ok (Some block) => add_tool_blocks (content_blocks ++ [block]) calls'
      | Ok None => add_tool_blocks content_blocks calls'
      end
  end.

(** The blocks built before "Ensure at least one content block". *)
Definition build_content_blocks (message : response_message)
  : result (list content_block) :=
  let content_blocks :=
    match get (message_content message) with
    | Some (c :: text) => [Text (c :: text)]
    | _ => []
    end in
  let calls :=
    match get_or [] (message_tool_calls message) with
    | Some calls => calls
    | None => []
    end in
  add_tool_blocks content_blocks calls.

(** The text of the text blocks, concatenated. *)
Fixpoint response_text (content_blocks : list content_block) : str :=
  match content_blocks with
  | [] => []
  | Text text :: blocks => text ++ response_text blocks
  | ToolUse _ _ _ :: blocks => response_text blocks
  end.

Definition convert_openai_to_claude_response
    (openai_response : openai_response)
    (original_request : ClaudeMessagesRequest) : result claude_response :=
  match get_or [] (response_choices openai_response) with
  | None | Some [] =>
      Raised (HTTPException 500 (lit "No choices in OpenAI response"))
  | Some (choice :: _) =>
      match get_or empty_message (choice_message choice) with
      | None => Raised AttributeError
      | Some message =>
          match build_content_blocks message with
          | Raised e => Raised e
          | Ok content_blocks =>
              (* Ensure at least one content block *)
              let content_blocks :=
                match content_blocks with
                | [] => [Text []]
                | _ => content_blocks
                end in
              (* Map finish reason *)
              let stop_reason :=
                stop_reason_table
                  (get_or (lit "stop") (choice_finish_reason choice)) in
              match get_or empty_usage (response_usage openai_response) with
              | None => Raised AttributeError
              | Some usage_data =>
                  (* [config.enable_token_estimation] *)
                  match enable_token_estimation with
                  | None => Raised AttributeError
                  | Some flag =>
                      let '(input_tokens, output_tokens) :=
                        if flag && should_use_estimation usage_data then
                          (Some (estimate_input_tokens original_request),
                           Some (estimate_output_tokens
                                   (response_text content_blocks)))
                        else
                          (get_or 0 (prompt_tokens usage_data),
                           get_or 0 (completion_tokens usage_data)) in
                      (* the log line adds the two counts *)
                      match input_tokens, output_tokens with
                      | Some input_tokens, Some output_tokens =>
                          Ok {| claude_id :=
                                  ident_of (response_id openai_response);
                                claude_model := model original_request;
                                claude_content := content_blocks;
                                claude_stop_reason := stop_reason;
                                usage_input_tokens := input_tokens;
                                usage_output_tokens := output_tokens |}
                      | _, _ => Raised TypeError
                      end
                  end
              end
          end
      end
  end.

End Response.

End Converter.

(** ** What the properties below speak about *)

Module Spec.

Import TokenEstimator.
Import Client.
Import Converter.

(** The indices of the [content_block_start] events, in order. *)
Fixpoint start_indices (evs : list event) : list Z :=
  match evs with
  | [] => []
  | ContentBlockStart index _ :: evs' => index :: start_indices evs'
  | _ :: evs' => start_indices evs'
  end.

(** The indices of the [content_block_stop] events, in order. *)
Fixpoint stop_indices (evs : list event) : list Z :=
  match evs with
  | [] => []
  | ContentBlockStop index :: evs' => index :: stop_indices evs'
  | _ :: evs' => stop_indices evs'
  end.

(** The [input_json_delta] events: block index and [partial_json]. *)
Fixpoint json_deltas (evs : list event) : list (option Z * str) :=
  match evs with
  | [] => []
  | ContentBlockDelta index (InputJsonDelta partial_json) :: evs' =>
      (index, partial_json) :: json_deltas evs'
  | _ :: evs' => json_deltas evs'
  end.

(** The block indices of the [input_json_delta] events. *)
Definition delta_indices (evs : list event) : list (option Z) :=
  map fst (json_deltas evs).

(** What an entry of [current_tool_calls] contributes to the closing
    stops, and the list of these over the dictionary. *)
Definition started_index (tool_call : tool_call_entry) : list Z :=
  match started tool_call, claude_index tool_call with
  | true, Some index => [index]
  | _, _ => []
  end.

Definition started_indices (d : tool_calls) : list Z :=
  flat_map (fun entry => started_index (snd entry)) d.

(** The block index under which an entry has had its delta sent. *)
Definition sent_index (tool_call : tool_call_entry) : list (option Z) :=
  if json_sent tool_call then [claude_index tool_call] else [].

Definition sent_indices (d : tool_calls) : list (option Z) :=
  flat_map (fun entry => sent_index (snd entry)) d.

(** An entry that has a block index once it is started, and that is
    started once its delta is sent. *)
Definition entry_ok (tool_call : tool_call_entry) : Prop :=
  (started tool_call = true -> claude_index tool_call <> None)
  /\ (json_sent tool_call = true -> started tool_call = true).

(** The [error] events. *)
Fixpoint error_events (evs : list event) : list event :=
  match evs with
  | [] => []
  | Error kind text :: evs' => Error kind text :: error_events evs'
  | _ :: evs' => error_events evs'
  end.

(** Every [content_block_start] is followed by exactly one
    [content_block_stop] of its index. *)
Definition closed_once (evs : list event) : Prop :=
  forall pre index block post,
    evs = pre ++ ContentBlockStart index block :: post ->
    count_occ Z.eq_dec (stop_indices post) index = 1%nat.

(** What holds of the state and of the events of the loop as long as the
    loop runs: the tool blocks opened are those of the started entries,
    with distinct indices from 1 to the counter; the deltas sent are those
    the entries record; nothing is closed and no error is reported. *)
Definition invariant (st : state) (evs : list event) : Prop :=
  0 <= tool_block_counter st
  /\ Forall (fun index => 1 <= index <= tool_block_counter st) (start_indices evs)
  /\ NoDup (start_indices evs)
  /\ Permutation (start_indices evs) (started_indices (current_tool_calls st))
  /\ Forall (fun entry => entry_ok (snd entry)) (current_tool_calls st)
  /\ Permutation (delta_indices evs) (sent_indices (current_tool_calls st))
  /\ stop_indices evs = []
  /\ error_events evs = [].

(** What holds of the events of the loop however it is left, short of an
    error event. *)
Definition residual (evs : list event) : Prop :=
  NoDup (delta_indices evs) /\ stop_indices evs = [] /\ error_events evs = [].

(** The stops that close the blocks of a state: block 0, then the
    started tool blocks. *)
Definition block_stops (st : state) : list event :=
  ContentBlockStop 0
    :: map ContentBlockStop (started_indices (current_tool_calls st)).

(** The closing events of a translation that has read the flag. *)
Definition closing_events (flag : bool)
    (original_request : ClaudeMessagesRequest) (st : state) : list event :=
  block_stops st
  ++ [MessageDelta (final_stop_reason st)
        (fst (final_usage flag original_request st))
        (snd (final_usage flag original_request st));
      MessageStop].

(** The usage object a chunk carries, if any. *)
Definition reported_usage (c : chunk) : usage :=
  match chunk_usage c with
  | Val u => u
  | _ => empty_usage
  end.

(** "Last positive value wins": a running total after one usage key. *)
Definition overwrite (total : Z) (reported : field Z) : Z :=
  match reported with
  | Val n => if 0 <? n then n else total
  | _ => total
  end.

(** Both running totals after the usage object of a chunk. *)
Definition usage_applied (st st' : state) (c : chunk) : Prop :=
  total_input_tokens st'
  = overwrite (total_input_tokens st) (prompt_tokens (reported_usage c))
  /\ total_output_tokens st'
     = overwrite (total_output_tokens st) (completion_tokens (reported_usage c)).


(** The fixed table of the specification: stop to end_turn, length to
    max_tokens, tool_calls or function_call to tool_use, anything else to
    end_turn. *)
Definition spec_stop_reason (finish_reason : str) : stop_reason :=
  if bool_decide (finish_reason = lit "stop") then STOP_END_TURN
  else if bool_decide (finish_reason = lit "length") then STOP_MAX_TOKENS
  else if bool_decide (finish_reason = lit "tool_calls"
                       \/ finish_reason = lit "function_call")
  then STOP_TOOL_USE
  else STOP_END_TURN.

(** [estimateText] in the words of the specification: 0 for empty input;
    otherwise the divisor is 1.2 when the fraction of CJK characters
    exceeds 0.7, 4.0 when it is below 0.1 and 2.5 otherwise, and the result
    is max(1, floor(charCount / divisor)). *)
Definition spec_estimate_text (text : str) : Z :=
  match text with
  | [] => 0
  | _ =>
      let char_count := length text in
      let fraction :=
        (float_of_nat (length (List.filter is_cjk text))
         / float_of_nat char_count)%float in
      let divisor :=
        if (0.7 <? fraction)%float then 1.2%float
        else if (fraction <? 0.1)%float then 4.0%float
        else 2.5%float in
      Z.max 1 (int_of_float (float_of_nat char_count / divisor))
  end.

(** The same estimate in exact arithmetic on the two counts: the fraction
    is compared as a fraction, and the quotients by 1.2, 4 and 2.5 are
    integer quotients. *)
Definition exact_estimate (cjk_count char_count : Z) : Z :=
  if char_count =? 0 then 0
  else if 7 * char_count <? 10 * cjk_count then Z.max 1 (10 * char_count / 12)
  else if 10 * cjk_count <? char_count then Z.max 1 (char_count / 4)
  else Z.max 1 (10 * char_count / 25).

(** The estimate of the source as a function of the two counts. *)
Definition float_estimate (cjk_count char_count : nat) : Z :=
  match char_count with
  | O => 0
  | _ =>
      Z.max 1 (int_of_float
                 (float_of_nat char_count
                  / divisor_of (chinese_ratio_of cjk_count char_count)))
  end.

(** [test] holds on the [n] integers from [z] on. *)
Fixpoint all_from (test : Z -> bool) (n : nat) (z : Z) : bool :=
  match n with
  | O => true
  | S n' => test z && all_from test n' (z + 1)
  end.

(** The two comparisons of the fraction come out as in exact
    arithmetic. *)
Definition class_agrees (char_count cjk_count : Z) : bool :=
  let fraction := (float_of_Z cjk_count / float_of_Z char_count)%float in
  Bool.eqb (0.7 <? fraction)%float (7 * char_count <? 10 * cjk_count)
  && Bool.eqb (fraction <? 0.1)%float (10 * cjk_count <? char_count).

(** The three truncated quotients are the integer quotients. *)
Definition quotients_agree (char_count : Z) : bool :=
  (int_of_float (float_of_Z char_count / 1.2) =? 10 * char_count / 12)
  && (int_of_float (float_of_Z char_count / 4.0) =? char_count / 4)
  && (int_of_float (float_of_Z char_count / 2.5) =? 10 * char_count / 25).

(** Both, for every text length from 1 to [bound] and every number of
    CJK characters in it. *)
Definition agree_up_to (bound : nat) : bool :=
  all_from (fun char_count =>
              quotients_agree char_count
              && all_from (class_agrees char_count)
                          (S (Z.to_nat char_count)) 0)
           bound 1.

(** The loop of a translation has been left, by the end of the stream or
    by [break], in state [st] after the events [body]. *)
Definition loop_left (json_loads : str -> loads_result) (v : variant)
    (http_request : nat -> bool) (request_id : str) (client : registry)
    (openai_stream : list fetch) (body : list event) (st : state) : Prop :=
  consume json_loads v http_request request_id 0 client initial_state
    openai_stream = (body, Exhausted st)
  \/ exists client',
      consume json_loads v http_request request_id 0 client initial_state
        openai_stream = (body, Broken st client').

(** A backend result without a [null] where the non-streaming translator
    takes an object, a string or a number for granted, and without
    arguments of a tool call on which [json.loads] raises another exception
    than [JSONDecodeError]. *)
Definition not_null {A : Type} (f : field A) : bool :=
  match f with
  | Null => false
  | _ => true
  end.

Definition returns_or_rejects (r : loads_result) : bool :=
  match r with
  | LoadsError _ => false
  | _ => true
  end.

Definition well_formed_tool_call (json_loads : str -> loads_result)
    (tool_call : response_tool_call) : bool :=
  match get_or empty_function (rtc_function tool_call) with
  | None => false
  | Some function_data =>
      match get_or (lit "{}") (fn_arguments function_data) with
      | None => false
      | Some text => returns_or_rejects (json_loads text)
      end
  end.

Definition well_formed_message (json_loads : str -> loads_result)
    (message : field response_message) : bool :=
  match message with
  | Null => false
  | Absent => true
  | Val message =>
      match message_tool_calls message with
      | Val calls => forallb (well_formed_tool_call json_loads) calls
      | _ => true
      end
  end.

Definition well_formed_usage (usage_data : field usage) : bool :=
  match usage_data with
  | Null => false
  | Absent => true
  | Val u => not_null (prompt_tokens u) && not_null (completion_tokens u)
  end.

Definition well_formed_response (json_loads : str -> loads_result)
    (r : openai_response) : bool :=
  match response_choices r with
  | Val (choice :: _) => well_formed_message json_loads (choice_message choice)
  | _ => false
  end
  && well_formed_usage (response_usage r).

(** *** Streams used as examples *)

Definition quote : N := 34%N.

(** [{"a":1] and [}] *)
Definition fragment_1 : str := lit "{" ++ [quote] ++ lit "a" ++ [quote] ++ lit ":1".
Definition fragment_2 : str := lit "}".

Definition tool_chunk (id name : field str) (arguments : field str) : chunk :=
  {| error := Absent;
     choices :=
       Val [{| choice_delta :=
                 Val {| delta_content := Absent;
                        delta_tool_calls :=
                          Val [{| tc_index := Val 0;
                                  tc_id := id;
                                  tc_function :=
                                    Val {| fn_name := name;
                                           fn_arguments := arguments |} |}] |};
               finish_reason := Null |}];
     chunk_usage := Absent |}.

(** A chunk with one choice, an empty delta and the usage snapshot. *)
Definition usage_chunk (snapshot : Z * Z) : chunk :=
  {| error := Absent;
     choices :=
       Val [{| choice_delta := Val empty_delta; finish_reason := Null |}];
     chunk_usage :=
       Val {| prompt_tokens := Val (fst snapshot);
              completion_tokens := Val (snd snapshot);
              input_tokens := Absent; output_tokens := Absent |} |}.

(** The usage chunk of a backend that reports usage apart: no choice. *)
Definition usage_only_chunk (snapshot : Z * Z) : chunk :=
  {| error := Absent;
     choices := Val [];
     chunk_usage :=
       Val {| prompt_tokens := Val (fst snapshot);
              completion_tokens := Val (snd snapshot);
              input_tokens := Absent; output_tokens := Absent |} |}.

(** A chunk that only carries a finish reason. *)
Definition finish_chunk (reason : field str) : chunk :=
  {| error := Absent;
     choices :=
       Val [{| choice_delta := Val empty_delta; finish_reason := reason |}];
     chunk_usage := Absent |}.



(** A tool call whose id and name come with the first fragment, and the
    same fragments with the name held back to the second chunk. *)
Definition tool_stream : list fetch :=
  [Yields (Data (tool_chunk (Val (lit "call_1")) (Val (lit "f")) (Val fragment_1)));
   Yields (Data (tool_chunk Absent Absent (Val fragment_2)));
   Yields (Data (finish_chunk (Val (lit "tool_calls"))));
   Yields Done].

Definition late_name_stream : list fetch :=
  [Yields (Data (tool_chunk (Val (lit "call_1")) Absent (Val fragment_1)));
   Yields (Data (tool_chunk Absent (Val (lit "f")) (Val fragment_2)));
   Yields (Data (finish_chunk (Val (lit "tool_calls"))));
   Yields Done].

(** *** The arguments of one tool call, fragment by fragment *)

(** The fragments that a payload hands to the loop body: the entries of
    [tool_calls] in the delta of its first choice. *)
Definition chunk_fragments (c : chunk) : list tool_call_delta :=
  match get_or [] (choices c) with
  | Some (choice :: _) =>
      match get_or empty_delta (choice_delta choice) with
      | Some d => default [] (get (delta_tool_calls d))
      | None => []
      end
  | _ => []
  end.

Definition line_fragments (l : line) : list tool_call_delta :=
  match l with
  | Data c => chunk_fragments c
  | _ => []
  end.

Definition stream_fragments (openai_stream : list fetch)
  : list tool_call_delta :=
  flat_map (fun f => match f with
                     | Yields l => line_fragments l
                     | Raises _ => []
                     end) openai_stream.

(** The fragments of one tool call: those with its key, the [index] of
    the fragment, 0 when it has none. *)
Definition call_fragments (k : option Z) (fragments : list tool_call_delta)
  : list tool_call_delta :=
  List.filter (fun tc => bool_decide (get_or 0 (tc_index tc) = k)) fragments.

Definition fragment_function (tc : tool_call_delta) : function_delta :=
  default empty_function (get_or empty_function (tc_function tc)).

(** A fragment that brings the id of its call, and one that brings the
    name of the function. *)
Definition names_call (tc : tool_call_delta) : bool :=
  truthy (get (tc_id tc)).

Definition names_function (tc : tool_call_delta) : bool :=
  truthy (get (fn_name (fragment_function tc))).

(** The argument texts of a call that are kept: those of the fragments
    from the one on with which both the id and the name are known. *)
Fixpoint kept_arguments (id_known name_known : bool)
    (mine : list tool_call_delta) : list str :=
  match mine with
  | [] => []
  | tc :: rest =>
      let id_known := id_known || names_call tc in
      let name_known := name_known || names_function tc in
      (if id_known && name_known then
         match fn_arguments (fragment_function tc) with
         | Val fragment => [fragment]
         | _ => []
         end
       else [])
      ++ kept_arguments id_known name_known rest
  end.

(** The buffer grows by one text after the other: the first buffer that
    decodes, if any. *)
Fixpoint first_decoding (json_loads : str -> loads_result) (buffer : str)
    (texts : list str) : option str :=
  match texts with
  | [] => None
  | text :: rest =>
      if decodes (json_loads (buffer ++ text)) then Some (buffer ++ text)
      else first_decoding json_loads (buffer ++ text) rest
  end.

(** The [input_json_delta] events sent to one block. *)
Definition block_deltas (index : option Z) (evs : list event)
  : list (option Z * str) :=
  List.filter (fun d => bool_decide (fst d = index)) (json_deltas evs).

(** What the entry of a call records of the fragments of the call, and
    what has been sent to its block. *)
Definition tracks (json_loads : str -> loads_result)
    (mine : list tool_call_delta) (evs : list event)
    (entry : tool_call_entry) : Prop :=
  let texts := kept_arguments false false mine in
  truthy (tool_id entry) = existsb names_call mine
  /\ truthy (tool_name entry) = existsb names_function mine
  /\ started entry = existsb names_call mine && existsb names_function mine
  /\ (started entry = false -> claude_index entry = None)
  /\ args_buffer entry = concat texts
  /\ json_sent entry = match first_decoding json_loads [] texts with
                       | Some _ => true
                       | None => false
                       end
  /\ block_deltas (claude_index entry) evs
     = match first_decoding json_loads [] texts with
       | Some text => [(claude_index entry, text)]
       | None => []
       end.

(** The dictionary of a state, against the fragments handled so far. *)
Definition ledger (json_loads : str -> loads_result)
    (fragments : list tool_call_delta) (evs : list event) (st : state)
  : Prop :=
  forall k : option Z,
    match lookup_call k (current_tool_calls st) with
    | Some entry => tracks json_loads (call_fragments k fragments) evs entry
    | None => call_fragments k fragments = []
    end.

(** A stream on which the client reports a timeout. *)
Definition timeout_stream : list fetch :=
  [Yields (Data (error_chunk (lit "timeout_error")
                   (lit "Timeout waiting for streaming chunk")))].

(** A backend result with neither text nor tool call, cut by the token
    limit. *)
Definition empty_response : openai_response :=
  {| response_id := Val (lit "chatcmpl-1");
     response_choices :=
       Val [{| choice_message :=
                 Val {| message_content := Null; message_tool_calls := Null |};
               choice_finish_reason := Val (lit "length") |}];
     response_usage :=
       Val {| prompt_tokens := Val 7; completion_tokens := Val 0;
              input_tokens := Absent; output_tokens := Absent |} |}.

Definition example_request : ClaudeMessagesRequest :=
  {| model := lit "claude-3-haiku";
     max_tokens := 100;
     messages := [{| role := lit "user"; content := ContentStr (lit "test") |}];
     system := None |}.

End Spec.

(** ** String operations of the set-up code *)

Module Text.

(** [s.startswith(prefix)] *)
Fixpoint startswith (s prefix : str) {struct prefix} : bool :=
  match prefix, s with
  | [], _ => true
  | p :: prefix', c :: s' => (c =? p)%N && startswith s' prefix'
  | _ :: _, [] => false
  end.

(** [sub in s] *)
Fixpoint contains (s sub : str) : bool :=
  startswith s sub
  || match s with
     | [] => false
     | _ :: s' => contains s' sub
     end.

(** [s.split(sep)[0]] for a separator that is not empty: what stands
    before the first [sep], and all of [s] when it holds none. *)
Fixpoint before (s sep : str) : str :=
  if startswith s sep then []
  else
    match s with
    | [] => []
    | c :: s' => c :: before s' sep
    end.

(** [s.rstrip(char)] for one character. *)
Fixpoint rstrip (s : str) (char : N) : str :=
  match s with
  | [] => []
  | c :: s' =>
      match rstrip s' char with
      | [] => if (c =? char)%N then [] else [c]
      | kept => c :: kept
      end
  end.

End Text.

(** ** src/core/config.py *)

Module Config.

Import Text.

(** [self.openai_base_url] as [Config.__init__] leaves it, from the two
    environment variables it depends on.  The numeric settings, read with
    [int], are left out. *)
Definition openai_base_url (OPENAI_BASE_URL AZURE_API_VERSION : option str) : str :=
  let openai_base_url := default (lit "https://api.openai.com/v1") OPENAI_BASE_URL in
  if truthy AZURE_API_VERSION then
    if contains openai_base_url (lit "/openai/deployments/") then
      (* parts = self.openai_base_url.split('/openai/'); len(parts) > 1 *)
      if contains openai_base_url (lit "/openai/")
      then before openai_base_url (lit "/openai/")
      else openai_base_url
    else openai_base_url
  else openai_base_url.

(** [Config.__init__] assigns no attribute [enable_token_estimation]: the
    [config] object of the module has none, and reading it raises
    [AttributeError]. *)
Definition enable_token_estimation : option bool := None.

Definition validate_api_key (openai_api_key : option str) : bool :=
  if negb (truthy openai_api_key) then false
  else if negb (startswith (default [] openai_api_key) (lit "sk-")) then false
  else true.

End Config.

(** ** src/core/client.py: the constructor *)

Module ClientSetup.

Import Text.
Import Client.

(** The backend client that [OpenAIClient.__init__] instantiates. *)
Inductive backend_client : Type :=
| AsyncAzureOpenAI (api_key azure_endpoint api_version : str) (timeout max_retries : Z)
| AsyncOpenAI (api_key base_url : str) (timeout max_retries : Z).

(** "Clean up the endpoint if it contains deployment-specific paths" and
    "Remove any trailing slashes". *)
Definition azure_endpoint (base_url : str) : str :=
  let azure_endpoint := base_url in
  let azure_endpoint :=
    if contains azure_endpoint (lit "/openai")
    then before azure_endpoint (lit "/openai")
    else azure_endpoint in
  rstrip azure_endpoint 47%N.

(** [self.client] and [self.active_requests] after [__init__]. *)
Definition __init__ (api_key base_url : str) (timeout : Z) (api_version : option str)
  : backend_client * registry :=
  let client :=
    match api_version with
    | Some (c :: version) =>
        AsyncAzureOpenAI api_key (azure_endpoint base_url) (c :: version) timeout 3
    | _ => AsyncOpenAI api_key base_url timeout 3
    end in
  (client, ∅).

End ClientSetup.

(** ** src/core/client.py: the alternative streaming call *)

Module ClientAlternative.

Import Client.

(** How the call that opens the stream ends: in time, after the ten
    seconds it is given, or with an exception. *)
Inductive creation : Type :=
| Created
| CreationTimeout
| CreationFailed (message : str).

(** The [while True] loop of [_handle_azure_streaming_alternative], with
    the turns and the demand of [chunk_loop].  It looks at no finish
    reason. *)
Fixpoint alternative_loop (request_id : option str) (demand : nat)
    (chunk_count : nat) (active_requests : registry) (turns : list turn)
  : list line * registry :=
  match demand with
  | O => ([], active_requests)
  | S demand' =>
      match turns with
      | [] => ([Done], active_requests)
      | t :: turns' =>
          let active_requests := meanwhile t active_requests in
          match arrives t with
          | StopAsyncIteration => ([Done], active_requests)
          | TimeoutError =>
              ([Data (error_chunk (lit "timeout_error")
                        (timeout_message chunk_count))],
               active_requests)
          | FetchError message =>
              ([Data (error_chunk (lit "stream_error")
                        (lit "Error reading stream: " ++ message))],
               active_requests)
          | Fetched c =>
              let chunk_count := S chunk_count in
              if is_cancelled active_requests request_id then
                ([Data (error_chunk (lit "client_error")
                          (lit "Request cancelled by client"))],
                 active_requests)
              else
                let '(lines, active_requests) :=
                  alternative_loop request_id demand' chunk_count
                    active_requests turns' in
                (Data c :: lines, active_requests)
          | Undumpable =>
              let chunk_count := S chunk_count in
              if is_cancelled active_requests request_id then
                ([Data (error_chunk (lit "client_error")
                          (lit "Request cancelled by client"))],
                 active_requests)
              else alternative_loop request_id demand chunk_count
                     active_requests turns'
          end
      end
  end.

(** [_handle_azure_streaming_alternative]: it neither makes nor removes
    the registry entry of the request. *)
Definition _handle_azure_streaming_alternative
    (active_requests : registry) (request_id : option str)
    (created : creation) (turns : list turn) (demand : nat)
  : list line * registry :=
  match demand with
  | O => ([], active_requests)
  | S _ =>
      match created with
      | CreationTimeout =>
          ([Data (error_chunk (lit "timeout_error")
                    (lit "Azure streaming creation timed out"))],
           active_requests)
      | CreationFailed message =>
          ([Data (error_chunk (lit "stream_error")
                    (lit "Alternative streaming failed: " ++ message))],
           active_requests)
      | Created => alternative_loop request_id demand 0 active_requests turns
      end
  end.

End ClientAlternative.

(** ** What the further properties speak about *)

Module Protocol.

Import TokenEstimator.
Import Client.
Import Converter.

(** The chunks the backend hands over during the turns, in order. *)
Definition fetched_chunks (turns : list turn) : list chunk :=
  flat_map (fun t => match arrives t with
                     | Fetched c => [c]
                     | _ => []
                     end) turns.

(** A line that ends a stream of the client: the end marker, or an error
    payload made by the client. *)
Definition closes_stream (l : line) : Prop :=
  l = Done \/ exists kind message, l = Data (error_chunk kind message).

(** A turn after which the chunk loop of the client reads no further,
    whatever the registry holds. *)
Definition last_turn (t : turn) : bool :=
  match arrives t with
  | Fetched c => ends_stream c
  | Undumpable => false
  | StopAsyncIteration | TimeoutError | FetchError _ => true
  end.

(** Every turn hands over a chunk, and at none of them is the request
    found cancelled: the registry is followed through the turns, from
    [active_requests] on, each turn applying what other tasks do
    meanwhile. *)
Fixpoint handed_over (request_id : option str) (active_requests : registry)
    (turns : list turn) : Prop :=
  match turns with
  | [] => True
  | t :: turns' =>
      (exists c, arrives t = Fetched c)
      /\ is_cancelled (meanwhile t active_requests) request_id = false
      /\ handed_over request_id (meanwhile t active_requests) turns'
  end.

(** A turn during which no other task touches the entry of [request_id],
    and that hands over the chunk [c], which does not end the stream. *)
Definition forwards (request_id : str) (t : turn) (c : chunk) : Prop :=
  arrives t = Fetched c /\ ends_stream c = false
  /\ forall r : registry, meanwhile t r !! request_id = r !! request_id.

(** The error payload of a cancelled stream. *)
Definition cancelled_payload : line :=
  Data (error_chunk (lit "client_error") (lit "Request cancelled by client")).

(** The events a translator sends between the opening and the end: a
    tool block opened under an id and a name, a text delta that is not
    empty and goes to block 0, a tool-input delta whose text decodes. *)
Definition block_event (json_loads : str -> loads_result) (e : event) : bool :=
  match e with
  | ContentBlockStart _ (ToolUseBlock id name) => truthy id && truthy name
  | ContentBlockDelta index (TextDelta text) =>
      bool_decide (index = Some text_block_index) && truthy (Some text)
  | ContentBlockDelta _ (InputJsonDelta partial_json) =>
      decodes (json_loads partial_json)
  | _ => false
  end.

(** The exceptions that the body of the loop raises itself: the errors
    of the interpreter on an operand of the wrong type, and what
    [json.loads] raises; never an [HTTPException]. *)
Definition body_error (e : exn) : bool :=
  match e with
  | HTTPException _ _ => false
  | _ => true
  end.

(** A step of a generator body whose events all pass [P] and that, if it
    raises, raises an error of the body. *)
Definition sound {A : Type} (P : event -> bool) (m : gen A) : Prop :=
  Forall (fun e => P e = true) (fst m)
  /\ match snd m with
     | Raised e => body_error e = true
     | Ok _ => True
     end.

Definition is_stop (e : event) : bool :=
  match e with
  | ContentBlockStop _ => true
  | _ => false
  end.

(** The list is [first], [first + 1], [first + 2], ... *)
Definition consecutive_from (first : Z) (indices : list Z) : Prop :=
  indices = map (fun k => first + Z.of_nat k) (seq 0 (length indices)).

(** Every delta is addressed to a block that has been opened before it:
    one of [opened], or one opened by an earlier event of the list. *)
Fixpoint deltas_follow_starts (opened : list Z) (evs : list event) : Prop :=
  match evs with
  | [] => True
  | ContentBlockStart index _ :: evs' =>
      deltas_follow_starts (index :: opened) evs'
  | ContentBlockDelta index _ :: evs' =>
      (exists i, index = Some i /\ In i opened)
      /\ deltas_follow_starts opened evs'
  | _ :: evs' => deltas_follow_starts opened evs'
  end.

(** The [k] block indices that follow the counter. *)
Definition block_run (counter : Z) (k : nat) : list Z :=
  map (fun j => counter + 1 + Z.of_nat j) (seq 0 k).

(** A stream on which the two translators have no occasion to differ: no
    payload with an [error] key, no [null] for the list of tool calls or
    for the arguments of one, no payload that is no object and on which
    the test for the [error] key does not answer False, and no
    [HTTPException] from the source. *)
Definition plain_tool_call (tc_delta : tool_call_delta) : bool :=
  match tc_function tc_delta with
  | Val function_data =>
      match fn_arguments function_data with
      | Null => false
      | _ => true
      end
  | _ => true
  end.

Definition plain_delta (d : delta) : bool :=
  match delta_tool_calls d with
  | Absent => true
  | Null => false
  | Val deltas => forallb plain_tool_call deltas
  end.

Definition plain_chunk (c : chunk) : bool :=
  negb (has_key (error c))
  && match get_or [] (choices c) with
     | Some (choice :: _) =>
         match choice_delta choice with
         | Val d => plain_delta d
         | _ => true
         end
     | _ => true
     end.

Definition plain_fetch (f : fetch) : bool :=
  match f with
  | Yields (Data c) => plain_chunk c
  | Yields (NotAnObject holds_error) => bool_decide (holds_error = Some false)
  | Yields _ => true
  | Raises (HTTPException _ _) => false
  | Raises _ => true
  end.

(** A line that a translator passes over: blank, not a data line, not
    decodable, or a payload without a choice (for the second translator,
    one without an [error] key either). *)
Definition skipped (v : variant) (l : line) : bool :=
  match l with
  | Blank | NotData | Malformed => true
  | Done | Undecodable _ | NotAnObject _ => false
  | Data c =>
      negb (with_cancellation v && has_key (error c))
      && match get_or [] (choices c) with
         | None | Some [] => true
         | Some (_ :: _) => false
         end
  end.

Definition kept (v : variant) (f : fetch) : bool :=
  match f with
  | Yields l => negb (skipped v l)
  | Raises _ => true
  end.

(** The running totals are not negative. *)
Definition totals_nonneg (st : state) : Prop :=
  0 <= total_input_tokens st /\ 0 <= total_output_tokens st.

(** The text block and the tool calls that a message of the backend
    holds. *)
Definition text_part (message : response_message) : list content_block :=
  match get (message_content message) with
  | Some (c :: text) => [Text (c :: text)]
  | _ => []
  end.

Definition calls_of (message : response_message) : list response_tool_call :=
  match get_or [] (message_tool_calls message) with
  | Some calls => calls
  | None => []
  end.

Definition is_function_call (tool_call : response_tool_call) : bool :=
  bool_decide (get (rtc_type tool_call) = Some (lit "function")).

(** The text of a message: its content when that is a string that is not
    empty. *)
Definition text_of (message : response_message) : str :=
  match get (message_content message) with
  | Some text => text
  | None => []
  end.

End Protocol.

(** * Properties *)

Import TokenEstimator Client Converter Spec.

(** ** The token estimator *)

Section EstimatorFacts.

Lemma estimate_of_counts (text : str) :
  estimate_text_tokens (ContentStr text)
  = float_estimate (length (List.filter is_cjk text)) (length text).
Proof.
  destruct text as [|c text]; reflexivity.
Qed.

Lemma filter_cjk_none (text : str) :
  Forall (fun c => (c < 128)%N) text -> List.filter is_cjk text = [].
Proof.
  induction 1 as [|c text Hc _ IH]; simpl; [reflexivity|].
  rewrite IH.
  unfold is_cjk.
  destruct (N.leb_spec 19968 c); [lia | reflexivity].
Qed.

Lemma filter_cjk_all (text : str) :
  Forall (fun c => is_cjk c = true) text -> List.filter is_cjk text = text.
Proof.
  induction 1 as [|c text Hc _ IH]; simpl; [reflexivity|].
  rewrite Hc, IH. reflexivity.
Qed.

Lemma all_from_sound (test : Z -> bool) (n : nat) (z x : Z) :
  all_from test n z = true -> z <= x < z + Z.of_nat n -> test x = true.
Proof.
  revert z.
  induction n as [|n IH]; intros z Hall Hx; [lia|].
  simpl in Hall. apply andb_prop in Hall as [Hz Hrest].
  destruct (Z.eq_dec x z) as [->|Hne]; [exact Hz|].
  apply (IH (z + 1)); [exact Hrest | lia].
Qed.

Lemma agree_up_to_sound (bound cjk_count char_count : nat) :
  agree_up_to bound = true ->
  (cjk_count <= char_count)%nat -> (char_count <= bound)%nat ->
  float_estimate cjk_count char_count
  = exact_estimate (Z.of_nat cjk_count) (Z.of_nat char_count).
Proof.
  intros Hall Hle Hbound.
  destruct char_count as [|n]; [reflexivity|].
  set (t := Z.of_nat (S n)). set (c := Z.of_nat cjk_count).
  assert (Ht : 1 <= t < 1 + Z.of_nat bound) by lia.
  pose proof (all_from_sound _ _ _ _ Hall Ht) as Hboth.
  apply andb_prop in Hboth as [Hq Hc].
  assert (Hcr : 0 <= c < 0 + Z.of_nat (S (Z.to_nat t))) by lia.
  pose proof (all_from_sound _ _ _ _ Hc Hcr) as Hclass.
  unfold class_agrees in Hclass.
  apply andb_prop in Hclass as [Hhigh Hlow].
  apply Bool.eqb_prop in Hhigh, Hlow.
  unfold quotients_agree in Hq.
  apply andb_prop in Hq as [Hq Hq25]. apply andb_prop in Hq as [Hq12 Hq4].
  apply Z.eqb_eq in Hq12, Hq4, Hq25.
  unfold float_estimate, exact_estimate, divisor_of, chinese_ratio_of,
    float_of_nat, CHINESE_CHAR_PER_TOKEN, ENGLISH_CHAR_PER_TOKEN,
    MIXED_CHAR_PER_TOKEN.
  fold t c.
  rewrite Hhigh, Hlow.
  destruct (Z.eqb_spec t 0) as [H0|_]; [lia|].
  destruct (7 * t <? 10 * c); [rewrite Hq12; reflexivity|].
  destruct (10 * c <? t); [rewrite Hq4 | rewrite Hq25]; reflexivity.
Qed.

Lemma agree_up_to_2000 : agree_up_to 2000 = true.
Proof. vm_cast_no_check (eq_refl true). Qed.

(** On texts of at most 2000 characters the binary64 estimate of the
    source is the estimate in exact arithmetic. *)
Lemma estimate_text_tokens_exact (text : str) :
  (length text <= 2000)%nat ->
  estimate_text_tokens (ContentStr text)
  = exact_estimate (Z.of_nat (length (List.filter is_cjk text)))
                   (Z.of_nat (length text)).
Proof.
  intros Hlen.
  rewrite estimate_of_counts.
  apply (agree_up_to_sound 2000); [exact agree_up_to_2000 | | exact Hlen].
  apply List.filter_length_le.
Qed.

End EstimatorFacts.

(** C8.  For every text the estimator returns 0 on the empty string and
    otherwise max(1, floor(charCount / divisor)), the divisor being 1.2
    when the fraction of CJK characters exceeds 0.7, 4.0 when it is below
    0.1 and 2.5 otherwise; every pure-ASCII text of 400 characters is
    estimated at 100 tokens, and every pure-CJK text of 120 characters at
    100 tokens.  The quotient and the two comparisons are those of binary64
    arithmetic, as in the source; on texts of at most 2000 characters they
    come out as in exact arithmetic. *)
Theorem estimate_text_tokens_spec :
  (forall text : str,
      estimate_text_tokens (ContentStr text) = spec_estimate_text text)
  /\ (forall text : str,
         length text = 400%nat -> Forall (fun c => (c < 128)%N) text ->
         estimate_text_tokens (ContentStr text) = 100)
  /\ (forall text : str,
         length text = 120%nat -> Forall (fun c => is_cjk c = true) text ->
         estimate_text_tokens (ContentStr text) = 100)
  /\ (forall text : str,
         (length text <= 2000)%nat ->
         estimate_text_tokens (ContentStr text)
         = exact_estimate (Z.of_nat (length (List.filter is_cjk text)))
             (Z.of_nat (length text))).
Proof.
  split; [|split; [|split]]; [| | |exact estimate_text_tokens_exact].
  - intros [|c text]; reflexivity.
  - intros text Hlen Hascii.
    rewrite estimate_of_counts, (filter_cjk_none _ Hascii), Hlen.
    vm_compute. reflexivity.
  - intros text Hlen Hcjk.
    rewrite estimate_of_counts, (filter_cjk_all _ Hcjk), Hlen.
    vm_compute. reflexivity.
Qed.

Lemma estimate_text_tokens_spec_witness :
  estimate_text_tokens (ContentStr (repeat 97%N 400)) = 100
  /\ estimate_text_tokens (ContentStr (repeat 20013%N 120)) = 100
  /\ estimate_text_tokens (ContentStr (lit "hello world"))
     = exact_estimate 0 11.
Proof.
  destruct estimate_text_tokens_spec as (_ & Hascii & Hcjk & Hexact).
  split; [|split; [|apply (Hexact (lit "hello world")); vm_compute; lia]].
  - apply Hascii.
    + vm_compute. reflexivity.
    + apply Forall_forall. intros c Hc. apply list_elem_of_In, repeat_spec in Hc. subst c. reflexivity.
  - apply Hcjk.
    + vm_compute. reflexivity.
    + apply Forall_forall. intros c Hc. apply list_elem_of_In, repeat_spec in Hc. subst c. reflexivity.
Defined.

(** ** The cancellation registry of the client *)

Section RegistryFacts.

Lemma track_lookup (active_requests : registry) (request_id : str) :
  request_id <> [] ->
  track active_requests (Some request_id) !! request_id = Some false.
Proof.
  intros Hid. destruct request_id as [|c s]; [congruence|].
  simpl. apply lookup_insert_eq.
Qed.

Lemma untrack_lookup (active_requests : registry) (request_id : str) :
  request_id <> [] ->
  untrack active_requests (Some request_id) !! request_id = None.
Proof.
  intros Hid. destruct request_id as [|c s]; [congruence|].
  simpl.
  destruct (active_requests !! (c :: s)) eqn:Hentry.
  - apply lookup_delete_eq.
  - exact Hentry.
Qed.

Lemma untrack_other (active_requests : registry) (request_id other : str) :
  other <> request_id ->
  untrack active_requests (Some request_id) !! other = active_requests !! other.
Proof.
  intros Hne. destruct request_id as [|c s]; [reflexivity|].
  simpl.
  destruct (active_requests !! (c :: s)); [|reflexivity].
  apply lookup_delete_ne. congruence.
Qed.

End RegistryFacts.

(** C9.  A call of the client that is given a request id creates the
    registry entry of that id when it starts, and whatever happens while it
    is in flight (completion, a classified or unexpected failure, a timeout,
    cancellation, other tasks acting on the registry, the consumer closing
    the stream early), the registry holds no entry for that id once the call
    has ended. *)
Theorem registry_entry_removed :
  (forall (active_requests : registry) (request_id : str),
      request_id <> [] ->
      track active_requests (Some request_id) !! request_id = Some false)
  /\ (forall (A : Type) (active_requests : registry) (request_id : str)
             (env : in_flight A),
         request_id <> [] ->
         snd (create_chat_completion active_requests (Some request_id) env)
           !! request_id = None)
  /\ (forall (active_requests : registry) (request_id : str)
             (created : option str) (turns : list turn) (demand : nat),
         request_id <> [] -> demand <> O ->
         snd (create_chat_completion_stream active_requests (Some request_id)
                created turns demand) !! request_id = None).
Proof.
  split; [|split].
  - apply track_lookup.
  - intros A active_requests request_id env Hid.
    unfold create_chat_completion. simpl.
    apply untrack_lookup, Hid.
  - intros active_requests request_id created turns demand Hid Hdemand.
    unfold create_chat_completion_stream.
    destruct demand as [|demand]; [congruence|].
    destruct created as [failure|].
    + simpl. apply untrack_lookup, Hid.
    + destruct (chunk_loop (Some request_id) (S demand) 0
                  (track active_requests (Some request_id)) turns)
        as [lines after].
      simpl. apply untrack_lookup, Hid.
Qed.

Lemma registry_entry_removed_witness :
  snd (create_chat_completion (A := unit) ∅ (Some (lit "req-1"))
         {| others := fun r => r; cancel_fired := true;
            backend := Failure (APIError None) |})
    !! lit "req-1" = None
  /\ snd (create_chat_completion_stream ∅ (Some (lit "req-1")) None
            [{| meanwhile := fun r => fst (cancel_request r (lit "req-1"));
                arrives := Fetched (finish_chunk Null) |}] 3)
       !! lit "req-1" = None.
Proof.
  destruct registry_entry_removed as (_ & Hcall & Hstream).
  split.
  - apply Hcall. discriminate.
  - apply Hstream; discriminate.
Defined.

(** ** The generator monad *)

Section GenFacts.

Context {A B : Type}.

Lemma bind_ok (m : gen A) (k : A -> gen B) (evs : list event) (b : B) :
  bind m k = (evs, Ok b) ->
  exists evs1 a evs2,
    m = (evs1, Ok a) /\ k a = (evs2, Ok b) /\ evs = evs1 ++ evs2.
Proof.
  destruct m as [evs1 [a|e]]; simpl; [|discriminate].
  destruct (k a) as [evs2 r] eqn:Hk.
  intros H. injection H as <- ->.
  exists evs1, a, evs2. auto.
Qed.

Lemma bind_raised (m : gen A) (k : A -> gen B) (evs : list event) (e : exn) :
  bind m k = (evs, Raised e) ->
  m = (evs, Raised e)
  \/ exists evs1 a evs2,
      m = (evs1, Ok a) /\ k a = (evs2, Raised e) /\ evs = evs1 ++ evs2.
Proof.
  destruct m as [evs1 [a|e1]]; simpl.
  - destruct (k a) as [evs2 r] eqn:Hk.
    intros H. injection H as <- ->.
    right. exists evs1, a, evs2. auto.
  - intros H. injection H as <- <-. left. reflexivity.
Qed.

End GenFacts.

(** ** The dictionary of tool calls *)

Section DictFacts.

Lemma lookup_store_eq (k : option Z) (v : tool_call_entry) (d : tool_calls) :
  lookup_call k (store_call k v d) = Some v.
Proof.
  induction d as [|[k' v'] d IH]; simpl.
  - destruct (decide (k = k)); [reflexivity | congruence].
  - destruct (decide (k = k')) as [->|Hne]; simpl.
    + destruct (decide (k' = k')); [reflexivity | congruence].
    + destruct (decide (k = k')); [congruence | exact IH].
Qed.

Lemma store_store (k : option Z) (v v' : tool_call_entry) (d : tool_calls) :
  store_call k v' (store_call k v d) = store_call k v' d.
Proof.
  induction d as [|[k' w] d IH]; simpl.
  - destruct (decide (k = k)); [reflexivity | congruence].
  - destruct (decide (k = k')) as [->|Hne]; simpl.
    + destruct (decide (k' = k')); [reflexivity | congruence].
    + destruct (decide (k = k')); [congruence | rewrite IH; reflexivity].
Qed.

(** An assignment replaces the entry of a known key where it stands, and
    puts a new key at the end. *)
Lemma store_call_split (k : option Z) (v : tool_call_entry) (d : tool_calls) :
  (exists t d1 d2,
      lookup_call k d = Some t
      /\ d = d1 ++ (k, t) :: d2
      /\ store_call k v d = d1 ++ (k, v) :: d2)
  \/ (lookup_call k d = None /\ store_call k v d = d ++ [(k, v)]).
Proof.
  induction d as [|[k' w] d IH]; simpl.
  - right. auto.
  - destruct (decide (k = k')) as [->|Hne].
    + left. exists w, [], d. auto.
    + destruct IH as [(t & d1 & d2 & Hl & Hd & Hs)|[Hl Hs]].
      * left. exists t, ((k', w) :: d1), d2.
        rewrite Hl, Hs. subst d. auto.
      * right. rewrite Hs. auto.
Qed.

Lemma lookup_call_elem (k : option Z) (t : tool_call_entry) (d : tool_calls) :
  lookup_call k d = Some t -> In (k, t) d.
Proof.
  induction d as [|[k' w] d IH]; simpl; [discriminate|].
  destruct (decide (k = k')) as [->|Hne].
  - intros H. injection H as ->. left. reflexivity.
  - intros H. right. exact (IH H).
Qed.

Lemma started_indices_app (d1 d2 : tool_calls) :
  started_indices (d1 ++ d2) = started_indices d1 ++ started_indices d2.
Proof. apply flat_map_app. Qed.

Lemma sent_indices_app (d1 d2 : tool_calls) :
  sent_indices (d1 ++ d2) = sent_indices d1 ++ sent_indices d2.
Proof. apply flat_map_app. Qed.

Lemma tool_stops_started (d : tool_calls) :
  tool_stops d = map ContentBlockStop (started_indices d).
Proof.
  induction d as [|[k t] d IH]; simpl; [reflexivity|].
  unfold started_index.
  destruct (started t), (claude_index t); simpl; rewrite IH; reflexivity.
Qed.

End DictFacts.

(** ** Observations of event lists *)

Section TraceFacts.

Lemma start_indices_app (evs1 evs2 : list event) :
  start_indices (evs1 ++ evs2) = start_indices evs1 ++ start_indices evs2.
Proof.
  induction evs1 as [|[] evs1 IH]; simpl; rewrite ?IH; reflexivity.
Qed.

Lemma stop_indices_app (evs1 evs2 : list event) :
  stop_indices (evs1 ++ evs2) = stop_indices evs1 ++ stop_indices evs2.
Proof.
  induction evs1 as [|[] evs1 IH]; simpl; rewrite ?IH; reflexivity.
Qed.

Lemma json_deltas_app (evs1 evs2 : list event) :
  json_deltas (evs1 ++ evs2) = json_deltas evs1 ++ json_deltas evs2.
Proof.
  induction evs1 as [|[| | |index [text|partial_json]| | | |] evs1 IH];
    simpl; rewrite ?IH; reflexivity.
Qed.

Lemma delta_indices_app (evs1 evs2 : list event) :
  delta_indices (evs1 ++ evs2) = delta_indices evs1 ++ delta_indices evs2.
Proof.
  unfold delta_indices. rewrite json_deltas_app. apply map_app.
Qed.

Lemma error_events_app (evs1 evs2 : list event) :
  error_events (evs1 ++ evs2) = error_events evs1 ++ error_events evs2.
Proof.
  induction evs1 as [|[] evs1 IH]; simpl; rewrite ?IH; reflexivity.
Qed.

Lemma stop_indices_stops (indices : list Z) :
  stop_indices (map ContentBlockStop indices) = indices.
Proof.
  induction indices as [|i indices IH]; simpl; [|rewrite IH]; reflexivity.
Qed.

Lemma start_indices_stops (indices : list Z) :
  start_indices (map ContentBlockStop indices) = [].
Proof.
  induction indices as [|i indices IH]; simpl; [reflexivity | exact IH].
Qed.

Lemma json_deltas_stops (indices : list Z) :
  json_deltas (map ContentBlockStop indices) = [].
Proof.
  induction indices as [|i indices IH]; simpl; [reflexivity | exact IH].
Qed.

Lemma error_events_stops (indices : list Z) :
  error_events (map ContentBlockStop indices) = [].
Proof.
  induction indices as [|i indices IH]; simpl; [reflexivity | exact IH].
Qed.

End TraceFacts.

(** ** One tool-call fragment *)

Section ToolCallFacts.

Variable json_loads : str -> loads_result.
Variable v : variant.

Lemma entry_ok_new : entry_ok new_tool_call.
Proof. split; simpl; discriminate. Qed.

Lemma merge_identity_fields (tool_call : tool_call_entry)
    (tc_delta : tool_call_delta) (function_data : function_delta) :
  let merged := merge_identity tool_call tc_delta function_data in
  args_buffer merged = args_buffer tool_call
  /\ json_sent merged = json_sent tool_call
  /\ claude_index merged = claude_index tool_call
  /\ started merged = started tool_call.
Proof.
  unfold merge_identity.
  destruct (truthy (get (tc_id tc_delta))),
           (truthy (get (fn_name function_data))); simpl; auto.
Qed.

(** The block is left as it is, or it is opened under the next index. *)
Lemma start_block_spec (counter : Z) (tool_call : tool_call_entry) :
  start_block counter tool_call = ([], Ok (counter, tool_call))
  \/ (started tool_call = false
      /\ exists opened,
          start_block counter tool_call
          = ([ContentBlockStart (counter + 1)
                (ToolUseBlock (tool_id tool_call) (tool_name tool_call))],
             Ok (counter + 1, opened))
          /\ started opened = true
          /\ claude_index opened = Some (counter + 1)
          /\ json_sent opened = json_sent tool_call
          /\ args_buffer opened = args_buffer tool_call).
Proof.
  unfold start_block.
  destruct (truthy (tool_id tool_call) && truthy (tool_name tool_call)) eqn:Hknown;
    [|left; reflexivity].
  destruct (started tool_call) eqn:Hstarted; [left; reflexivity|].
  right. split; [reflexivity|].
  simpl. unfold text_block_index. rewrite Z.add_0_l.
  eexists. split; [reflexivity|]. simpl. auto.
Qed.

(** A fragment handled on a started block is appended, and the whole
    buffer is sent the first time it decodes; an exception of [json.loads]
    other than [JSONDecodeError] interrupts the body. *)
Lemma append_arguments_started (tool_call : tool_call_entry)
    (function_data : function_delta) (fragment : str) :
  started tool_call = true ->
  fn_arguments function_data = Val fragment ->
  let buffer := args_buffer tool_call ++ fragment in
  match json_loads buffer with
  | LoadsError message =>
      append_arguments json_loads v tool_call function_data
      = ([], Raised (OtherException message))
  | outcome =>
      exists appended,
        append_arguments json_loads v tool_call function_data
        = ((if decodes outcome && negb (json_sent tool_call)
            then [ContentBlockDelta (claude_index tool_call)
                    (InputJsonDelta buffer)]
            else []),
           Ok appended)
        /\ args_buffer appended = buffer
        /\ json_sent appended = json_sent tool_call || decodes outcome
        /\ started appended = true
        /\ claude_index appended = claude_index tool_call
        /\ tool_id appended = tool_id tool_call
        /\ tool_name appended = tool_name tool_call
  end.
Proof.
  intros Hstarted Hargs buffer.
  unfold append_arguments. rewrite Hargs, Hstarted. simpl.
  fold buffer.
  destruct (json_loads buffer) eqn:Hok; [| |reflexivity];
    destruct (json_sent tool_call) eqn:Hsent;
    simpl; eexists; (split; [reflexivity|]); simpl; auto 10.
Qed.

(** A fragment that arrives before the block is started is dropped. *)
Lemma append_arguments_not_started (tool_call : tool_call_entry)
    (function_data : function_delta) :
  started tool_call = false ->
  append_arguments json_loads v tool_call function_data
  = ([], Ok tool_call).
Proof.
  intros Hstarted. unfold append_arguments. rewrite Hstarted.
  rewrite andb_false_r. reflexivity.
Qed.

Lemma append_arguments_spec (tool_call : tool_call_entry)
    (function_data : function_delta) (evs : list event)
    (r : result tool_call_entry) :
  append_arguments json_loads v tool_call function_data = (evs, r) ->
  match r with
  | Raised _ => evs = []
  | Ok appended =>
      started appended = started tool_call
      /\ claude_index appended = claude_index tool_call
      /\ (json_sent tool_call = true -> json_sent appended = true)
      /\ (json_sent appended = true -> json_sent tool_call = false ->
          started tool_call = true)
      /\ start_indices evs = [] /\ stop_indices evs = []
      /\ error_events evs = []
      /\ delta_indices evs
         = (if json_sent appended && negb (json_sent tool_call)
            then [claude_index appended] else [])
  end.
Proof.
  destruct (started tool_call) eqn:Hstarted.
  - destruct (fn_arguments function_data) as [| |fragment] eqn:Hargs.
    + unfold append_arguments. rewrite Hargs. simpl.
      intros H. injection H as <- <-.
      rewrite Hstarted. destruct (json_sent tool_call); simpl; auto 10.
    + unfold append_arguments. rewrite Hargs, Hstarted. simpl.
      destruct (with_cancellation v); intros H; injection H as <- <-;
        [|reflexivity].
      rewrite Hstarted. destruct (json_sent tool_call); simpl; auto 10.
    + pose proof (append_arguments_started tool_call function_data fragment
                    Hstarted Hargs) as Hstep.
      cbv zeta in Hstep.
      destruct (json_loads (args_buffer tool_call ++ fragment)) as [| |message];
        [| |rewrite Hstep; intros H; injection H as <- <-; reflexivity];
        destruct Hstep as (appended & Heq & Hbuf & Hsent & Hst & Hci & _);
        rewrite Heq; intros H; injection H as <- <-;
        rewrite Hst, Hci, Hsent;
        destruct (json_sent tool_call); simpl; auto 10.
  - rewrite append_arguments_not_started by exact Hstarted.
    intros H. injection H as <- <-.
    rewrite Hstarted. destruct (json_sent tool_call); simpl; auto 10.
Qed.

End ToolCallFacts.

(** ** The loop invariant *)

Section InvariantFacts.

Variable json_loads : str -> loads_result.
Variable v : variant.

Lemma lookup_default_ok (k : option Z) (d : tool_calls) :
  Forall (fun entry => entry_ok (snd entry)) d ->
  entry_ok (default new_tool_call (lookup_call k d)).
Proof.
  intros Hall.
  destruct (lookup_call k d) as [t|] eqn:Hl; simpl.
  - apply lookup_call_elem in Hl.
    rewrite Forall_forall in Hall.
    apply (Hall (k, t)). apply list_elem_of_In. exact Hl.
  - apply entry_ok_new.
Qed.

Lemma store_call_Forall (P : tool_call_entry -> Prop) (k : option Z)
    (t : tool_call_entry) (d : tool_calls) :
  Forall (fun entry => P (snd entry)) d -> P t ->
  Forall (fun entry => P (snd entry)) (store_call k t d).
Proof.
  intros Hall Ht.
  induction Hall as [|[k' w] d Hw Hall IH]; simpl.
  - constructor; [exact Ht | constructor].
  - destruct (decide (k = k')).
    + constructor; [exact Ht | exact Hall].
    + constructor; [exact Hw | exact IH].
Qed.

(** What an assignment does to a list collected over the dictionary. *)
Lemma store_call_extends {X : Type} (f : tool_call_entry -> list X)
    (k : option Z) (t : tool_call_entry) (d : tool_calls) (extra : list X) :
  f new_tool_call = [] ->
  f t = f (default new_tool_call (lookup_call k d)) ++ extra ->
  Permutation (flat_map (fun entry => f (snd entry)) (store_call k t d))
              (flat_map (fun entry => f (snd entry)) d ++ extra).
Proof.
  intros Hnew Ht.
  destruct (store_call_split k t d)
    as [(t0 & d1 & d2 & Hl & Hd & Hs)|[Hl Hs]];
    rewrite Hs; rewrite Hl in Ht; simpl in Ht.
  - subst d. rewrite !flat_map_app. simpl. rewrite Ht.
    rewrite <- !app_assoc.
    apply Permutation_app_head, Permutation_app_head, Permutation_app_comm.
  - rewrite flat_map_app. simpl. rewrite Ht, Hnew, app_nil_r. reflexivity.
Qed.

(** The dictionary the fragment is written to. *)
Lemma initialized_lookup (k : option Z) (d : tool_calls) :
  let calls := match lookup_call k d with
               | Some _ => d
               | None => store_call k new_tool_call d
               end in
  default new_tool_call (lookup_call k calls)
  = default new_tool_call (lookup_call k d)
  /\ forall t, store_call k t calls = store_call k t d.
Proof.
  destruct (lookup_call k d) as [t0|] eqn:Hl; simpl.
  - rewrite Hl. auto.
  - rewrite lookup_store_eq. split; [reflexivity|].
    intros t. apply store_store.
Qed.

(** One fragment, seen from the entry it belongs to. *)
Lemma tool_delta_entry (st : state) (tc_delta : tool_call_delta)
    (evs : list event) (r : result state) :
  let k := get_or 0 (tc_index tc_delta) in
  let before := default new_tool_call (lookup_call k (current_tool_calls st)) in
  entry_ok before ->
  handle_tool_call_delta json_loads v st tc_delta = (evs, r) ->
  match r with
  | Raised _ =>
      delta_indices evs = [] /\ stop_indices evs = [] /\ error_events evs = []
  | Ok st' =>
      exists after,
        current_tool_calls st' = store_call k after (current_tool_calls st)
        /\ final_stop_reason st' = final_stop_reason st
        /\ total_input_tokens st' = total_input_tokens st
        /\ total_output_tokens st' = total_output_tokens st
        /\ entry_ok after
        /\ stop_indices evs = [] /\ error_events evs = []
        /\ started_index after = started_index before ++ start_indices evs
        /\ sent_index after = sent_index before ++ delta_indices evs
        /\ ((start_indices evs = []
             /\ tool_block_counter st' = tool_block_counter st)
            \/ (start_indices evs = [tool_block_counter st + 1]
                /\ tool_block_counter st' = tool_block_counter st + 1))
  end.
Proof.
  intros k before Hok.
  unfold handle_tool_call_delta. fold k.
  destruct (initialized_lookup k (current_tool_calls st)) as [Hdefault Hstore].
  cbv zeta in Hdefault, Hstore.
  set (calls := match lookup_call k (current_tool_calls st) with
                | Some _ => current_tool_calls st
                | None => store_call k new_tool_call (current_tool_calls st)
                end) in *.
  rewrite Hdefault. fold before.
  destruct (get_or empty_function (tc_function tc_delta)) as [function_data|];
    [|intros H; injection H as <- <-; auto].
  destruct (merge_identity_fields before tc_delta function_data)
    as (Hbuf & Hsent & Hindex & Hstarted).
  set (merged := merge_identity before tc_delta function_data) in *.
  destruct Hok as [Hok1 Hok2].
  destruct (start_block_spec (tool_block_counter st) merged)
    as [Hsame|(Hnot & opened & Hopen & Hopened & Hoindex & Hosent & Hobuf)].
  - rewrite Hsame. cbn [bind].
    destruct (append_arguments json_loads v merged function_data)
      as [evs2 [appended|e]] eqn:Happend;
      apply append_arguments_spec in Happend; cbn.
    + destruct Happend as (Hs & Hi & Hkeep & Hflip & Hst0 & Hsp0 & Her0 & Hdl).
      intros H. injection H as <- <-.
      exists appended. rewrite Hstore. cbn.
      rewrite app_nil_r, Hst0, Hsp0, Her0, Hdl, app_nil_r.
      repeat split; auto.
      * rewrite Hs, Hi, Hstarted, Hindex. exact Hok1.
      * intros Hsa. rewrite Hs.
        destruct (json_sent merged) eqn:Hsm.
        -- rewrite Hstarted. apply Hok2. rewrite <- Hsent. reflexivity.
        -- apply Hflip; auto.
      * unfold started_index. rewrite Hs, Hi, Hstarted, Hindex. reflexivity.
      * unfold sent_index. rewrite Hi, Hindex, <- Hsent.
        destruct (json_sent merged) eqn:Hsm.
        -- rewrite (Hkeep eq_refl). reflexivity.
        -- destruct (json_sent appended); reflexivity.
    + subst evs2. intros H. injection H as <- <-. auto.
  - rewrite Hopen. cbn [bind].
    destruct (append_arguments json_loads v opened function_data)
      as [evs2 [appended|e]] eqn:Happend;
      apply append_arguments_spec in Happend; cbn.
    + destruct Happend as (Hs & Hi & Hkeep & Hflip & Hst0 & Hsp0 & Her0 & Hdl).
      intros H. injection H as <- <-.
      exists appended. rewrite Hstore. cbn.
      rewrite app_nil_r.
      change (map fst (json_deltas evs2)) with (delta_indices evs2).
      rewrite Hst0, Hsp0, Her0.
      assert (Hbefore : started before = false) by congruence.
      assert (Hunsent : json_sent before = false).
      { destruct (json_sent before) eqn:Hsb; [|reflexivity].
        rewrite (Hok2 eq_refl) in Hbefore. discriminate. }
      repeat split; auto.
      * rewrite Hi, Hoindex. discriminate.
      * intros _. rewrite Hs. exact Hopened.
      * unfold started_index.
        rewrite Hs, Hi, Hopened, Hoindex, Hbefore. reflexivity.
      * unfold sent_index.
        rewrite Hdl, Hosent, Hsent, Hunsent.
        destruct (json_sent appended); reflexivity.
    + subst evs2. intros H. injection H as <- <-. auto.
Qed.

Lemma sent_in_started (d : tool_calls) (x : option Z) :
  Forall (fun entry => entry_ok (snd entry)) d ->
  x ∈ sent_indices d ->
  exists index, x = Some index /\ index ∈ started_indices d.
Proof.
  induction 1 as [|[k t] d [Hok1 Hok2] Hall IH]; simpl.
  - intros Hx. apply elem_of_nil in Hx. contradiction.
  - unfold sent_index, started_index. simpl in Hok1, Hok2.
    destruct (json_sent t) eqn:Hsent; simpl.
    + rewrite (Hok2 eq_refl) in *.
      destruct (claude_index t) as [index|] eqn:Hindex;
        [|exfalso; apply (Hok1 eq_refl); reflexivity].
      rewrite elem_of_cons. intros [->|Hx].
      * exists index. split; [reflexivity|]. apply elem_of_cons. auto.
      * destruct (IH Hx) as (i & -> & Hi).
        exists i. split; [reflexivity|]. apply elem_of_cons. auto.
    + intros Hx. destruct (IH Hx) as (i & -> & Hi).
      exists i. split; [reflexivity|]. apply elem_of_app. auto.
Qed.

Lemma sent_NoDup (d : tool_calls) :
  Forall (fun entry => entry_ok (snd entry)) d ->
  NoDup (started_indices d) -> NoDup (sent_indices d).
Proof.
  induction 1 as [|[k t] d [Hok1 Hok2] Hall IH]; simpl.
  - intros _. constructor.
  - unfold sent_index, started_index. simpl in Hok1, Hok2.
    destruct (json_sent t) eqn:Hsent; simpl.
    + rewrite (Hok2 eq_refl) in *.
      destruct (claude_index t) as [index|] eqn:Hindex;
        [|exfalso; apply (Hok1 eq_refl); reflexivity].
      simpl. rewrite !NoDup_cons. intros [Hfresh Hnodup].
      split; [|exact (IH Hnodup)].
      intros Hin. destruct (sent_in_started d _ Hall Hin) as (i & Heq & Hi).
      injection Heq as ->. exact (Hfresh Hi).
    + intros Hnodup. apply IH.
      apply NoDup_app in Hnodup as (_ & _ & Hnodup). exact Hnodup.
Qed.

Lemma invariant_residual (st : state) (evs : list event) :
  invariant st evs -> residual evs.
Proof.
  intros (Hpos & Hbound & Hnodup & Hstarts & Hok & Hsent & Hstop & Herr).
  split; [|auto].
  rewrite Hsent. apply sent_NoDup; [exact Hok|].
  rewrite <- Hstarts. exact Hnodup.
Qed.

Lemma invariant_initial : invariant initial_state [].
Proof.
  unfold invariant. simpl.
  repeat split; try constructor; lia.
Qed.

(** The invariant after one fragment. *)
Lemma invariant_tool_delta (seen : list event) (st : state)
    (tc_delta : tool_call_delta) (evs : list event) (r : result state) :
  invariant st seen ->
  handle_tool_call_delta json_loads v st tc_delta = (evs, r) ->
  match r with
  | Raised _ => residual (seen ++ evs)
  | Ok st' =>
      invariant st' (seen ++ evs)
      /\ final_stop_reason st' = final_stop_reason st
      /\ total_input_tokens st' = total_input_tokens st
      /\ total_output_tokens st' = total_output_tokens st
  end.
Proof.
  intros Hinv Hstep.
  pose proof (invariant_residual _ _ Hinv) as (Hres1 & Hres2 & Hres3).
  destruct Hinv
    as (Hpos & Hbound & Hnodup & Hstarts & Hok & Hsent & Hstop & Herr).
  apply tool_delta_entry in Hstep;
    [|apply lookup_default_ok; exact Hok].
  destruct r as [st'|e].
  - destruct Hstep
      as (after & Hcalls & Hreason & Hin & Hout & Hafter & Hstop' & Herr'
          & Hstarted & Hsentidx & Hcounter).
    split; [|auto].
    unfold invariant.
    rewrite start_indices_app, delta_indices_app, stop_indices_app,
      error_events_app, Hstop, Hstop', Herr, Herr', Hcalls.
    assert (Hmono : tool_block_counter st <= tool_block_counter st') by
      (destruct Hcounter as [[_ ->]|[_ ->]]; lia).
    repeat split.
    + lia.
    + apply Forall_app. split.
      * eapply Forall_impl; [exact Hbound|]. simpl. intros i Hi. lia.
      * destruct Hcounter as [[-> _]|[-> ->]]; [constructor|].
        constructor; [lia | constructor].
    + destruct Hcounter as [[-> _]|[-> _]].
      * rewrite app_nil_r. exact Hnodup.
      * apply NoDup_app. split; [exact Hnodup|].
        split; [|apply NoDup_singleton].
        intros i Hi Hi'. apply list_elem_of_singleton in Hi'. subst i.
        rewrite Forall_forall in Hbound. specialize (Hbound _ Hi). lia.
    + unfold started_indices.
      rewrite (store_call_extends started_index _ _ _ (start_indices evs));
        [|reflexivity|exact Hstarted].
      apply Permutation_app_tail. exact Hstarts.
    + apply store_call_Forall; [exact Hok | exact Hafter].
    + unfold sent_indices.
      rewrite (store_call_extends sent_index _ _ _ (delta_indices evs));
        [|reflexivity|exact Hsentidx].
      apply Permutation_app_tail. exact Hsent.
  - destruct Hstep as (Hd & Hs & He).
    unfold residual.
    rewrite delta_indices_app, stop_indices_app, error_events_app,
      Hd, Hs, He, Hres2, Hres3, app_nil_r.
    auto.
Qed.

(** The invariant after the fragments of one chunk. *)
Lemma invariant_tool_calls (deltas : list tool_call_delta)
    (seen : list event) (st : state) (evs : list event) (r : result state) :
  invariant st seen ->
  handle_tool_calls json_loads v st deltas = (evs, r) ->
  match r with
  | Raised _ => residual (seen ++ evs)
  | Ok st' =>
      invariant st' (seen ++ evs)
      /\ final_stop_reason st' = final_stop_reason st
      /\ total_input_tokens st' = total_input_tokens st
      /\ total_output_tokens st' = total_output_tokens st
  end.
Proof.
  revert seen st evs r.
  induction deltas as [|tc_delta deltas IH]; intros seen st evs r Hinv; simpl.
  - intros H. injection H as <- <-. rewrite app_nil_r. auto.
  - destruct (handle_tool_call_delta json_loads v st tc_delta)
      as [evs1 [st1|e1]] eqn:Hstep;
      apply (invariant_tool_delta seen) in Hstep; try exact Hinv; simpl.
    + destruct Hstep as (Hinv1 & Hr1 & Hi1 & Ho1).
      destruct (handle_tool_calls json_loads v st1 deltas)
        as [evs2 r2] eqn:Hrest.
      apply (IH (seen ++ evs1)) in Hrest; [|exact Hinv1].
      intros H. injection H as <- <-.
      rewrite app_assoc.
      destruct r2 as [st2|e2]; [|exact Hrest].
      destruct Hrest as (Hinv2 & Hr2 & Hi2 & Ho2).
      split; [exact Hinv2|]. repeat split; congruence.
    + intros H. injection H as <- <-. exact Hstep.
Qed.

End InvariantFacts.

(** ** One chunk, one line, the whole loop *)

Section LoopFacts.

Variable json_loads : str -> loads_result.
Variable v : variant.

Lemma invariant_same (st st' : state) (evs : list event) :
  tool_block_counter st' = tool_block_counter st ->
  current_tool_calls st' = current_tool_calls st ->
  invariant st evs -> invariant st' evs.
Proof.
  unfold invariant. intros -> ->. auto.
Qed.

Lemma residual_app (seen evs : list event) :
  residual seen ->
  delta_indices evs = [] -> stop_indices evs = [] -> error_events evs = [] ->
  residual (seen ++ evs).
Proof.
  intros (Hd & Hs & He) Hd' Hs' He'. unfold residual.
  rewrite delta_indices_app, stop_indices_app, error_events_app,
    Hd', Hs', He', Hs, He, app_nil_r.
  auto.
Qed.

Lemma invariant_app (st : state) (seen evs : list event) :
  invariant st seen ->
  start_indices evs = [] -> delta_indices evs = [] ->
  stop_indices evs = [] -> error_events evs = [] ->
  invariant st (seen ++ evs).
Proof.
  unfold invariant. intros Hinv Hs Hd Hp He.
  rewrite start_indices_app, delta_indices_app, stop_indices_app,
    error_events_app, Hs, Hd, Hp, He, !app_nil_r.
  exact Hinv.
Qed.

(** The usage object only touches the two totals, and yields nothing. *)
Lemma extract_usage_spec (st : state) (c : chunk) (evs : list event)
    (r : result state) :
  extract_usage st c = (evs, r) ->
  evs = []
  /\ match r with
     | Raised _ => True
     | Ok st' =>
         tool_block_counter st' = tool_block_counter st
         /\ current_tool_calls st' = current_tool_calls st
         /\ final_stop_reason st' = final_stop_reason st
         /\ usage_applied st st' c
     end.
Proof.
  unfold extract_usage, usage_applied, reported_usage.
  destruct (chunk_usage c) as [| |u]; simpl.
  - intros H. injection H as <- <-. auto 10.
  - intros H. injection H as <- <-. auto 10.
  - destruct (prompt_tokens u) as [| |p], (completion_tokens u) as [| |q];
      simpl; intros H; injection H as <- <-; split; auto;
      try destruct (0 <? p); try destruct (0 <? q); simpl; auto 10.
Qed.

Lemma text_delta_spec (delta : delta) :
  exists evs,
    text_delta delta = (evs, Ok tt)
    /\ start_indices evs = [] /\ delta_indices evs = []
    /\ stop_indices evs = [] /\ error_events evs = [].
Proof.
  unfold text_delta.
  destruct (get (delta_content delta)) as [[|ch text]|];
    eexists; (split; [reflexivity|]); simpl; auto.
Qed.

Lemma invariant_tool_call_deltas (seen : list event) (st : state)
    (delta : delta) (evs : list event) (r : result state) :
  invariant st seen ->
  tool_call_deltas json_loads v st delta = (evs, r) ->
  match r with
  | Raised _ => residual (seen ++ evs)
  | Ok st' =>
      invariant st' (seen ++ evs)
      /\ final_stop_reason st' = final_stop_reason st
      /\ total_input_tokens st' = total_input_tokens st
      /\ total_output_tokens st' = total_output_tokens st
  end.
Proof.
  intros Hinv. unfold tool_call_deltas.
  destruct (delta_tool_calls delta) as [| |deltas].
  - intros H. injection H as <- <-. rewrite app_nil_r. auto.
  - destruct (with_cancellation v); intros H; injection H as <- <-;
      rewrite app_nil_r; [auto|].
    exact (invariant_residual _ _ Hinv).
  - apply invariant_tool_calls. exact Hinv.
Qed.

(** A chunk with a first choice. *)
Lemma process_choice_spec (seen : list event) (st : state) (c : chunk)
    (choice : choice) (evs : list event) (r : result control) :
  invariant st seen ->
  process_choice json_loads v st c choice = (evs, r) ->
  match r with
  | Raised _ => residual (seen ++ evs)
  | Ok Return => False
  | Ok (Continue st') =>
      invariant st' (seen ++ evs)
      /\ usage_applied st st' c
      /\ final_stop_reason st' = final_stop_reason st
  | Ok (Break st') =>
      invariant st' (seen ++ evs)
      /\ usage_applied st st' c
      /\ exists reason,
          finish_reason choice = Val reason /\ reason <> []
          /\ final_stop_reason st' = stop_reason_of_finish reason
  end.
Proof.
  intros Hinv. unfold process_choice.
  destruct (extract_usage st c) as [evs0 [st0|e0]] eqn:Husage;
    apply extract_usage_spec in Husage as [-> Husage]; simpl.
  2:{ intros H. injection H as <- <-. rewrite app_nil_r.
      exact (invariant_residual _ _ Hinv). }
  destruct Husage as (Hcounter & Hcalls & Hreason & Hin & Hout).
  pose proof (invariant_same _ _ _ Hcounter Hcalls Hinv) as Hinv0.
  destruct (get_or empty_delta (choice_delta choice)) as [delta|].
  2:{ intros H. injection H as <- <-. rewrite app_nil_r.
      exact (invariant_residual _ _ Hinv). }
  destruct (text_delta_spec delta) as (evs1 & -> & Hs1 & Hd1 & Hp1 & He1).
  cbn [bind].
  pose proof (invariant_app _ _ _ Hinv0 Hs1 Hd1 Hp1 He1) as Hinv1.
  destruct (tool_call_deltas json_loads v st0 delta)
    as [evs2 [st2|e2]] eqn:Htools;
    apply (invariant_tool_call_deltas (seen ++ evs1)) in Htools;
    try exact Hinv1; cbn.
  - destruct Htools as (Hinv2 & Hreason2 & Hin2 & Hout2).
    intros H. injection H as <- <-.
    rewrite app_nil_r, app_assoc.
    assert (Happlied : usage_applied st st2 c)
      by (unfold usage_applied; rewrite Hin2, Hout2; auto).
    unfold finish.
    destruct (finish_reason choice) as [| |[|ch reason]]; simpl;
      try (split; [exact Hinv2|]; split; [exact Happlied|]; congruence).
    split; [|split; [exact Happlied|]].
    + eapply invariant_same; [| |exact Hinv2]; reflexivity.
    + exists (ch :: reason). auto.
  - intros H. injection H as <- <-. rewrite app_assoc. exact Htools.
Qed.

(** A decoded chunk. *)
Lemma process_chunk_spec (seen : list event) (st : state) (c : chunk)
    (evs : list event) (r : result control) :
  invariant st seen ->
  process_chunk json_loads v st c = (evs, r) ->
  match r with
  | Raised _ => residual (seen ++ evs)
  | Ok Return =>
      v = WithCancellation
      /\ exists info,
          error c = Val info
          /\ evs = [Error (get_or (lit "unknown_error") (error_type info))
                      (Message (get_or (lit "Unknown error occurred")
                                  (error_message info)))]
  | Ok (Continue st') =>
      invariant st' (seen ++ evs)
      /\ final_stop_reason st' = final_stop_reason st
      /\ ((st' = st /\ evs = [])
          \/ exists choice rest,
              choices c = Val (choice :: rest) /\ usage_applied st st' c)
  | Ok (Break st') =>
      invariant st' (seen ++ evs)
      /\ exists choice rest reason,
          choices c = Val (choice :: rest)
          /\ finish_reason choice = Val reason /\ reason <> []
          /\ final_stop_reason st' = stop_reason_of_finish reason
          /\ usage_applied st st' c
  end.
Proof.
  intros Hinv. unfold process_chunk.
  destruct (with_cancellation v && has_key (error c)) eqn:Hroute.
  - apply andb_prop in Hroute as [Hv _].
    unfold inline_error.
    destruct (error c) as [| |info]; simpl; intros H; injection H as <- <-;
      try (rewrite app_nil_r; exact (invariant_residual _ _ Hinv)).
    split; [destruct v; [discriminate | reflexivity]|].
    exists info. auto.
  - destruct (choices c) as [| |[|choice rest]] eqn:Hchoices; simpl;
      try (intros H; injection H as <- <-; rewrite app_nil_r; auto).
    intros Hstep. apply (process_choice_spec seen) in Hstep; [|exact Hinv].
    destruct r as [[st'|st'|]|e]; [| |contradiction|exact Hstep].
    + destruct Hstep as (Hinv' & Happlied & Hreason).
      split; [exact Hinv'|]. split; [exact Hreason|].
      right. exists choice, rest. auto.
    + destruct Hstep as (Hinv' & Happlied & reason & Hfr & Hne & Hreason).
      split; [exact Hinv'|].
      exists choice, rest, reason. auto.
Qed.

(** A payload that is no object raises an error of the interpreter. *)
Lemma reject_value_raises (holds_error : option bool) :
  exists e,
    reject_value v holds_error = ([], Raised e)
    /\ (e = TypeError \/ e = AttributeError).
Proof.
  unfold reject_value.
  destruct (with_cancellation v), holds_error as [[|]|]; simpl; eauto.
Qed.

(** One line of the stream. *)
Lemma process_line_spec (seen : list event) (st : state) (l : line)
    (evs : list event) (r : result control) :
  invariant st seen ->
  process_line json_loads v st l = (evs, r) ->
  match r with
  | Raised _ => residual (seen ++ evs)
  | Ok Return =>
      v = WithCancellation
      /\ exists kind text, evs = [Error kind text]
  | Ok (Continue st') =>
      invariant st' (seen ++ evs)
      /\ final_stop_reason st' = final_stop_reason st
  | Ok (Break st') => invariant st' (seen ++ evs)
  end.
Proof.
  intros Hinv.
  destruct l as [| | | |message|holds_error|c]; simpl;
    try (intros H; injection H as <- <-; rewrite app_nil_r;
         first [exact (invariant_residual _ _ Hinv) | auto]).
  { destruct (reject_value_raises holds_error) as (e & -> & _).
    intros H; injection H as <- <-; rewrite app_nil_r.
    exact (invariant_residual _ _ Hinv). }
  intros Hstep. apply (process_chunk_spec seen) in Hstep; [|exact Hinv].
  destruct r as [[st'|st'|]|e]; [| | |exact Hstep].
  - destruct Hstep as (Hinv' & Hreason & _). auto.
  - destruct Hstep as (Hinv' & _). exact Hinv'.
  - destruct Hstep as (Hv & info & _ & ->). eauto.
Qed.

(** The loop, however it is left. *)
Lemma consume_spec (http_request : nat -> bool) (request_id : str)
    (client : registry) (openai_stream : list fetch) :
  forall (seen : list event) (polls : nat) (st : state)
         (evs : list event) (e : loop_end),
    invariant st seen ->
    consume json_loads v http_request request_id polls client st
      openai_stream = (evs, e) ->
    match e with
    | Exhausted st' => invariant st' (seen ++ evs)
    | Broken st' _ => invariant st' (seen ++ evs)
    | Returned =>
        v = WithCancellation
        /\ exists body kind text,
            evs = body ++ [Error kind text] /\ residual (seen ++ body)
    | Failed _ => residual (seen ++ evs)
    end.
Proof.
  induction openai_stream as [|[l|x] rest IH]; intros seen polls st evs e Hinv;
    simpl.
  - intros H. injection H as <- <-. rewrite app_nil_r. exact Hinv.
  - destruct (with_cancellation v && http_request polls).
    + intros H. injection H as <- <-. rewrite app_nil_r. exact Hinv.
    + destruct (process_line json_loads v st l) as [evs1 r1] eqn:Hline.
      apply (process_line_spec seen) in Hline; [|exact Hinv].
      destruct r1 as [[st1|st1|]|e1].
      * destruct Hline as [Hinv1 _].
        destruct (consume json_loads v http_request request_id (S polls)
                    client st1 rest) as [evs2 e2] eqn:Hrest.
        apply (IH (seen ++ evs1)) in Hrest; [|exact Hinv1].
        intros H. injection H as <- <-.
        destruct e2 as [st2|st2 client2| |e2];
          rewrite ?app_assoc; try exact Hrest.
        destruct Hrest as (Hv & body & kind & text & -> & Hres).
        split; [exact Hv|].
        exists (evs1 ++ body), kind, text.
        rewrite <- !app_assoc. rewrite <- app_assoc in Hres. auto.
      * intros H. injection H as <- <-. exact Hline.
      * intros H. injection H as <- <-.
        destruct Hline as (Hv & kind & text & ->).
        split; [exact Hv|].
        exists [], kind, text. rewrite app_nil_r.
        split; [reflexivity | exact (invariant_residual _ _ Hinv)].
      * intros H. injection H as <- <-. exact Hline.
  - intros H. injection H as <- <-. rewrite app_nil_r.
    exact (invariant_residual _ _ Hinv).
Qed.

(** A prefix that the loop consumes without leaving comes first. *)
Lemma consume_app (http_request : nat -> bool) (request_id : str)
    (client : registry) (pre rest : list fetch) :
  forall (polls : nat) (st st' : state) (body : list event),
    consume json_loads v http_request request_id polls client st pre
    = (body, Exhausted st') ->
    consume json_loads v http_request request_id polls client st
      (pre ++ rest)
    = (let '(evs, e) :=
         consume json_loads v http_request request_id
           (polls + length pre) client st' rest in
       (body ++ evs, e)).
Proof.
  induction pre as [|[l|x] pre IH]; intros polls st st' body; simpl.
  - intros H. injection H as <- <-.
    rewrite Nat.add_0_r.
    destruct (consume _ _ _ _ _ _ _ rest). reflexivity.
  - destruct (with_cancellation v && http_request polls); [discriminate|].
    destruct (process_line json_loads v st l) as [evs1 [[st1|st1|]|e1]];
      try discriminate.
    destruct (consume json_loads v http_request request_id (S polls)
                client st1 pre) as [evs2 e2] eqn:Hpre.
    intros H. injection H as <- ->.
    rewrite (IH _ _ _ _ Hpre).
    replace (S polls + length pre)%nat with (polls + S (length pre))%nat by lia.
    destruct (consume _ _ _ _ _ _ _ rest).
    rewrite app_assoc. reflexivity.
  - discriminate.
Qed.

End LoopFacts.

(** ** A whole translation *)

Section TranslateFacts.

Variable json_loads : str -> loads_result.
Variable enable_token_estimation : option bool.
Variable v : variant.

(** The code after the loop: with the flag, the closing events; without
    it, the stops of the blocks and [AttributeError]. *)
Lemma close_eq (original_request : ClaudeMessagesRequest) (st : state) :
  close enable_token_estimation original_request st
  = match enable_token_estimation with
    | Some flag => (closing_events flag original_request st, Completed)
    | None => (block_stops st, Propagated AttributeError)
    end.
Proof.
  unfold close, closing, read_enable_token_estimation, closing_events,
    block_stops, yield_all, yield.
  rewrite tool_stops_started.
  destruct enable_token_estimation as [flag|]; simpl.
  - destruct (final_usage flag original_request st). reflexivity.
  - rewrite ?app_nil_r. reflexivity.
Qed.

(** The ways a translation ends. *)
Lemma translate_cases (http_request : nat -> bool) (client : registry)
    (request_id : str) (openai_stream : list fetch)
    (original_request : ClaudeMessagesRequest)
    (events : list event) (how : ending) (client' : registry) :
  translate json_loads enable_token_estimation v http_request client
    request_id openai_stream original_request = (events, how, client') ->
  match how with
  | Completed =>
      exists body st flag,
        enable_token_estimation = Some flag
        /\ events = opening original_request ++ body
                    ++ closing_events flag original_request st
        /\ invariant st body
        /\ ((consume json_loads v http_request request_id 0 client
               initial_state openai_stream = (body, Exhausted st)
             /\ client' = client)
            \/ consume json_loads v http_request request_id 0 client
                 initial_state openai_stream = (body, Broken st client'))
  | Aborted =>
      exists body kind text,
        events = opening original_request ++ body ++ [Error kind text]
        /\ residual body /\ client' = client
  | Propagated e =>
      exists body,
        (events = opening original_request ++ body
         /\ residual body /\ client' = client
         /\ v = WithCancellation
         /\ consume json_loads v http_request request_id 0 client
              initial_state openai_stream = (body, Failed e)
         /\ exists status_code detail,
             e = HTTPException status_code detail /\ status_code <> 499)
        \/ (exists st,
               enable_token_estimation = None /\ e = AttributeError
               /\ events = opening original_request ++ body ++ block_stops st
               /\ invariant st body
               /\ ((consume json_loads v http_request request_id 0 client
                      initial_state openai_stream = (body, Exhausted st)
                    /\ client' = client)
                   \/ consume json_loads v http_request request_id 0 client
                        initial_state openai_stream
                      = (body, Broken st client')))
  end.
Proof.
  unfold translate.
  destruct (consume json_loads v http_request request_id 0 client
              initial_state openai_stream) as [body e] eqn:Hloop.
  pose proof (consume_spec json_loads v http_request request_id client
                openai_stream [] 0 initial_state body e invariant_initial
                Hloop) as Hspec.
  simpl in Hspec.
  destruct e as [st|st broken| |x].
  - rewrite close_eq.
    destruct enable_token_estimation as [flag|];
      intros H; injection H as <- <- <-.
    + exists body, st, flag.
      split; [reflexivity|]. split; [reflexivity|]. auto.
    + exists body. right. exists st.
      split; [reflexivity|]. split; [reflexivity|].
      split; [reflexivity|]. auto.
  - rewrite close_eq.
    destruct enable_token_estimation as [flag|];
      intros H; injection H as <- <- <-.
    + exists body, st, flag.
      split; [reflexivity|]. split; [reflexivity|]. auto.
    + exists body. right. exists st.
      split; [reflexivity|]. split; [reflexivity|].
      split; [reflexivity|]. auto.
  - intros H. injection H as <- <- <-.
    destruct Hspec as (_ & body' & kind & text & -> & Hres).
    exists body', kind, text. auto.
  - unfold handle_exception.
    destruct v, x as [status_code detail| | |message]; simpl;
      try (intros H; injection H as <- <- <-; eexists body, _, _;
           split; [reflexivity | auto]).
    destruct (Z.eqb_spec status_code 499) as [->|Hne];
      intros H; injection H as <- <- <-.
    + eexists body, _, _. split; [reflexivity | auto].
    + exists body. left. rewrite app_nil_r. eauto 10.
Qed.

(** A [content_block_start] in front of a list without one. *)
Lemma split_at_start (loop closing_events pre post : list event)
    (index : Z) (block : opened_block) :
  loop ++ closing_events = pre ++ ContentBlockStart index block :: post ->
  start_indices closing_events = [] ->
  exists post',
    loop = pre ++ ContentBlockStart index block :: post'
    /\ post = post' ++ closing_events.
Proof.
  revert pre.
  induction loop as [|a loop IH]; intros pre Heq Hnone; simpl in Heq.
  - subst closing_events.
    rewrite start_indices_app in Hnone. simpl in Hnone.
    apply app_eq_nil in Hnone as [_ Hnone]. discriminate.
  - destruct pre as [|p pre]; simpl in Heq; injection Heq as -> Heq.
    + exists loop. auto.
    + destruct (IH pre Heq Hnone) as (post' & -> & ->).
      exists post'. auto.
Qed.

(** A translation that runs to its closing events closes every block it
    opened, once. *)
Lemma completed_closed_once (http_request : nat -> bool) (client : registry)
    (request_id : str) (openai_stream : list fetch)
    (original_request : ClaudeMessagesRequest)
    (events : list event) (client' : registry) :
  translate json_loads enable_token_estimation v http_request client
    request_id openai_stream original_request = (events, Completed, client') ->
  closed_once events.
Proof.
  intros Hrun. apply translate_cases in Hrun.
  destruct Hrun as (body & st & flag & _ & -> & Hinv & _).
  destruct Hinv as (Hpos & Hbound & Hnodup & Hstarts & _ & _ & Hstop & _).
  unfold closing_events, block_stops. cbn [app].
  intros pre index block post Hsplit.
  rewrite app_assoc in Hsplit.
  apply split_at_start in Hsplit as (post' & Hloop & ->).
  2:{ simpl. rewrite start_indices_app, start_indices_stops. reflexivity. }
  assert (Hquiet : stop_indices post' = []).
  { apply (f_equal stop_indices) in Hloop.
    rewrite !stop_indices_app in Hloop. simpl in Hloop.
    rewrite Hstop in Hloop. symmetry in Hloop.
    apply app_eq_nil in Hloop as [_ Hloop]. exact Hloop. }
  assert (Hopened : index ∈ 0 :: start_indices body).
  { apply (f_equal start_indices) in Hloop.
    rewrite !start_indices_app in Hloop. simpl in Hloop.
    rewrite Hloop. apply elem_of_app. right. apply elem_of_cons. auto. }
  rewrite stop_indices_app, Hquiet. simpl stop_indices.
  rewrite stop_indices_app, stop_indices_stops. simpl app.
  rewrite app_nil_r.
  assert (Hperm : Permutation (0 :: start_indices body)
                    (0 :: started_indices (current_tool_calls st)))
    by (constructor; exact Hstarts).
  rewrite <- (proj1 (Permutation_count_occ Z.eq_dec _ _) Hperm index).
  apply NoDup_count_occ'.
  - apply NoDup_ListNoDup, NoDup_cons. split; [|exact Hnodup].
    intros H0. rewrite Forall_forall in Hbound. specialize (Hbound _ H0). lia.
  - apply list_elem_of_In. exact Hopened.
Qed.

(** No block index receives two [input_json_delta] events, however the
    translation ends. *)
Lemma deltas_sent_once (http_request : nat -> bool) (client : registry)
    (request_id : str) (openai_stream : list fetch)
    (original_request : ClaudeMessagesRequest) :
  NoDup (delta_indices
           (fst (fst (translate json_loads enable_token_estimation v
                        http_request client request_id openai_stream
                        original_request)))).
Proof.
  destruct (translate json_loads enable_token_estimation v http_request
              client request_id openai_stream original_request)
    as [[events how] client'] eqn:Hrun.
  apply translate_cases in Hrun. simpl.
  destruct how as [| |e].
  - destruct Hrun as (body & st & flag & _ & -> & Hinv & _).
    apply invariant_residual in Hinv as [Hnodup _].
    unfold closing_events, block_stops. cbn [app].
    rewrite !delta_indices_app.
    unfold delta_indices at 3. simpl json_deltas.
    rewrite json_deltas_app, json_deltas_stops. simpl.
    rewrite app_nil_r. exact Hnodup.
  - destruct Hrun as (body & kind & text & -> & [Hnodup _] & _).
    rewrite !delta_indices_app. simpl. rewrite app_nil_r. exact Hnodup.
  - destruct Hrun as (body & [(-> & [Hnodup _] & _)|(st & _ & _ & -> & Hinv & _)]).
    + rewrite delta_indices_app. exact Hnodup.
    + apply invariant_residual in Hinv as [Hnodup _].
      unfold block_stops.
      rewrite !delta_indices_app.
      unfold delta_indices at 3. simpl json_deltas.
      rewrite json_deltas_stops. simpl.
      rewrite app_nil_r. exact Hnodup.
Qed.

End TranslateFacts.

(** ** Blocks opened and closed *)

(** C1, as stated, fails: on a stream whose first payload is an inline
    error the second translator has opened the text block and ends with the
    error event, so block 0 is never closed. *)
Lemma opened_block_left_open :
  ~ closed_once
      (fst (fst (convert_openai_streaming_to_claude_with_cancellation
                   Json.loads Config.enable_token_estimation timeout_stream
                   example_request
                   (fun _ => false) ∅ (lit "req-1")))).
Proof.
  intros Hclosed.
  specialize (Hclosed [MessageStart (model example_request)] 0 TextBlock
                [Ping;
                 Error (Some (lit "timeout_error"))
                   (Message (Some (lit "Timeout waiting for streaming chunk")))]
                eq_refl).
  vm_compute in Hclosed. discriminate.
Qed.

(** C1, amended.  For every chunk sequence whose translation runs to its
    closing events (it does not end on an error event or on an exception
    that reaches the caller), every content_block_start event is followed by
    exactly one content_block_stop event of the same index before the stream
    ends; this holds of both translators. *)
Theorem blocks_closed_once_when_completed :
  (forall (json_loads : str -> loads_result) (enable_token_estimation : option bool)
          (openai_stream : list fetch) (original_request : ClaudeMessagesRequest)
          (events : list event),
      convert_openai_streaming_to_claude json_loads enable_token_estimation
        openai_stream original_request = (events, Completed) ->
      closed_once events)
  /\ (forall (json_loads : str -> loads_result) (enable_token_estimation : option bool)
             (openai_stream : list fetch)
             (original_request : ClaudeMessagesRequest)
             (http_request : nat -> bool) (openai_client : registry)
             (request_id : str) (events : list event) (client' : registry),
         convert_openai_streaming_to_claude_with_cancellation json_loads
           enable_token_estimation openai_stream original_request http_request
           openai_client request_id = (events, Completed, client') ->
         closed_once events).
Proof.
  split.
  - intros json_loads enable openai_stream original_request events.
    unfold convert_openai_streaming_to_claude.
    destruct (translate json_loads enable Basic (fun _ => false) ∅ []
                openai_stream original_request) as [[events' how] client']
      eqn:Hrun.
    simpl. intros H. injection H as -> ->.
    exact (completed_closed_once _ _ _ _ _ _ _ _ _ _ Hrun).
  - intros json_loads enable openai_stream original_request http_request
      openai_client request_id events client' Hrun.
    exact (completed_closed_once _ _ _ _ _ _ _ _ _ _ Hrun).
Qed.

Lemma blocks_closed_once_when_completed_witness :
  closed_once
    (fst (convert_openai_streaming_to_claude Json.loads (Some true)
            tool_stream example_request)).
Proof.
  destruct blocks_closed_once_when_completed as [Hbasic _].
  apply (Hbasic Json.loads (Some true) tool_stream example_request).
  vm_compute. reflexivity.
Defined.

(** ** The arguments of a tool call *)

Section LedgerFacts.

Variable json_loads : str -> loads_result.
Variable v : variant.

Lemma lookup_store_ne (k k0 : option Z) (t : tool_call_entry)
    (d : tool_calls) :
  k <> k0 -> lookup_call k (store_call k0 t d) = lookup_call k d.
Proof.
  intros Hne.
  induction d as [|[k' w] d IH]; simpl.
  - destruct (decide (k = k0)); [contradiction | reflexivity].
  - destruct (decide (k0 = k')) as [->|Hne']; simpl.
    + destruct (decide (k = k')); [contradiction | reflexivity].
    + destruct (decide (k = k')); [reflexivity | exact IH].
Qed.

Lemma call_fragments_app (k : option Z) (fs1 fs2 : list tool_call_delta) :
  call_fragments k (fs1 ++ fs2) = call_fragments k fs1 ++ call_fragments k fs2.
Proof. unfold call_fragments. apply List.filter_app. Qed.

Lemma block_deltas_app (index : option Z) (evs1 evs2 : list event) :
  block_deltas index (evs1 ++ evs2)
  = block_deltas index evs1 ++ block_deltas index evs2.
Proof.
  unfold block_deltas. rewrite json_deltas_app. apply List.filter_app.
Qed.

Lemma block_deltas_quiet (index : option Z) (evs : list event) :
  delta_indices evs = [] -> block_deltas index evs = [].
Proof.
  unfold block_deltas, delta_indices.
  destruct (json_deltas evs); [reflexivity | discriminate].
Qed.

Lemma block_deltas_other (index : option Z) (evs : list event) :
  ~ In index (delta_indices evs) -> block_deltas index evs = [].
Proof.
  unfold block_deltas, delta_indices.
  induction (json_deltas evs) as [|[x text] ds IH]; simpl; [reflexivity|].
  intros Hin.
  rewrite bool_decide_eq_false_2 by (intros ->; apply Hin; left; reflexivity).
  apply IH. intros H. apply Hin. right. exact H.
Qed.

(** The texts kept of a call, one fragment later. *)
Lemma kept_arguments_snoc (mine : list tool_call_delta) (tc : tool_call_delta) :
  forall id_known name_known : bool,
    kept_arguments id_known name_known (mine ++ [tc])
    = kept_arguments id_known name_known mine
      ++ (if (id_known || existsb names_call mine || names_call tc)
             && (name_known || existsb names_function mine
                 || names_function tc)
          then match fn_arguments (fragment_function tc) with
               | Val fragment => [fragment]
               | _ => []
               end
          else []).
Proof.
  induction mine as [|tc0 mine IH]; intros id_known name_known; simpl.
  - rewrite !orb_false_r, app_nil_r. reflexivity.
  - rewrite IH, <- app_assoc, !orb_assoc. reflexivity.
Qed.

Lemma kept_arguments_none (mine : list tool_call_delta) :
  forall id_known name_known : bool,
    (id_known || existsb names_call mine)
    && (name_known || existsb names_function mine) = false ->
    kept_arguments id_known name_known mine = [].
Proof.
  induction mine as [|tc mine IH]; intros id_known name_known; simpl;
    [reflexivity|].
  rewrite !orb_assoc. intros Hnot.
  rewrite (IH _ _ Hnot), app_nil_r.
  destruct ((id_known || names_call tc) && (name_known || names_function tc))
    eqn:Hnow; [|reflexivity].
  apply andb_prop in Hnow as [H1 H2].
  rewrite H1, H2 in Hnot. discriminate Hnot.
Qed.

(** The first buffer that decodes, one text later. *)
Lemma first_decoding_snoc (texts : list str) (text : str) :
  forall buffer : str,
    first_decoding json_loads buffer (texts ++ [text])
    = match first_decoding json_loads buffer texts with
      | Some sent => Some sent
      | None =>
          if decodes (json_loads (buffer ++ concat texts ++ text))
          then Some (buffer ++ concat texts ++ text)
          else None
      end.
Proof.
  induction texts as [|text0 texts IH]; intros buffer; simpl.
  - reflexivity.
  - destruct (decodes (json_loads (buffer ++ text0))); [reflexivity|].
    rewrite IH, <- !app_assoc. reflexivity.
Qed.

Lemma merge_identity_known (tool_call : tool_call_entry)
    (tc_delta : tool_call_delta) (function_data : function_delta) :
  let merged := merge_identity tool_call tc_delta function_data in
  truthy (tool_id merged)
  = truthy (tool_id tool_call) || truthy (get (tc_id tc_delta))
  /\ truthy (tool_name merged)
     = truthy (tool_name tool_call) || truthy (get (fn_name function_data)).
Proof.
  unfold merge_identity.
  destruct (truthy (get (tc_id tc_delta))) eqn:Hid,
           (truthy (get (fn_name function_data))) eqn:Hname; simpl;
    rewrite ?Hid, ?Hname, ?orb_true_r, ?orb_false_r; auto.
Qed.

(** The indices of the deltas sent are those of started blocks. *)
Lemma delta_index_bound (st : state) (seen : list event) (x : option Z) :
  invariant st seen ->
  In x (delta_indices seen) ->
  exists index, x = Some index /\ 1 <= index <= tool_block_counter st.
Proof.
  intros (_ & Hbound & _ & Hstarts & Hok & Hsent & _) Hin.
  apply list_elem_of_In in Hin. rewrite Hsent in Hin.
  destruct (sent_in_started _ _ Hok Hin) as (index & -> & Hindex).
  exists index. split; [reflexivity|].
  rewrite <- Hstarts in Hindex.
  rewrite Forall_forall in Hbound. exact (Hbound _ Hindex).
Qed.

Lemma started_indices_In (d : tool_calls) (k : option Z)
    (t : tool_call_entry) (index : Z) :
  In (k, t) d -> started t = true -> claude_index t = Some index ->
  In index (started_indices d).
Proof.
  intros Hin Hs Hi. unfold started_indices. apply in_flat_map.
  exists (k, t). split; [exact Hin|].
  simpl. unfold started_index. rewrite Hs, Hi. left. reflexivity.
Qed.

(** Two started entries under different keys have different blocks. *)
Lemma started_distinct (d : tool_calls) :
  List.NoDup (started_indices d) ->
  forall (k1 k2 : option Z) (t1 t2 : tool_call_entry) (index : Z),
    lookup_call k1 d = Some t1 -> lookup_call k2 d = Some t2 -> k1 <> k2 ->
    started t1 = true -> started t2 = true ->
    claude_index t1 = Some index -> claude_index t2 = Some index -> False.
Proof.
  induction d as [|[k' w] d IH]; simpl; intros Hnodup k1 k2 t1 t2 index;
    [discriminate|].
  apply List.NoDup_app_remove_l in Hnodup as Hrest.
  destruct (decide (k1 = k')) as [->|Hne1], (decide (k2 = k')) as [->|Hne2].
  - congruence.
  - intros H1 H2 _ Hs1 Hs2 Hi1 Hi2. injection H1 as ->.
    apply lookup_call_elem in H2.
    pose proof (started_indices_In d k2 t2 index H2 Hs2 Hi2) as Hin.
    unfold started_index in Hnodup. rewrite Hs1, Hi1 in Hnodup.
    simpl in Hnodup. apply List.NoDup_cons_iff in Hnodup as [Hfresh _].
    exact (Hfresh Hin).
  - intros H1 H2 _ Hs1 Hs2 Hi1 Hi2. injection H2 as ->.
    apply lookup_call_elem in H1.
    pose proof (started_indices_In d k1 t1 index H1 Hs1 Hi1) as Hin.
    unfold started_index in Hnodup. rewrite Hs2, Hi2 in Hnodup.
    simpl in Hnodup. apply List.NoDup_cons_iff in Hnodup as [Hfresh _].
    exact (Hfresh Hin).
  - apply IH. exact Hrest.
Qed.

(** One fragment, seen from the entry of its call: what the entry tracks
    of the fragments before it, it tracks of the fragments with it. *)
Lemma tracks_step (mine : list tool_call_delta) (seen : list event)
    (before : tool_call_entry) (tc : tool_call_delta)
    (function_data : function_delta) (counter counter' : Z)
    (opened after : tool_call_entry) (evs1 evs2 : list event) :
  tracks json_loads mine seen before ->
  ~ In (Some (counter + 1)) (delta_indices seen) ->
  get_or empty_function (tc_function tc) = Some function_data ->
  start_block counter (merge_identity before tc function_data)
  = (evs1, Ok (counter', opened)) ->
  append_arguments json_loads v opened function_data = (evs2, Ok after) ->
  tracks json_loads (mine ++ [tc]) (seen ++ evs1 ++ evs2) after.
Proof.
  intros (Hid & Hname & Hstarted & Hnone & Hbuf & Hsent & Hdeltas)
    Hfresh Hfunction Hstart Happend.
  assert (Hf : fragment_function tc = function_data)
    by (unfold fragment_function; rewrite Hfunction; reflexivity).
  destruct (merge_identity_fields before tc function_data)
    as (Hmbuf & Hmsent & Hmindex & Hmstarted).
  destruct (merge_identity_known before tc function_data)
    as (Hmid & Hmname).
  cbv zeta in *.
  set (merged := merge_identity before tc function_data) in *.
  set (texts := kept_arguments false false mine) in *.
  set (known := (existsb names_call mine || names_call tc)
                && (existsb names_function mine || names_function tc)).
  assert (Hknown : truthy (tool_id merged) && truthy (tool_name merged)
                   = known).
  { rewrite Hmid, Hmname, Hid, Hname. unfold known, names_call, names_function.
    rewrite Hf. reflexivity. }
  assert (Himplies : started before = true -> known = true).
  { rewrite Hstarted. intros H. apply andb_prop in H as [H1 H2].
    unfold known. rewrite H1, H2. reflexivity. }
  (* the block *)
  assert (Hopened :
            tool_id opened = tool_id merged
            /\ tool_name opened = tool_name merged
            /\ args_buffer opened = args_buffer before
            /\ json_sent opened = json_sent before
            /\ started opened = known
            /\ delta_indices evs1 = []
            /\ claude_index opened
               = (if started before then claude_index before
                  else if known then Some (counter + 1) else None)).
  { unfold start_block in Hstart. rewrite Hknown, Hmstarted in Hstart.
    destruct known eqn:Hk, (started before) eqn:Hs; simpl in Hstart;
      injection Hstart as <- <- <-; simpl;
      rewrite ?Hmbuf, ?Hmsent, ?Hmindex, ?Hmstarted, ?Hs;
      repeat split; auto.
    discriminate (Himplies eq_refl). }
  destruct Hopened as (Hoid & Honame & Hobuf & Hosent & Hostarted & Hoquiet
                       & Hoindex).
  (* the texts kept *)
  assert (Hkept : kept_arguments false false (mine ++ [tc])
                  = texts ++ (if known
                              then match fn_arguments function_data with
                                   | Val fragment => [fragment]
                                   | _ => []
                                   end
                              else [])).
  { rewrite kept_arguments_snoc. simpl. rewrite Hf. reflexivity. }
  assert (Hlate : started before = false -> texts = []).
  { intros Hs. apply kept_arguments_none. simpl.
    rewrite <- Hstarted. exact Hs. }
  assert (Hseen : block_deltas (claude_index opened) seen
                  = match first_decoding json_loads [] texts with
                    | Some text => [(claude_index opened, text)]
                    | None => []
                    end).
  { rewrite Hoindex.
    destruct (started before) eqn:Hs; [exact Hdeltas|].
    rewrite (Hlate eq_refl). simpl.
    destruct known.
    - apply block_deltas_other. exact Hfresh.
    - rewrite <- (Hnone eq_refl). rewrite Hdeltas, (Hlate eq_refl).
      reflexivity. }
  assert (Hids : existsb names_call (mine ++ [tc])
                 = truthy (tool_id merged)
                 /\ existsb names_function (mine ++ [tc])
                    = truthy (tool_name merged)).
  { rewrite !existsb_app. simpl. rewrite !orb_false_r.
    rewrite Hmid, Hmname, Hid, Hname.
    unfold names_call, names_function. rewrite Hf. auto. }
  destruct Hids as [Hids Hnames].
  (* the fragment *)
  unfold tracks. cbv zeta.
  rewrite Hkept, Hids, Hnames, Hknown.
  rewrite !block_deltas_app, (block_deltas_quiet _ evs1 Hoquiet), app_nil_l.
  assert (Hsame : (evs2, Ok after) = ([], Ok opened) ->
                  truthy (tool_id after) = truthy (tool_id merged)
                  /\ truthy (tool_name after) = truthy (tool_name merged)
                  /\ started after = known
                  /\ (started after = false -> claude_index after = None)
                  /\ args_buffer after = concat (texts ++ [])
                  /\ json_sent after
                     = match first_decoding json_loads [] (texts ++ []) with
                       | Some _ => true
                       | None => false
                       end
                  /\ block_deltas (claude_index after) seen
                       ++ block_deltas (claude_index after) evs2
                     = match first_decoding json_loads [] (texts ++ []) with
                       | Some text => [(claude_index after, text)]
                       | None => []
                       end).
  { intros Heq. injection Heq as -> ->.
    rewrite (block_deltas_quiet _ [] eq_refl).
    rewrite !app_nil_r, Hoid, Honame, Hostarted, Hobuf, Hosent, Hbuf, Hsent,
      Hseen.
    repeat split; auto.
    intros Hk. rewrite Hoindex, Hk.
    destruct (started before) eqn:Hs; [|reflexivity].
    rewrite (Himplies eq_refl) in Hk. discriminate Hk. }
  destruct known eqn:Hk.
  - destruct (fn_arguments function_data) as [| |fragment] eqn:Hargs.
    + apply Hsame. rewrite <- Happend.
      unfold append_arguments. rewrite Hargs. reflexivity.
    + apply Hsame. rewrite <- Happend. revert Happend.
      unfold append_arguments. rewrite Hargs, Hostarted. simpl.
      destruct (with_cancellation v); [reflexivity | discriminate].
    + clear Hsame.
      pose proof (append_arguments_started json_loads v opened function_data
                    fragment Hostarted Hargs) as Hstep.
      cbv zeta in Hstep. rewrite Hobuf, Hbuf, Hosent in Hstep.
      rewrite first_decoding_snoc. simpl app.
      destruct (json_loads (concat texts ++ fragment)) as [| |message] eqn:Hl;
        try (rewrite Hstep in Happend; discriminate Happend);
        destruct Hstep as (appended & Heq & Habuf & Hasent & Hastarted
                           & Haindex & Haid & Haname);
        rewrite Heq in Happend; injection Happend as <- <-;
        rewrite Haid, Haname, Hoid, Honame, Hastarted, Habuf, Hasent,
          Haindex, Hsent, Hseen;
        rewrite concat_app; simpl concat; rewrite app_nil_r;
        cbn [decodes];
        destruct (first_decoding json_loads [] texts) as [sent|];
        simpl; repeat split; auto; try discriminate.
      unfold block_deltas. simpl.
      rewrite bool_decide_eq_true_2 by reflexivity. reflexivity.
  - apply Hsame. rewrite <- Happend.
    rewrite append_arguments_not_started by exact Hostarted. reflexivity.
Qed.

Lemma tracks_new (seen : list event) (st : state) :
  invariant st seen -> tracks json_loads [] seen new_tool_call.
Proof.
  intros Hinv. unfold tracks. simpl. repeat split; auto.
  apply block_deltas_other. intros Hin.
  destruct (delta_index_bound st seen None Hinv Hin) as (index & Hindex & _).
  discriminate Hindex.
Qed.

(** The ledger after one fragment. *)
Lemma ledger_tool_delta (fragments : list tool_call_delta)
    (seen : list event) (st : state) (tc_delta : tool_call_delta)
    (evs : list event) (st' : state) :
  invariant st seen ->
  ledger json_loads fragments seen st ->
  handle_tool_call_delta json_loads v st tc_delta = (evs, Ok st') ->
  ledger json_loads (fragments ++ [tc_delta]) (seen ++ evs) st'.
Proof.
  intros Hinv Hledger Hstep.
  pose proof (invariant_tool_delta json_loads v seen st tc_delta evs _
                Hinv Hstep) as [Hinv' _].
  pose proof (tool_delta_entry json_loads v st tc_delta evs _
                (lookup_default_ok _ _ (proj1 (proj2 (proj2 (proj2 (proj2 Hinv))))))
                Hstep) as Hentry.
  revert Hstep. unfold handle_tool_call_delta.
  set (k0 := get_or 0 (tc_index tc_delta)).
  destruct (initialized_lookup k0 (current_tool_calls st)) as [Hdefault Hstore].
  cbv zeta in Hdefault, Hstore.
  set (calls := match lookup_call k0 (current_tool_calls st) with
                | Some _ => current_tool_calls st
                | None => store_call k0 new_tool_call (current_tool_calls st)
                end) in *.
  rewrite Hdefault.
  set (before := default new_tool_call
                   (lookup_call k0 (current_tool_calls st))).
  assert (Hbefore : tracks json_loads (call_fragments k0 fragments) seen
                      before).
  { specialize (Hledger k0). unfold before.
    destruct (lookup_call k0 (current_tool_calls st)) as [t|]; simpl.
    - exact Hledger.
    - rewrite Hledger. exact (tracks_new seen st Hinv). }
  destruct (get_or empty_function (tc_function tc_delta))
    as [function_data|] eqn:Hfunction; [|discriminate].
  intros Hstep.
  apply bind_ok in Hstep as (evs1 & [counter' opened] & evs' & Hstart & Hstep
                             & ->).
  apply bind_ok in Hstep as (evs2 & after & evs3 & Happend & Hstep & ->).
  injection Hstep as <- <-. rewrite app_nil_r in *.
  rewrite Hstore in *.
  assert (Hfresh : ~ In (Some (tool_block_counter st + 1))
                     (delta_indices seen)).
  { intros Hin.
    destruct (delta_index_bound st seen _ Hinv Hin) as (index & Hindex & Hb).
    injection Hindex as <-. lia. }
  pose proof (tracks_step _ _ _ _ _ _ _ _ _ _ _ Hbefore Hfresh Hfunction
                Hstart Happend) as Hafter.
  assert (Hkey : call_fragments k0 [tc_delta] = [tc_delta]).
  { unfold call_fragments. simpl. fold k0.
    rewrite bool_decide_eq_true_2 by reflexivity. reflexivity. }
  intros k. cbn [current_tool_calls set_tool_block].
  rewrite call_fragments_app.
  destruct (decide (k = k0)) as [->|Hne].
  - rewrite lookup_store_eq, Hkey. exact Hafter.
  - rewrite lookup_store_ne by exact Hne.
    assert (Hother : call_fragments k [tc_delta] = []).
    { unfold call_fragments. simpl. fold k0.
      rewrite bool_decide_eq_false_2 by congruence. reflexivity. }
    rewrite Hother, app_nil_r.
    specialize (Hledger k).
    destruct (lookup_call k (current_tool_calls st)) as [t|] eqn:Hl;
      [|exact Hledger].
    destruct Hledger as (Hid & Hname & Hstarted & Hnone & Hbuf & Hsent
                         & Hdeltas).
    unfold tracks. cbv zeta.
    repeat split; auto.
    rewrite block_deltas_app, Hdeltas.
    rewrite (block_deltas_other _ (evs1 ++ evs2)); [apply app_nil_r|].
    intros Hin.
    (* a delta of this fragment goes to the block of its own call *)
    assert (Hmine : json_sent after = true /\ claude_index t = claude_index after).
    { destruct Hentry as (after' & Hcalls & _ & _ & _ & _ & _ & _ & _
                          & Hsentidx & _).
      cbn [current_tool_calls set_tool_block] in Hcalls.
      assert (Hsame : after' = after).
      { pose proof (lookup_store_eq k0 after (current_tool_calls st)) as Hl0.
        rewrite Hcalls, lookup_store_eq in Hl0. congruence. }
      subst after'.
      assert (Hin' : In (claude_index t) (sent_index after)).
      { rewrite Hsentidx. apply in_or_app. right. exact Hin. }
      unfold sent_index in Hin'.
      destruct (json_sent after); [|contradiction].
      destruct Hin' as [Hin'|[]]. auto. }
    destruct Hmine as [Hjs Hin'].
    assert (Hs : started after = true).
    { destruct Hinv' as (_ & _ & _ & _ & Hok & _).
      cbn [current_tool_calls set_tool_block] in Hok.
      rewrite Forall_forall in Hok.
      pose proof (lookup_store_eq k0 after (current_tool_calls st)) as Hl0.
      apply lookup_call_elem in Hl0.
      destruct (Hok (k0, after)) as [_ Hok2];
        [apply list_elem_of_In; exact Hl0|].
      exact (Hok2 Hjs). }
    clear Hin. rename Hin' into Hin.
    assert (Hindex : exists index, claude_index after = Some index).
    { destruct Hinv' as (_ & _ & _ & _ & Hok & _).
      cbn [current_tool_calls set_tool_block] in Hok.
      rewrite Forall_forall in Hok.
      pose proof (lookup_store_eq k0 after (current_tool_calls st)) as Hl0.
      apply lookup_call_elem in Hl0.
      destruct (Hok (k0, after)) as [Hok1 _];
        [apply list_elem_of_In; exact Hl0|].
      simpl in Hok1.
      destruct (claude_index after) as [index|]; [eauto|].
      exfalso. exact (Hok1 Hs eq_refl). }
    destruct Hindex as [index Hindex]. rewrite Hindex in Hin.
    destruct (started t) eqn:Hst.
    + destruct Hinv' as (_ & _ & Hnodup & Hstarts & _).
      cbn [current_tool_calls set_tool_block] in Hstarts.
      rewrite Hstarts in Hnodup. apply NoDup_ListNoDup in Hnodup.
      apply (started_distinct _ Hnodup k k0 t after index); auto.
      * rewrite lookup_store_ne by exact Hne. exact Hl.
      * apply lookup_store_eq.
    + rewrite (Hnone eq_refl) in Hin. discriminate Hin.
Qed.

Lemma ledger_tool_calls (deltas : list tool_call_delta) :
  forall (fragments : list tool_call_delta) (seen : list event) (st : state)
         (evs : list event) (st' : state),
    invariant st seen ->
    ledger json_loads fragments seen st ->
    handle_tool_calls json_loads v st deltas = (evs, Ok st') ->
    ledger json_loads (fragments ++ deltas) (seen ++ evs) st'.
Proof.
  induction deltas as [|tc_delta deltas IH];
    intros fragments seen st evs st' Hinv Hledger; simpl.
  - intros H. injection H as <- <-. rewrite !app_nil_r. exact Hledger.
  - intros H. apply bind_ok in H as (evs1 & st1 & evs2 & Hstep & Hrest & ->).
    pose proof (invariant_tool_delta json_loads v seen st tc_delta evs1 _
                  Hinv Hstep) as [Hinv1 _].
    pose proof (ledger_tool_delta _ _ _ _ _ _ Hinv Hledger Hstep) as Hledger1.
    specialize (IH _ _ _ _ _ Hinv1 Hledger1 Hrest).
    rewrite <- app_assoc in IH. rewrite app_assoc. exact IH.
Qed.

(** Events and states that leave the dictionary and the deltas alone. *)
Lemma ledger_same (fragments : list tool_call_delta) (seen evs : list event)
    (st st' : state) :
  current_tool_calls st' = current_tool_calls st ->
  delta_indices evs = [] ->
  ledger json_loads fragments seen st ->
  ledger json_loads fragments (seen ++ evs) st'.
Proof.
  intros Hcalls Hquiet Hledger k. specialize (Hledger k).
  rewrite Hcalls.
  destruct (lookup_call k (current_tool_calls st)) as [t|]; [|exact Hledger].
  destruct Hledger as (Hid & Hname & Hstarted & Hnone & Hbuf & Hsent & Hdeltas).
  unfold tracks. cbv zeta.
  rewrite block_deltas_app, (block_deltas_quiet _ evs Hquiet), app_nil_r.
  repeat split; auto.
Qed.

(** The ledger after one line that the body of the loop handles to its
    end. *)
Lemma ledger_line (fragments : list tool_call_delta) (seen : list event)
    (st : state) (l : line) (evs : list event) (next : control)
    (st' : state) :
  invariant st seen ->
  ledger json_loads fragments seen st ->
  process_line json_loads v st l = (evs, Ok next) ->
  next = Continue st' \/ next = Break st' ->
  ledger json_loads (fragments ++ line_fragments l) (seen ++ evs) st'.
Proof.
  intros Hinv Hledger Hline Hnext.
  assert (Hstay : (evs, Ok next) = ([], Ok (Continue st))
                  \/ (evs, Ok next) = ([], Ok (Break st)) ->
                  line_fragments l = [] ->
                  ledger json_loads (fragments ++ line_fragments l)
                    (seen ++ evs) st').
  { intros Hsame ->. rewrite app_nil_r.
    destruct Hsame as [Hsame|Hsame]; injection Hsame as -> ->;
      (apply (ledger_same _ _ _ st); [|reflexivity|exact Hledger]);
      destruct Hnext as [Hnext|Hnext]; congruence. }
  destruct l as [| | | |message|holds_error|c]; simpl in Hline;
    try (apply Hstay; [rewrite <- Hline; auto | reflexivity]);
    try discriminate Hline.
  { destruct (reject_value_raises v holds_error) as (e & He & _).
    rewrite He in Hline. discriminate Hline. }
  revert Hline. unfold process_chunk. cbn [line_fragments].
  unfold chunk_fragments.
  destruct (with_cancellation v && has_key (error c)).
  { unfold inline_error. destruct (error c); simpl; intros H;
      try discriminate H.
    injection H as _ <-. destruct Hnext; discriminate. }
  clear Hstay.
  destruct (get_or [] (choices c)) as [[|choice rest]|];
    try (intros H; injection H as <- <-; rewrite app_nil_r;
         apply (ledger_same _ _ _ st); [|reflexivity|exact Hledger];
         destruct Hnext as [Hnext|Hnext]; congruence).
  unfold process_choice. intros H.
  apply bind_ok in H as (evs0 & st0 & evs1 & Husage & H & ->).
  apply extract_usage_spec in Husage as (-> & Hcounter & Hcalls & _).
  pose proof (invariant_same _ _ _ Hcounter Hcalls Hinv) as Hinv0.
  destruct (get_or empty_delta (choice_delta choice)) as [d|];
    [|discriminate H].
  destruct (text_delta_spec d) as (evs2 & Htext & Hs2 & Hd2 & Hp2 & He2).
  rewrite Htext in H. cbn [bind] in H.
  destruct (tool_call_deltas json_loads v st0 d) as [evs3 [st3|e3]] eqn:Htools;
    [|discriminate H].
  injection H as <- <-.
  rewrite app_nil_l, app_nil_r.
  pose proof (invariant_app _ _ _ Hinv0 Hs2 Hd2 Hp2 He2) as Hinv2.
  assert (Hledger2 : ledger json_loads fragments (seen ++ evs2) st0)
    by (apply (ledger_same _ _ _ st); assumption).
  assert (Hledger3 : ledger json_loads
                       (fragments ++ default [] (get (delta_tool_calls d)))
                       (seen ++ evs2 ++ evs3) st3).
  { unfold tool_call_deltas in Htools.
    destruct (delta_tool_calls d) as [| |deltas]; simpl.
    - injection Htools as <- <-. rewrite !app_nil_r. exact Hledger2.
    - destruct (with_cancellation v); [|discriminate Htools].
      injection Htools as <- <-. rewrite !app_nil_r. exact Hledger2.
    - rewrite app_assoc.
      exact (ledger_tool_calls _ _ _ _ _ _ Hinv2 Hledger2 Htools). }
  assert (Hcalls3 : current_tool_calls st' = current_tool_calls st3).
  { unfold finish in Hnext.
    destruct (get (finish_reason choice)) as [[|ch reason]|];
      destruct Hnext as [Hnext|Hnext]; try discriminate Hnext;
      injection Hnext as <-; reflexivity. }
  intros k. specialize (Hledger3 k). rewrite Hcalls3. exact Hledger3.
Qed.

(** The ledger after the lines that the loop reads without leaving. *)
Lemma ledger_consume (http_request : nat -> bool) (request_id : str)
    (client : registry) (openai_stream : list fetch) :
  forall (fragments : list tool_call_delta) (seen : list event)
         (polls : nat) (st st' : state) (evs : list event),
    invariant st seen ->
    ledger json_loads fragments seen st ->
    consume json_loads v http_request request_id polls client st
      openai_stream = (evs, Exhausted st') ->
    ledger json_loads (fragments ++ stream_fragments openai_stream)
      (seen ++ evs) st'.
Proof.
  induction openai_stream as [|[l|x] rest IH];
    intros fragments seen polls st st' evs Hinv Hledger; simpl.
  - intros H. injection H as <- <-. rewrite !app_nil_r. exact Hledger.
  - destruct (with_cancellation v && http_request polls); [discriminate|].
    destruct (process_line json_loads v st l) as [evs1 r1] eqn:Hline.
    pose proof (process_line_spec json_loads v seen st l evs1 r1 Hinv Hline)
      as Hspec.
    destruct r1 as [[st1|st1|]|e1]; try discriminate.
    destruct Hspec as [Hinv1 _].
    pose proof (ledger_line _ _ _ _ _ _ st1 Hinv Hledger Hline
                  (or_introl eq_refl)) as Hledger1.
    destruct (consume json_loads v http_request request_id (S polls)
                client st1 rest) as [evs2 e2] eqn:Hrest.
    intros H. injection H as <- ->.
    specialize (IH _ _ _ _ _ _ Hinv1 Hledger1 Hrest).
    unfold stream_fragments in *. cbn [flat_map].
    rewrite <- !app_assoc in IH. exact IH.
  - discriminate.
Qed.

Lemma ledger_initial : ledger json_loads [] [] initial_state.
Proof. intros k. reflexivity. Qed.

(** The closing events hold no delta: the deltas of a translation whose
    loop has been left are those of the loop. *)
Lemma translate_json_deltas (enable_token_estimation : option bool)
    (http_request : nat -> bool) (client : registry) (request_id : str)
    (openai_stream : list fetch) (original_request : ClaudeMessagesRequest)
    (body : list event) (st : state) :
  loop_left json_loads v http_request request_id client openai_stream
    body st ->
  json_deltas
    (fst (fst (translate json_loads enable_token_estimation v http_request
                 client request_id openai_stream original_request)))
  = json_deltas body.
Proof.
  intros Hleft. unfold translate.
  destruct Hleft as [Hloop|[client' Hloop]]; rewrite Hloop, close_eq;
    destruct enable_token_estimation as [flag|]; cbn [fst];
    unfold closing_events, block_stops;
    rewrite !json_deltas_app; cbn [json_deltas opening app];
    rewrite ?json_deltas_app, json_deltas_stops, ?app_nil_r; reflexivity.
Qed.

End LedgerFacts.

(** C2, as stated, fails: when the id of the call comes with the first
    fragment and its name only with the second, the first fragment is
    dropped, the buffer never decodes, and no delta is sent for the
    fragments [{"a":1] and [}]. *)
Lemma fragment_before_start_is_lost :
  ~ exists index,
      json_deltas
        (fst (convert_openai_streaming_to_claude Json.loads
                Config.enable_token_estimation late_name_stream
                example_request))
      = [(index, fragment_1 ++ fragment_2)].
Proof.
  intros [index Hdeltas].
  vm_compute in Hdeltas. discriminate.
Qed.

(** C2, amended.  The argument texts of a tool call that are kept are
    those of its fragments from the one on with which both the id and the
    name of the call are known; a text that comes before is dropped.  When
    the loop of either translator has read a stream to its end, or has left
    it at a line that the body handled, then for every tool call the buffer
    of the call is the kept texts in order, and the [input_json_delta]
    events sent to the block of the call are: exactly one, carrying the
    whole buffer as it stood when it first decoded, when some buffer
    decoded; none otherwise.  These are the deltas of the translation,
    whose closing events hold none.  Step by step: a fragment handled on a
    started block is appended and the whole buffer is sent when it decodes
    and nothing was sent before; when [json.loads] raises another exception
    than [JSONDecodeError] the exception leaves the body.  In every
    translation, however it ends, no block receives more than one such
    delta.  When the fragments [{"a":1] and [}] arrive for a call whose id
    and name came with the first of them, exactly one delta is sent, with
    partial_json [{"a":1}]. *)
Theorem tool_arguments_sent_once :
  (forall (json_loads : str -> loads_result) (v : variant)
          (http_request : nat -> bool) (request_id : str) (client : registry)
          (openai_stream : list fetch) (body : list event) (st : state),
      consume json_loads v http_request request_id 0 client initial_state
        openai_stream = (body, Exhausted st) ->
      ledger json_loads (stream_fragments openai_stream) body st)
  /\ (forall (json_loads : str -> loads_result) (v : variant)
             (http_request : nat -> bool) (request_id : str)
             (client : registry) (pre : list fetch) (l : line)
             (body evs : list event) (st st' : state),
         consume json_loads v http_request request_id 0 client initial_state
           pre = (body, Exhausted st) ->
         process_line json_loads v st l = (evs, Ok (Break st')) ->
         ledger json_loads (stream_fragments (pre ++ [Yields l]))
           (body ++ evs) st')
  /\ (forall (json_loads : str -> loads_result)
             (enable_token_estimation : option bool) (v : variant)
             (http_request : nat -> bool) (client : registry)
             (request_id : str) (openai_stream : list fetch)
             (original_request : ClaudeMessagesRequest)
             (body : list event) (st : state),
         loop_left json_loads v http_request request_id client openai_stream
           body st ->
         json_deltas
           (fst (fst (translate json_loads enable_token_estimation v
                        http_request client request_id openai_stream
                        original_request)))
         = json_deltas body)
  /\ (forall (json_loads : str -> loads_result) (v : variant)
             (tool_call : tool_call_entry) (function_data : function_delta)
             (fragment : str),
         started tool_call = true ->
         fn_arguments function_data = Val fragment ->
         let buffer := args_buffer tool_call ++ fragment in
         match json_loads buffer with
         | LoadsError message =>
             append_arguments json_loads v tool_call function_data
             = ([], Raised (OtherException message))
         | outcome =>
             exists appended,
               append_arguments json_loads v tool_call function_data
               = ((if decodes outcome && negb (json_sent tool_call)
                   then [ContentBlockDelta (claude_index tool_call)
                           (InputJsonDelta buffer)]
                   else []),
                  Ok appended)
               /\ args_buffer appended = buffer
               /\ json_sent appended = json_sent tool_call || decodes outcome
               /\ started appended = true
               /\ claude_index appended = claude_index tool_call
         end)
  /\ (forall (json_loads : str -> loads_result)
             (enable_token_estimation : option bool)
             (openai_stream : list fetch)
             (original_request : ClaudeMessagesRequest),
         NoDup (delta_indices
                  (fst (convert_openai_streaming_to_claude json_loads
                          enable_token_estimation openai_stream
                          original_request))))
  /\ (forall (json_loads : str -> loads_result)
             (enable_token_estimation : option bool)
             (openai_stream : list fetch)
             (original_request : ClaudeMessagesRequest)
             (http_request : nat -> bool) (openai_client : registry)
             (request_id : str),
         NoDup (delta_indices
                  (fst (fst (convert_openai_streaming_to_claude_with_cancellation
                               json_loads enable_token_estimation
                               openai_stream original_request http_request
                               openai_client request_id)))))
  /\ (forall enable_token_estimation : option bool,
         json_deltas
           (fst (convert_openai_streaming_to_claude Json.loads
                   enable_token_estimation tool_stream example_request))
         = [(Some 1, fragment_1 ++ fragment_2)]
         /\ json_deltas
              (fst (fst (convert_openai_streaming_to_claude_with_cancellation
                           Json.loads enable_token_estimation tool_stream
                           example_request (fun _ => false) ∅ (lit "req-1"))))
            = [(Some 1, fragment_1 ++ fragment_2)]).
Proof.
  split; [|split; [|split; [|split; [|split; [|split]]]]].
  - intros json_loads v http_request request_id client openai_stream body st
      Hloop.
    exact (ledger_consume json_loads v http_request request_id client
             openai_stream [] [] 0 initial_state st body invariant_initial
             (ledger_initial json_loads) Hloop).
  - intros json_loads v http_request request_id client pre l body evs st st'
      Hpre Hline.
    pose proof (consume_spec json_loads v http_request request_id client
                  pre [] 0 initial_state body _ invariant_initial Hpre)
      as Hinv.
    pose proof (ledger_consume json_loads v http_request request_id client
                  pre [] [] 0 initial_state st body invariant_initial
                  (ledger_initial json_loads) Hpre) as Hledger.
    simpl in Hinv, Hledger.
    unfold stream_fragments. rewrite flat_map_app. simpl. rewrite app_nil_r.
    exact (ledger_line json_loads v _ _ _ _ _ _ st' Hinv Hledger Hline
             (or_intror eq_refl)).
  - intros json_loads enable v http_request client request_id openai_stream
      original_request body st.
    apply translate_json_deltas.
  - intros json_loads v tool_call function_data fragment Hstarted Hargs buffer.
    pose proof (append_arguments_started json_loads v tool_call function_data
                  fragment Hstarted Hargs) as Hstep.
    cbv zeta in Hstep. fold buffer in Hstep.
    destruct (json_loads buffer) as [| |message]; [| |exact Hstep];
      destruct Hstep as (appended & Heq & Hbuf & Hsent & Hst & Hci & _);
      exists appended; auto.
  - intros json_loads enable openai_stream original_request.
    unfold convert_openai_streaming_to_claude.
    apply deltas_sent_once.
  - intros json_loads enable openai_stream original_request http_request
      openai_client request_id.
    apply deltas_sent_once.
  - intros [[|]|]; split; vm_compute; reflexivity.
Qed.

Lemma tool_arguments_sent_once_witness :
  (exists body st entry,
      consume Json.loads Basic (fun _ => false) [] 0 ∅ initial_state
        (firstn 2 tool_stream) = (body, Exhausted st)
      /\ lookup_call (Some 0) (current_tool_calls st) = Some entry
      /\ args_buffer entry = fragment_1 ++ fragment_2
      /\ block_deltas (claude_index entry) body
         = [(claude_index entry, fragment_1 ++ fragment_2)])
  /\ exists appended,
      append_arguments Json.loads Basic
        {| tool_id := Some (lit "call_1"); tool_name := Some (lit "f");
           args_buffer := fragment_1; json_sent := false;
           claude_index := Some 1; started := true |}
        {| fn_name := Absent; fn_arguments := Val fragment_2 |}
      = ([ContentBlockDelta (Some 1)
            (InputJsonDelta (fragment_1 ++ fragment_2))],
         Ok appended)
      /\ json_sent appended = true.
Proof.
  destruct tool_arguments_sent_once as (Hend & _ & _ & Hstep & _).
  split.
  - eassert (Hloop : consume Json.loads Basic (fun _ => false) [] 0 ∅
                       initial_state (firstn 2 tool_stream)
                     = (_, Exhausted _)) by (vm_compute; reflexivity).
    pose proof (Hend _ _ _ _ _ _ _ _ Hloop (Some 0)) as Hledger.
    eexists _, _, _. split; [exact Hloop|].
    vm_compute in Hledger.
    destruct Hledger as (_ & _ & _ & _ & Hbuf & _ & Hdeltas).
    split; [vm_compute; reflexivity|].
    split; [exact Hbuf | exact Hdeltas].
  - pose proof (Hstep Json.loads Basic
                  {| tool_id := Some (lit "call_1");
                     tool_name := Some (lit "f");
                     args_buffer := fragment_1; json_sent := false;
                     claude_index := Some 1; started := true |}
                  {| fn_name := Absent; fn_arguments := Val fragment_2 |}
                  fragment_2 eq_refl eq_refl) as Hrun.
    vm_compute in Hrun.
    destruct Hrun as (appended & Heq & _ & Hsent & _).
    exists appended. split; [exact Heq | exact Hsent].
Defined.

(** ** Usage totals *)

Section UsageFacts.

Variable json_loads : str -> loads_result.
Variable v : variant.

Lemma tool_delta_totals (st : state) (tc_delta : tool_call_delta)
    (evs : list event) (st' : state) :
  handle_tool_call_delta json_loads v st tc_delta = (evs, Ok st') ->
  total_input_tokens st' = total_input_tokens st
  /\ total_output_tokens st' = total_output_tokens st.
Proof.
  unfold handle_tool_call_delta.
  destruct (get_or empty_function (tc_function tc_delta)) as [function_data|];
    [|discriminate].
  intros H.
  apply bind_ok in H as (evs1 & [counter opened] & evs2 & _ & H & _).
  apply bind_ok in H as (evs3 & appended & evs4 & _ & H & _).
  injection H as _ <-. simpl. auto.
Qed.

Lemma tool_calls_totals (deltas : list tool_call_delta) :
  forall (st : state) (evs : list event) (st' : state),
    handle_tool_calls json_loads v st deltas = (evs, Ok st') ->
    total_input_tokens st' = total_input_tokens st
    /\ total_output_tokens st' = total_output_tokens st.
Proof.
  induction deltas as [|tc_delta deltas IH]; intros st evs st'; simpl.
  - intros H. injection H as _ <-. auto.
  - intros H. apply bind_ok in H as (evs1 & st1 & evs2 & H1 & H2 & _).
    apply tool_delta_totals in H1 as [Hin1 Hout1].
    apply IH in H2 as [Hin2 Hout2].
    split; congruence.
Qed.

(** A chunk with a first choice that is processed to the end of the loop
    body has its usage object applied to the two totals. *)
Lemma process_choice_usage (st : state) (c : chunk) (choice : choice)
    (evs : list event) (next : control) (st' : state) :
  process_choice json_loads v st c choice = (evs, Ok next) ->
  next = Continue st' \/ next = Break st' ->
  usage_applied st st' c.
Proof.
  unfold process_choice. intros H Hnext.
  apply bind_ok in H as (evs0 & st0 & evs1 & Husage & H & _).
  apply extract_usage_spec in Husage as (_ & _ & _ & _ & Hin & Hout).
  destruct (get_or empty_delta (choice_delta choice)) as [delta|];
    [|discriminate].
  apply bind_ok in H as (evs2 & [] & evs3 & _ & H & _).
  apply bind_ok in H as (evs4 & st2 & evs5 & Htools & H & _).
  assert (Hsame : total_input_tokens st2 = total_input_tokens st0
                  /\ total_output_tokens st2 = total_output_tokens st0).
  { unfold tool_call_deltas in Htools.
    destruct (delta_tool_calls delta) as [| |deltas].
    - injection Htools as _ <-. auto.
    - destruct (with_cancellation v); [|discriminate].
      injection Htools as _ <-. auto.
    - exact (tool_calls_totals _ _ _ _ Htools). }
  destruct Hsame as [Hin2 Hout2].
  injection H as _ <-.
  unfold usage_applied. rewrite <- Hin, <- Hout, <- Hin2, <- Hout2.
  unfold finish in Hnext.
  destruct (get (finish_reason choice)) as [[|ch reason]|];
    destruct Hnext as [Hnext|Hnext]; try discriminate;
    injection Hnext as <-; simpl; auto.
Qed.

Lemma process_chunk_usage (st : state) (c : chunk) (choice : choice)
    (rest : list Wire.choice) (evs : list event) (next : control) (st' : state) :
  choices c = Val (choice :: rest) ->
  process_chunk json_loads v st c = (evs, Ok next) ->
  next = Continue st' \/ next = Break st' ->
  usage_applied st st' c.
Proof.
  intros Hchoices. unfold process_chunk.
  destruct (with_cancellation v && has_key (error c)).
  - unfold inline_error.
    destruct (error c); simpl; intros H; try discriminate.
    injection H as _ <-. intros [Hnext|Hnext]; discriminate.
  - rewrite Hchoices. simpl. apply process_choice_usage.
Qed.




End UsageFacts.




(** ** Inline errors and disconnection in the second translator *)

Section CancellationFacts.

Variable json_loads : str -> loads_result.
Variable enable_token_estimation : option bool.

(** The events of a prefix that the loop consumes without leaving hold
    no stop and no error. *)
Lemma consumed_prefix_quiet (v : variant) (http_request : nat -> bool)
    (request_id : str) (client : registry) (pre : list fetch)
    (body : list event) (st : state) :
  consume json_loads v http_request request_id 0 client initial_state pre
  = (body, Exhausted st) ->
  stop_indices body = [] /\ error_events body = [].
Proof.
  intros Hloop.
  pose proof (consume_spec json_loads v http_request request_id client pre
                [] 0 initial_state body _ invariant_initial Hloop) as Hinv.
  simpl in Hinv.
  apply invariant_residual in Hinv as (_ & Hstop & Herr). auto.
Qed.

Lemma inline_error_run (pre post : list fetch) (c : chunk)
    (original_request : ClaudeMessagesRequest) (http_request : nat -> bool)
    (client : registry) (request_id : str) (body : list event) (st : state) :
  consume json_loads WithCancellation http_request request_id 0 client
    initial_state pre = (body, Exhausted st) ->
  http_request (length pre) = false ->
  has_key (error c) = true ->
  exists kind text,
    convert_openai_streaming_to_claude_with_cancellation json_loads
      enable_token_estimation (pre ++ Yields (Data c) :: post)
      original_request http_request client request_id
    = (opening original_request ++ body ++ [Error kind text], Aborted, client)
    /\ (forall info,
           error c = Val info ->
           kind = get_or (lit "unknown_error") (error_type info)
           /\ text = Message (get_or (lit "Unknown error occurred")
                                (error_message info))).
Proof.
  intros Hpre Hconnected Hkey.
  unfold convert_openai_streaming_to_claude_with_cancellation, translate.
  rewrite (consume_app _ _ _ _ _ _ _ _ _ _ _ Hpre).
  cbn [consume Nat.add with_cancellation andb].
  rewrite Hconnected.
  unfold process_line, process_chunk. cbn [with_cancellation andb].
  rewrite Hkey. unfold inline_error.
  destruct (error c) as [| |info]; [discriminate| |]; simpl.
  - eexists _, _. rewrite app_nil_r. split; [reflexivity|].
    intros info Hinfo. discriminate.
  - eexists _, _. split; [reflexivity|].
    intros info' Hinfo. injection Hinfo as <-. auto.
Qed.

Lemma disconnect_run (pre post : list fetch) (l : line)
    (original_request : ClaudeMessagesRequest) (http_request : nat -> bool)
    (client : registry) (request_id : str) (body : list event) (st : state) :
  consume json_loads WithCancellation http_request request_id 0 client
    initial_state pre = (body, Exhausted st) ->
  http_request (length pre) = true ->
  convert_openai_streaming_to_claude_with_cancellation json_loads
    enable_token_estimation (pre ++ Yields l :: post)
    original_request http_request client request_id
  = match enable_token_estimation with
    | Some flag =>
        (opening original_request ++ body
           ++ closing_events flag original_request st,
         Completed, fst (cancel_request client request_id))
    | None =>
        (opening original_request ++ body ++ block_stops st,
         Propagated AttributeError, fst (cancel_request client request_id))
    end.
Proof.
  intros Hpre Hgone.
  unfold convert_openai_streaming_to_claude_with_cancellation, translate.
  rewrite (consume_app _ _ _ _ _ _ _ _ _ _ _ Hpre).
  cbn [consume Nat.add with_cancellation andb].
  rewrite Hgone, app_nil_r, close_eq.
  destruct enable_token_estimation; reflexivity.
Qed.

End CancellationFacts.

(** C4.  In the second translator, when the loop reaches a chunk whose
    payload has an [error] key, it sends one error event and the stream ends
    there: the events are those sent so far and the error event, which is
    the only error event and the last event; no content_block_stop is sent
    at all, nor a message_delta or message_stop; and the translation ends by
    returning, not by an exception reaching the caller. *)
Theorem inline_error_ends_stream
    (json_loads : str -> loads_result) (enable_token_estimation : option bool)
    (pre post : list fetch) (c : chunk)
    (original_request : ClaudeMessagesRequest) (http_request : nat -> bool)
    (client : registry) (request_id : str) (body : list event) (st : state) :
  consume json_loads WithCancellation http_request request_id 0 client
    initial_state pre = (body, Exhausted st) ->
  http_request (length pre) = false ->
  has_key (error c) = true ->
  exists kind text,
    convert_openai_streaming_to_claude_with_cancellation json_loads
      enable_token_estimation (pre ++ Yields (Data c) :: post)
      original_request http_request client request_id
    = (opening original_request ++ body ++ [Error kind text], Aborted, client)
    /\ error_events (opening original_request ++ body ++ [Error kind text])
       = [Error kind text]
    /\ stop_indices (opening original_request ++ body ++ [Error kind text]) = []
    /\ (forall info,
           error c = Val info ->
           kind = get_or (lit "unknown_error") (error_type info)
           /\ text = Message (get_or (lit "Unknown error occurred")
                                (error_message info))).
Proof.
  intros Hpre Hconnected Hkey.
  destruct (inline_error_run json_loads enable_token_estimation pre post c
              original_request http_request client request_id body st
              Hpre Hconnected Hkey) as (kind & text & Hrun & Hinfo).
  destruct (consumed_prefix_quiet _ _ _ _ _ _ _ _ Hpre) as [Hstop Herr].
  exists kind, text.
  rewrite !error_events_app, !stop_indices_app, Hstop, Herr.
  auto.
Qed.

Lemma inline_error_ends_stream_witness :
  exists kind text,
    convert_openai_streaming_to_claude_with_cancellation Json.loads
      Config.enable_token_estimation
      ([Yields (Data (tool_chunk (Val (lit "call_1")) (Val (lit "f"))
                        (Val fragment_1)))]
         ++ Yields (Data (error_chunk (lit "timeout_error")
                            (lit "Timeout waiting for streaming chunk")))
         :: [Yields Done])
      example_request (fun _ => false) ∅ (lit "req-1")
    = (opening example_request
         ++ [ContentBlockStart 1
               (ToolUseBlock (Some (lit "call_1")) (Some (lit "f")))]
         ++ [Error kind text],
       Aborted, ∅)
    /\ kind = Some (lit "timeout_error").
Proof.
  destruct (inline_error_ends_stream Json.loads
              Config.enable_token_estimation
              [Yields (Data (tool_chunk (Val (lit "call_1")) (Val (lit "f"))
                               (Val fragment_1)))]
              [Yields Done]
              (error_chunk (lit "timeout_error")
                 (lit "Timeout waiting for streaming chunk"))
              example_request (fun _ => false) ∅ (lit "req-1")
              [ContentBlockStart 1
                 (ToolUseBlock (Some (lit "call_1")) (Some (lit "f")))]
              (set_tool_block 1
                 [(Some 0,
                   {| tool_id := Some (lit "call_1"); tool_name := Some (lit "f");
                      args_buffer := fragment_1; json_sent := false;
                      claude_index := Some 1; started := true |})]
                 initial_state))
    as (kind & text & Hrun & _ & _ & Hinfo).
  - vm_compute. reflexivity.
  - reflexivity.
  - reflexivity.
  - exists kind, text. split; [exact Hrun|].
    exact (proj1 (Hinfo _ eq_refl)).
Defined.

(** C10.  In the second translator, when the client is found disconnected
    as the next line is about to be processed, the translator has cancel
    invoked on the client for the request id and reads no further line (the
    result depends neither on that line nor on what follows it); it then
    sends the stop of block 0 and of every started tool block, and no error
    event.  What follows depends on the [config] object.  When it has the
    attribute [enable_token_estimation], the message_delta with the stop
    reason and the usage of the moment (the running totals, or the fallback
    estimate when estimation is on and both totals are zero) and
    message_stop follow, and the translation is complete.  When it has not,
    as with the object of [src/core/config.py], reading the attribute raises
    [AttributeError] after the stops: neither message_delta nor
    message_stop is sent. *)
Theorem disconnect_closes_normally
    (json_loads : str -> loads_result) (enable_token_estimation : option bool)
    (pre post : list fetch) (l : line)
    (original_request : ClaudeMessagesRequest) (http_request : nat -> bool)
    (client : registry) (request_id : str) (body : list event) (st : state) :
  consume json_loads WithCancellation http_request request_id 0 client
    initial_state pre = (body, Exhausted st) ->
  http_request (length pre) = true ->
  let stops :=
    ContentBlockStop 0
      :: map ContentBlockStop (started_indices (current_tool_calls st)) in
  let usage (flag : bool) :=
    if flag && (total_input_tokens st =? 0) && (total_output_tokens st =? 0)
    then (estimate_input_tokens original_request,
          Z.min (max_tokens original_request / 4) 50)
    else (total_input_tokens st, total_output_tokens st) in
  convert_openai_streaming_to_claude_with_cancellation json_loads
    enable_token_estimation (pre ++ Yields l :: post)
    original_request http_request client request_id
  = match enable_token_estimation with
    | Some flag =>
        (opening original_request ++ body ++ stops
           ++ [MessageDelta (final_stop_reason st) (fst (usage flag))
                 (snd (usage flag));
               MessageStop],
         Completed, fst (cancel_request client request_id))
    | None =>
        (opening original_request ++ body ++ stops,
         Propagated AttributeError, fst (cancel_request client request_id))
    end
  /\ error_events (opening original_request ++ body ++ stops) = []
  /\ Permutation (stop_indices stops)
       (start_indices (opening original_request ++ body)).
Proof.
  intros Hpre Hgone stops usage.
  rewrite (disconnect_run json_loads enable_token_estimation pre post l
             original_request http_request client request_id body st
             Hpre Hgone).
  destruct (consumed_prefix_quiet _ _ _ _ _ _ _ _ Hpre) as [Hstop Herr].
  pose proof (consume_spec json_loads WithCancellation http_request
                request_id client pre [] 0 initial_state body _
                invariant_initial Hpre) as Hinv.
  simpl in Hinv.
  destruct Hinv as (_ & _ & _ & Hstarts & _).
  split; [|split].
  - destruct enable_token_estimation as [flag|]; [|reflexivity].
    unfold closing_events, block_stops, final_usage. reflexivity.
  - rewrite !error_events_app, Herr. unfold stops. simpl.
    rewrite error_events_stops. reflexivity.
  - unfold stops. simpl.
    rewrite stop_indices_stops.
    constructor. symmetry. exact Hstarts.
Qed.

Lemma disconnect_closes_normally_witness :
  convert_openai_streaming_to_claude_with_cancellation Json.loads
    Config.enable_token_estimation
    ([Yields (Data (tool_chunk (Val (lit "call_1")) (Val (lit "f"))
                      (Val fragment_1)));
      Yields (Data (usage_chunk (5, 10)))]
       ++ Yields (Data (tool_chunk Absent Absent (Val fragment_2)))
       :: [Yields Done])
    example_request (fun polls => Nat.leb 2 polls)
    {[ lit "req-1" := false ]} (lit "req-1")
  = (opening example_request
       ++ [ContentBlockStart 1
             (ToolUseBlock (Some (lit "call_1")) (Some (lit "f")))]
       ++ [ContentBlockStop 0; ContentBlockStop 1],
     Propagated AttributeError, {[ lit "req-1" := true ]})
  /\ convert_openai_streaming_to_claude_with_cancellation Json.loads
       (Some true)
       ([Yields (Data (tool_chunk (Val (lit "call_1")) (Val (lit "f"))
                         (Val fragment_1)));
         Yields (Data (usage_chunk (5, 10)))]
          ++ Yields (Data (tool_chunk Absent Absent (Val fragment_2)))
          :: [Yields Done])
       example_request (fun polls => Nat.leb 2 polls)
       {[ lit "req-1" := false ]} (lit "req-1")
     = (opening example_request
          ++ [ContentBlockStart 1
                (ToolUseBlock (Some (lit "call_1")) (Some (lit "f")))]
          ++ [ContentBlockStop 0; ContentBlockStop 1]
          ++ [MessageDelta STOP_END_TURN 5 10; MessageStop],
        Completed, {[ lit "req-1" := true ]}).
Proof.
  pose (st := set_total_output_tokens 10
                (set_total_input_tokens 5
                   (set_tool_block 1
                      [(Some 0,
                        {| tool_id := Some (lit "call_1");
                           tool_name := Some (lit "f");
                           args_buffer := fragment_1; json_sent := false;
                           claude_index := Some 1; started := true |})]
                      initial_state))).
  split.
  - destruct (disconnect_closes_normally Json.loads
                Config.enable_token_estimation
                [Yields (Data (tool_chunk (Val (lit "call_1")) (Val (lit "f"))
                                 (Val fragment_1)));
                 Yields (Data (usage_chunk (5, 10)))]
                [Yields Done]
                (Data (tool_chunk Absent Absent (Val fragment_2)))
                example_request (fun polls => Nat.leb 2 polls)
                {[ lit "req-1" := false ]} (lit "req-1")
                [ContentBlockStart 1
                   (ToolUseBlock (Some (lit "call_1")) (Some (lit "f")))]
                st)
      as (Hrun & _ & _).
    + vm_compute. reflexivity.
    + reflexivity.
    + rewrite Hrun. reflexivity.
  - destruct (disconnect_closes_normally Json.loads (Some true)
                [Yields (Data (tool_chunk (Val (lit "call_1")) (Val (lit "f"))
                                 (Val fragment_1)));
                 Yields (Data (usage_chunk (5, 10)))]
                [Yields Done]
                (Data (tool_chunk Absent Absent (Val fragment_2)))
                example_request (fun polls => Nat.leb 2 polls)
                {[ lit "req-1" := false ]} (lit "req-1")
                [ContentBlockStart 1
                   (ToolUseBlock (Some (lit "call_1")) (Some (lit "f")))]
                st)
      as (Hrun & _ & _).
    + vm_compute. reflexivity.
    + reflexivity.
    + rewrite Hrun. reflexivity.
Defined.

(** ** Fallback estimation *)

Section EstimationFacts.

Variable json_loads : str -> loads_result.
Variable v : variant.

Lemma final_usage_enabled (original_request : ClaudeMessagesRequest)
    (st : state) :
  (total_input_tokens st = 0 /\ total_output_tokens st = 0 ->
   final_usage true original_request st
   = (estimate_request_input_tokens original_request,
      Z.min (max_tokens original_request / 4) 50))
  /\ (~ (total_input_tokens st = 0 /\ total_output_tokens st = 0) ->
      final_usage true original_request st
      = (total_input_tokens st, total_output_tokens st)).
Proof.
  unfold final_usage. simpl.
  destruct (Z.eqb_spec (total_input_tokens st) 0) as [Hin|Hin];
    destruct (Z.eqb_spec (total_output_tokens st) 0) as [Hout|Hout]; simpl;
    split; intros H; try reflexivity; tauto.
Qed.

Lemma completed_usage (http_request : nat -> bool) (client : registry)
    (request_id : str) (openai_stream : list fetch)
    (original_request : ClaudeMessagesRequest)
    (events : list event) (client' : registry) :
  translate json_loads (Some true) v http_request client request_id
    openai_stream original_request = (events, Completed, client') ->
  exists body st input_tokens output_tokens,
    loop_left json_loads v http_request request_id client openai_stream
      body st
    /\ events
       = opening original_request ++ body
         ++ ContentBlockStop 0
         :: map ContentBlockStop (started_indices (current_tool_calls st))
         ++ [MessageDelta (final_stop_reason st) input_tokens output_tokens;
             MessageStop]
    /\ (total_input_tokens st = 0 /\ total_output_tokens st = 0 ->
        input_tokens = estimate_request_input_tokens original_request
        /\ output_tokens = Z.min (max_tokens original_request / 4) 50)
    /\ (~ (total_input_tokens st = 0 /\ total_output_tokens st = 0) ->
        input_tokens = total_input_tokens st
        /\ output_tokens = total_output_tokens st).
Proof.
  intros Hrun. apply translate_cases in Hrun.
  destruct Hrun as (body & st & flag & Hflag & -> & _ & Hloop).
  injection Hflag as <-.
  exists body, st,
    (fst (final_usage true original_request st)),
    (snd (final_usage true original_request st)).
  split.
  { destruct Hloop as [[Hloop _]|Hloop]; [left | right; exists client'];
      exact Hloop. }
  split; [reflexivity|].
  destruct (final_usage_enabled original_request st) as [Hzero Hsome].
  split; intros H.
  - rewrite (Hzero H). auto.
  - rewrite (Hsome H). auto.
Qed.

End EstimationFacts.

(** C7.  With estimation enabled, in every translation that runs to its
    closing events the usage of the final message_delta is the fallback
    estimate if and only if both running totals are still zero when the
    loop is left: then the input count is the estimate of the original
    request by the token estimator and the output count is
    min(floor(max_tokens / 4), 50); otherwise the two counts are the running
    totals. *)
Theorem fallback_estimation_iff_no_usage :
  (forall (json_loads : str -> loads_result) (openai_stream : list fetch)
          (original_request : ClaudeMessagesRequest) (events : list event),
      convert_openai_streaming_to_claude json_loads (Some true) openai_stream
        original_request = (events, Completed) ->
      exists body st input_tokens output_tokens,
        loop_left json_loads Basic (fun _ => false) [] ∅ openai_stream body st
        /\ events
           = opening original_request ++ body
             ++ ContentBlockStop 0
             :: map ContentBlockStop (started_indices (current_tool_calls st))
             ++ [MessageDelta (final_stop_reason st) input_tokens output_tokens;
                 MessageStop]
        /\ (total_input_tokens st = 0 /\ total_output_tokens st = 0 ->
            input_tokens = estimate_request_input_tokens original_request
            /\ output_tokens = Z.min (max_tokens original_request / 4) 50)
        /\ (~ (total_input_tokens st = 0 /\ total_output_tokens st = 0) ->
            input_tokens = total_input_tokens st
            /\ output_tokens = total_output_tokens st))
  /\ (forall (json_loads : str -> loads_result) (openai_stream : list fetch)
             (original_request : ClaudeMessagesRequest)
             (http_request : nat -> bool) (openai_client : registry)
             (request_id : str) (events : list event) (client' : registry),
         convert_openai_streaming_to_claude_with_cancellation json_loads
           (Some true) openai_stream original_request http_request
           openai_client request_id
         = (events, Completed, client') ->
         exists body st input_tokens output_tokens,
           loop_left json_loads WithCancellation http_request request_id
             openai_client openai_stream body st
           /\ events
              = opening original_request ++ body
                ++ ContentBlockStop 0
                :: map ContentBlockStop (started_indices (current_tool_calls st))
                ++ [MessageDelta (final_stop_reason st) input_tokens
                      output_tokens;
                    MessageStop]
           /\ (total_input_tokens st = 0 /\ total_output_tokens st = 0 ->
               input_tokens = estimate_request_input_tokens original_request
               /\ output_tokens = Z.min (max_tokens original_request / 4) 50)
           /\ (~ (total_input_tokens st = 0 /\ total_output_tokens st = 0) ->
               input_tokens = total_input_tokens st
               /\ output_tokens = total_output_tokens st)).
Proof.
  split.
  - intros json_loads openai_stream original_request events.
    unfold convert_openai_streaming_to_claude.
    destruct (translate json_loads (Some true) Basic (fun _ => false) ∅ []
                openai_stream original_request) as [[events' how] client']
      eqn:Hrun.
    simpl. intros H. injection H as -> ->.
    exact (completed_usage _ _ _ _ _ _ _ _ _ Hrun).
  - intros json_loads openai_stream original_request http_request
      openai_client request_id events client' Hrun.
    exact (completed_usage _ _ _ _ _ _ _ _ _ Hrun).
Qed.

Lemma fallback_estimation_iff_no_usage_witness :
  exists body st input_tokens output_tokens,
    loop_left Json.loads Basic (fun _ => false) [] ∅
      [Yields (Data (finish_chunk (Val (lit "stop"))))] body st
    /\ opening example_request
         ++ [ContentBlockStop 0; MessageDelta STOP_END_TURN 10 25; MessageStop]
       = opening example_request ++ body
         ++ ContentBlockStop 0
         :: map ContentBlockStop (started_indices (current_tool_calls st))
         ++ [MessageDelta (final_stop_reason st) input_tokens output_tokens;
             MessageStop]
    /\ (total_input_tokens st = 0 /\ total_output_tokens st = 0 ->
        input_tokens = estimate_request_input_tokens example_request
        /\ output_tokens = Z.min (max_tokens example_request / 4) 50)
    /\ (~ (total_input_tokens st = 0 /\ total_output_tokens st = 0) ->
        input_tokens = total_input_tokens st
        /\ output_tokens = total_output_tokens st).
Proof.
  destruct fallback_estimation_iff_no_usage as [Hbasic _].
  apply (Hbasic Json.loads
           [Yields (Data (finish_chunk (Val (lit "stop"))))] example_request).
  vm_compute. reflexivity.
Defined.

(** ** The content of a translated result *)

Section ResponseFacts.

Variable json_loads : str -> loads_result.
Variable enable_token_estimation : option bool.

Lemma tool_use_block_total (tool_call : response_tool_call) :
  well_formed_tool_call json_loads tool_call = true ->
  exists block, tool_use_block json_loads tool_call = Ok block.
Proof.
  unfold well_formed_tool_call, tool_use_block.
  destruct (bool_decide _); [|eauto].
  destruct (get_or empty_function (rtc_function tool_call))
    as [function_data|]; [|discriminate].
  destruct (get_or (lit "{}") (fn_arguments function_data)) as [text|];
    [|discriminate].
  destruct (json_loads text); simpl; [eauto | eauto | discriminate].
Qed.

Lemma add_tool_blocks_total (calls : list response_tool_call) :
  forallb (well_formed_tool_call json_loads) calls = true ->
  forall blocks,
  exists out, add_tool_blocks json_loads blocks calls = Ok out.
Proof.
  induction calls as [|tool_call calls IH]; simpl; intros Hall blocks.
  - eauto.
  - apply andb_prop in Hall as [Hcall Hall].
    destruct (tool_use_block_total tool_call Hcall) as [[block|] ->]; auto.
Qed.

Lemma build_content_blocks_total (message : response_message) :
  well_formed_message json_loads (Val message) = true ->
  exists blocks, build_content_blocks json_loads message = Ok blocks.
Proof.
  unfold well_formed_message, build_content_blocks.
  destruct (message_tool_calls message) as [| |calls]; simpl; intros Hall.
  - eauto.
  - eauto.
  - apply add_tool_blocks_total. exact Hall.
Qed.

(** The translator up to the read of the flag: the first choice, its
    message, the blocks built from it and the usage object. *)
Lemma well_formed_parts (r : openai_response)
    (original_request : ClaudeMessagesRequest) :
  well_formed_response json_loads r = true ->
  exists choice rest message blocks usage_data,
    response_choices r = Val (choice :: rest)
    /\ get_or empty_message (choice_message choice) = Some message
    /\ build_content_blocks json_loads message = Ok blocks
    /\ get_or empty_usage (response_usage r) = Some usage_data
    /\ not_null (prompt_tokens usage_data) = true
    /\ not_null (completion_tokens usage_data) = true.
Proof.
  unfold well_formed_response.
  intros Hwf. apply andb_prop in Hwf as [Hchoice Husage].
  destruct (response_choices r) as [| |[|choice rest]]; try discriminate.
  assert (Hmessage :
            exists message,
              get_or empty_message (choice_message choice) = Some message
              /\ well_formed_message json_loads (Val message) = true).
  { destruct (choice_message choice) as [| |message]; simpl in *;
      [eauto | discriminate | eauto]. }
  destruct Hmessage as (message & Hget & Hmessage).
  destruct (build_content_blocks_total message Hmessage) as [blocks Hblocks].
  unfold well_formed_usage in Husage.
  destruct (response_usage r) as [| |u]; simpl in *; try discriminate.
  - exists choice, rest, message, blocks, empty_usage. auto 10.
  - apply andb_prop in Husage as [Hp Hc].
    exists choice, rest, message, blocks, u. auto 10.
Qed.

(** What a returned result holds. *)
Lemma response_content (r : openai_response)
    (original_request : ClaudeMessagesRequest) (out : claude_response) :
  convert_openai_to_claude_response json_loads enable_token_estimation r
    original_request = Ok out ->
  exists choice rest message blocks,
    get_or [] (response_choices r) = Some (choice :: rest)
    /\ get_or empty_message (choice_message choice) = Some message
    /\ build_content_blocks json_loads message = Ok blocks
    /\ claude_content out
       = match blocks with
         | [] => [Text []]
         | _ :: _ => blocks
         end
    /\ claude_stop_reason out
       = stop_reason_table (get_or (lit "stop") (choice_finish_reason choice)).
Proof.
  unfold convert_openai_to_claude_response.
  destruct (get_or [] (response_choices r)) as [[|choice rest]|];
    try discriminate.
  destruct (get_or empty_message (choice_message choice)) as [message|]
    eqn:Hmessage; [|discriminate].
  destruct (build_content_blocks json_loads message) as [blocks|e] eqn:Hb;
    [|discriminate].
  destruct (get_or empty_usage (response_usage r)) as [usage_data|];
    [|discriminate].
  destruct enable_token_estimation as [flag|]; [|discriminate].
  intros Hout. exists choice, rest, message, blocks.
  split; [reflexivity|]. split; [exact Hmessage|]. split; [exact Hb|].
  destruct (flag && should_use_estimation usage_data).
  - injection Hout as <-. destruct blocks; auto.
  - destruct (get_or 0 (prompt_tokens usage_data)),
             (get_or 0 (completion_tokens usage_data)); try discriminate.
    injection Hout as <-. destruct blocks; auto.
Qed.

(** With the flag, the translator returns on every well-formed result. *)
Lemma response_total (flag : bool) (r : openai_response)
    (original_request : ClaudeMessagesRequest) :
  well_formed_response json_loads r = true ->
  exists out,
    convert_openai_to_claude_response json_loads (Some flag) r
      original_request = Ok out.
Proof.
  intros Hwf.
  destruct (well_formed_parts r original_request Hwf)
    as (choice & rest & message & blocks & usage_data & Hchoices & Hmessage
        & Hblocks & Husage & Hp & Hc).
  unfold convert_openai_to_claude_response.
  rewrite Hchoices. simpl. rewrite Hmessage, Hblocks, Husage.
  destruct (flag && should_use_estimation usage_data); [eauto|].
  destruct (prompt_tokens usage_data), (completion_tokens usage_data);
    simpl in *; try discriminate; eauto.
Qed.

(** Without the flag it raises: [AttributeError] on every well-formed
    result, and some exception on every result. *)
Lemma response_without_flag (r : openai_response)
    (original_request : ClaudeMessagesRequest) :
  (exists e,
      convert_openai_to_claude_response json_loads None r original_request
      = Raised e)
  /\ (well_formed_response json_loads r = true ->
      convert_openai_to_claude_response json_loads None r original_request
      = Raised AttributeError).
Proof.
  split.
  - unfold convert_openai_to_claude_response.
    destruct (get_or [] (response_choices r)) as [[|choice rest]|]; eauto.
    destruct (get_or empty_message (choice_message choice)); eauto.
    destruct (build_content_blocks json_loads r0); eauto.
    destruct (get_or empty_usage (response_usage r)); eauto.
  - intros Hwf.
    destruct (well_formed_parts r original_request Hwf)
      as (choice & rest & message & blocks & usage_data & Hchoices & Hmessage
          & Hblocks & Husage & _).
    unfold convert_openai_to_claude_response.
    rewrite Hchoices. simpl. rewrite Hmessage, Hblocks, Husage. reflexivity.
Qed.

End ResponseFacts.

(** ** The finish-reason table *)

Section TableFacts.

Ltac different_literals :=
  match goal with
  | H : lit _ = lit _ |- _ => vm_compute in H; discriminate H
  end.

Lemma stop_reason_table_spec (reason : str) :
  stop_reason_table (Some reason) = spec_stop_reason reason.
Proof.
  unfold stop_reason_table, spec_stop_reason.
  repeat case_bool_decide; try reflexivity; exfalso; subst;
    try different_literals; tauto.
Qed.

Lemma stop_reason_of_finish_spec (reason : str) :
  stop_reason_of_finish reason = spec_stop_reason reason.
Proof.
  unfold stop_reason_of_finish, spec_stop_reason.
  repeat case_bool_decide; try reflexivity; exfalso;
    repeat match goal with
      | H : _ ∈ _ :: _ |- _ => apply elem_of_cons in H as [H|H]
      | H : _ ∈ [] |- _ => apply elem_of_nil in H; contradiction
      | H : ~ _ ∈ _ :: _ |- _ => rewrite !elem_of_cons in H
      end;
    subst; try different_literals; tauto.
Qed.

End TableFacts.

Section FinishFacts.

Variable json_loads : str -> loads_result.

(** A payload whose first choice has a finish reason, processed to the
    end of the loop body, leaves the loop with the stop reason of the
    chain. *)
Lemma finish_breaks (v : variant) (st : state) (c : chunk) (choice : choice)
    (rest : list Wire.choice) (reason : str) (evs : list event)
    (next : control) :
  with_cancellation v && has_key (error c) = false ->
  choices c = Val (choice :: rest) ->
  finish_reason choice = Val reason -> reason <> [] ->
  process_chunk json_loads v st c = (evs, Ok next) ->
  exists st',
    next = Break st'
    /\ final_stop_reason st' = stop_reason_of_finish reason.
Proof.
  intros Hroute Hchoices Hreason Hne.
  unfold process_chunk. rewrite Hroute, Hchoices. simpl.
  unfold process_choice. intros Hstep.
  apply bind_ok in Hstep as (evs0 & st0 & evs1 & _ & Hstep & _).
  destruct (get_or empty_delta (choice_delta choice)) as [delta|];
    [|discriminate].
  apply bind_ok in Hstep as (evs2 & [] & evs3 & _ & Hstep & _).
  apply bind_ok in Hstep as (evs4 & st2 & evs5 & _ & Hstep & _).
  injection Hstep as _ <-.
  rewrite Hreason. simpl.
  destruct reason as [|ch reason]; [congruence|].
  eexists. split; reflexivity.
Qed.

(** A line at which the body of the loop breaks: the rest of the stream
    is not read, and the code after the loop runs. *)
Lemma break_run (enable_token_estimation : option bool) (v : variant)
    (pre post : list fetch) (l : line)
    (original_request : ClaudeMessagesRequest) (http_request : nat -> bool)
    (client : registry) (request_id : str) (body evs : list event)
    (st st' : state) :
  consume json_loads v http_request request_id 0 client initial_state pre
  = (body, Exhausted st) ->
  with_cancellation v && http_request (length pre) = false ->
  process_line json_loads v st l = (evs, Ok (Break st')) ->
  translate json_loads enable_token_estimation v http_request client
    request_id (pre ++ Yields l :: post) original_request
  = match enable_token_estimation with
    | Some flag =>
        (opening original_request ++ body ++ evs
           ++ closing_events flag original_request st',
         Completed, client)
    | None =>
        (opening original_request ++ body ++ evs ++ block_stops st',
         Propagated AttributeError, client)
    end.
Proof.
  intros Hpre Hconnected Hline.
  unfold translate.
  rewrite (consume_app _ _ _ _ _ _ _ _ _ _ _ Hpre).
  cbn [consume Nat.add].
  rewrite Hconnected, Hline, close_eq.
  destruct enable_token_estimation; rewrite <- !app_assoc; reflexivity.
Qed.

End FinishFacts.

(** C6.  The dictionary of the non-streaming translator and the chain of
    the two streaming translators are one table -- stop to end_turn, length
    to max_tokens, tool_calls or function_call to tool_use, anything else to
    end_turn -- so the reason "length" stands for max_tokens on each path.
    What is reported depends on the [config] object.  When it has the
    attribute [enable_token_estimation], the non-streaming translator
    returns, on every well-formed result, a message whose stop reason is the
    table's for the finish reason of the first choice, and a streaming
    translator that processes a payload with a finish reason, wherever in
    the stream, ends with a message_delta that carries the table's stop
    reason for it.  When it has not, as with the object of
    [src/core/config.py], neither path reports a stop reason: the
    non-streaming translator raises [AttributeError], and the streaming
    translators raise it after the stops of the blocks. *)
Theorem finish_reason_same_table :
  (forall reason : str,
      stop_reason_table (Some reason) = spec_stop_reason reason
      /\ stop_reason_of_finish reason = spec_stop_reason reason)
  /\ spec_stop_reason (lit "length") = STOP_MAX_TOKENS
  /\ (forall (json_loads : str -> loads_result)
             (enable_token_estimation : option bool)
             (r : openai_response) (original_request : ClaudeMessagesRequest)
             (choice : response_choice) (rest : list response_choice)
             (reason : str),
         well_formed_response json_loads r = true ->
         response_choices r = Val (choice :: rest) ->
         choice_finish_reason choice = Val reason ->
         match enable_token_estimation with
         | Some flag =>
             exists out,
               convert_openai_to_claude_response json_loads (Some flag) r
                 original_request = Ok out
               /\ claude_stop_reason out = spec_stop_reason reason
         | None =>
             convert_openai_to_claude_response json_loads None r
               original_request = Raised AttributeError
         end)
  /\ (forall (json_loads : str -> loads_result)
             (enable_token_estimation : option bool) (v : variant)
             (pre post : list fetch) (c : chunk) (choice : choice)
             (rest : list Wire.choice) (reason : str)
             (original_request : ClaudeMessagesRequest)
             (http_request : nat -> bool) (client : registry)
             (request_id : str) (body evs : list event) (st : state)
             (next : control),
         consume json_loads v http_request request_id 0 client initial_state
           pre = (body, Exhausted st) ->
         with_cancellation v && http_request (length pre) = false ->
         with_cancellation v && has_key (error c) = false ->
         choices c = Val (choice :: rest) ->
         finish_reason choice = Val reason ->
         reason <> [] ->
         process_chunk json_loads v st c = (evs, Ok next) ->
         exists st',
           next = Break st'
           /\ translate json_loads enable_token_estimation v http_request
                client request_id (pre ++ Yields (Data c) :: post)
                original_request
              = match enable_token_estimation with
                | Some flag =>
                    (opening original_request ++ body ++ evs
                       ++ block_stops st'
                       ++ [MessageDelta (spec_stop_reason reason)
                             (fst (final_usage flag original_request st'))
                             (snd (final_usage flag original_request st'));
                           MessageStop],
                     Completed, client)
                | None =>
                    (opening original_request ++ body ++ evs
                       ++ block_stops st',
                     Propagated AttributeError, client)
                end).
Proof.
  split; [|split; [|split]].
  - intros reason. split.
    + apply stop_reason_table_spec.
    + apply stop_reason_of_finish_spec.
  - reflexivity.
  - intros json_loads enable r original_request choice rest reason Hwf
      Hchoices Hreason.
    destruct enable as [flag|].
    + destruct (response_total json_loads flag r original_request Hwf)
        as [out Hout].
      exists out. split; [exact Hout|].
      destruct (response_content json_loads (Some flag) r original_request
                  out Hout)
        as (choice' & rest' & _ & _ & Hfirst & _ & _ & _ & Hstop).
      rewrite Hchoices in Hfirst. injection Hfirst as <- <-.
      rewrite Hstop, Hreason. apply stop_reason_table_spec.
    + apply response_without_flag. exact Hwf.
  - intros json_loads enable v pre post c choice rest reason original_request
      http_request client request_id body evs st next Hpre Hconnected Hroute
      Hchoices Hreason Hne Hstep.
    destruct (finish_breaks json_loads v st c choice rest reason evs next
                Hroute Hchoices Hreason Hne Hstep) as (st' & -> & Hstop).
    exists st'. split; [reflexivity|].
    rewrite (break_run json_loads enable v pre post (Data c) original_request
               http_request client request_id body evs st st' Hpre
               Hconnected Hstep).
    destruct enable as [flag|]; [|reflexivity].
    unfold closing_events.
    rewrite Hstop, stop_reason_of_finish_spec. reflexivity.
Qed.

Lemma finish_reason_same_table_witness :
  (exists out,
      convert_openai_to_claude_response Json.loads (Some false) empty_response
        example_request = Ok out
      /\ claude_stop_reason out = spec_stop_reason (lit "length"))
  /\ convert_openai_to_claude_response Json.loads None empty_response
       example_request = Raised AttributeError
  /\ exists st',
      translate Json.loads Config.enable_token_estimation Basic
        (fun _ => false) ∅ []
        ([Yields (Data (usage_chunk (5, 10)))]
           ++ Yields (Data (finish_chunk (Val (lit "length"))))
           :: [Yields Done])
        example_request
      = (opening example_request ++ [] ++ [] ++ block_stops st',
         Propagated AttributeError, ∅).
Proof.
  destruct finish_reason_same_table as (_ & _ & Hresponse & Hstream).
  split; [|split].
  - apply (Hresponse Json.loads (Some false) empty_response example_request
             {| choice_message :=
                  Val {| message_content := Null; message_tool_calls := Null |};
                choice_finish_reason := Val (lit "length") |}
             [] (lit "length")); reflexivity.
  - apply (Hresponse Json.loads None empty_response example_request
             {| choice_message :=
                  Val {| message_content := Null; message_tool_calls := Null |};
                choice_finish_reason := Val (lit "length") |}
             [] (lit "length")); reflexivity.
  - destruct (Hstream Json.loads Config.enable_token_estimation Basic
                [Yields (Data (usage_chunk (5, 10)))] [Yields Done]
                (finish_chunk (Val (lit "length")))
                {| choice_delta := Val empty_delta;
                   finish_reason := Val (lit "length") |}
                [] (lit "length") example_request (fun _ => false) ∅ []
                [] []
                (set_total_output_tokens 10
                   (set_total_input_tokens 5 initial_state))
                (Break (set_final_stop_reason STOP_MAX_TOKENS
                          (set_total_output_tokens 10
                             (set_total_input_tokens 5 initial_state)))))
      as (st' & _ & Hrun).
    + reflexivity.
    + reflexivity.
    + reflexivity.
    + reflexivity.
    + reflexivity.
    + discriminate.
    + reflexivity.
    + exists st'. exact Hrun.
Defined.

(** C5.  Whenever the non-streaming translator returns a message, its
    content list is not empty: it is the list of the text block and tool-use
    blocks built from the first choice, or, when none was built, exactly one
    empty text block.  Whether it returns depends on the [config] object.
    When it has the attribute [enable_token_estimation], the translator
    returns a message on every result that has a choice, no null in the
    place of its message, of the function or the arguments of a tool call, of
    its usage object or of a token count, and no arguments on which
    [json.loads] raises another exception than [JSONDecodeError].  When it
    has not, as with the object of [src/core/config.py], the translator
    returns on no result at all: it raises, and on every such well-formed
    result what it raises is [AttributeError], after the content list has
    been built. *)
Theorem content_never_empty :
  (forall (json_loads : str -> loads_result)
          (enable_token_estimation : option bool)
          (r : openai_response) (original_request : ClaudeMessagesRequest)
          (out : claude_response),
      convert_openai_to_claude_response json_loads enable_token_estimation r
        original_request = Ok out ->
      claude_content out <> []
      /\ exists choice rest message blocks,
          get_or [] (response_choices r) = Some (choice :: rest)
          /\ get_or empty_message (choice_message choice) = Some message
          /\ build_content_blocks json_loads message = Ok blocks
          /\ (blocks = [] -> claude_content out = [Text []])
          /\ (blocks <> [] -> claude_content out = blocks))
  /\ (forall (json_loads : str -> loads_result) (flag : bool)
             (r : openai_response) (original_request : ClaudeMessagesRequest),
         well_formed_response json_loads r = true ->
         exists out,
           convert_openai_to_claude_response json_loads (Some flag) r
             original_request = Ok out)
  /\ (forall (json_loads : str -> loads_result) (r : openai_response)
             (original_request : ClaudeMessagesRequest),
         (exists e,
             convert_openai_to_claude_response json_loads
               Config.enable_token_estimation r original_request = Raised e)
         /\ (well_formed_response json_loads r = true ->
             convert_openai_to_claude_response json_loads
               Config.enable_token_estimation r original_request
             = Raised AttributeError)).
Proof.
  split; [|split].
  - intros json_loads enable r original_request out Hout.
    destruct (response_content json_loads enable r original_request out Hout)
      as (choice & rest & message & blocks & Hchoices & Hmessage & Hblocks
          & Hcontent & _).
    split.
    + rewrite Hcontent. destruct blocks; discriminate.
    + exists choice, rest, message, blocks.
      repeat split; try assumption.
      * intros ->. exact Hcontent.
      * intros Hne. rewrite Hcontent. destruct blocks; [congruence | reflexivity].
  - intros json_loads flag r original_request.
    apply response_total.
  - intros json_loads r original_request.
    apply response_without_flag.
Qed.

Lemma content_never_empty_witness :
  (exists out,
      convert_openai_to_claude_response Json.loads (Some true) empty_response
        example_request = Ok out
      /\ claude_content out = [Text []])
  /\ convert_openai_to_claude_response Json.loads
       Config.enable_token_estimation empty_response example_request
     = Raised AttributeError.
Proof.
  destruct content_never_empty as (Hcontent & Htotal & Hraises).
  split.
  - destruct (Htotal Json.loads true empty_response example_request eq_refl)
      as [out Hout].
    exists out. split; [exact Hout|].
    destruct (Hcontent Json.loads (Some true) empty_response example_request
                out Hout)
      as (_ & choice & rest & message & blocks & Hchoices & Hmessage & Hblocks
          & Hempty & _).
    apply Hempty.
    vm_compute in Hchoices. injection Hchoices as <- <-.
    vm_compute in Hmessage. injection Hmessage as <-.
    vm_compute in Hblocks. injection Hblocks as <-.
    reflexivity.
  - apply (Hraises Json.loads empty_response example_request). reflexivity.
Defined.

(** * Further properties of the code *)

Import Text Config ClientSetup ClientAlternative Protocol.

Section EstimateBounds.

Lemma estimate_of_content (text : text_arg) :
  estimate_text_tokens text
  = estimate_text_tokens (ContentStr (text_content_of text)).
Proof.
  destruct text as [s|items].
  - reflexivity.
  - unfold estimate_text_tokens.
    destruct items as [|item items]; [reflexivity|].
    change (is_empty (ContentList (item :: items))) with false.
    cbv iota.
    change (text_content_of (ContentStr (text_content_of (ContentList (item :: items)))))
      with (text_content_of (ContentList (item :: items))).
    destruct (text_content_of (ContentList (item :: items))); reflexivity.
Qed.

Lemma estimate_text_tokens_nonneg (text : text_arg) :
  0 <= estimate_text_tokens text.
Proof.
  unfold estimate_text_tokens.
  destruct (is_empty text); [lia|].
  destruct (text_content_of text); lia.
Qed.

Lemma estimate_text_tokens_zero (text : text_arg) :
  estimate_text_tokens text = 0 <-> text_content_of text = [].
Proof.
  rewrite estimate_of_content.
  destruct (text_content_of text) as [|c s]; [tauto|].
  split; [|discriminate].
  unfold estimate_text_tokens. simpl is_empty. cbv iota.
  simpl text_content_of. lia.
Qed.

Lemma exact_estimate_bounds (cjk_count char_count : Z) :
  0 < char_count ->
  1 <= exact_estimate cjk_count char_count
  /\ char_count / 4 <= exact_estimate cjk_count char_count
  /\ exact_estimate cjk_count char_count <= Z.max 1 (5 * char_count / 6).
Proof.
  intros Hpos. unfold exact_estimate.
  destruct (Z.eqb_spec char_count 0) as [H0|_]; [lia|].
  destruct (7 * char_count <? 10 * cjk_count);
    [|destruct (10 * cjk_count <? char_count)];
    Z.div_mod_to_equations; lia.
Qed.

End EstimateBounds.

(** X1.  The estimate of a text is 0 exactly when the text taken into
    account (the string, or the texts of a list joined by blanks and
    stripped) is empty; otherwise it is at least 1, and for a text of at
    most 2000 characters it lies between a quarter and five sixths of the
    number of characters, rounded down. *)
Theorem estimate_text_tokens_bounds :
  (forall text : text_arg,
      0 <= estimate_text_tokens text
      /\ (estimate_text_tokens text = 0 <-> text_content_of text = []))
  /\ (forall text : text_arg,
         text_content_of text <> [] ->
         (length (text_content_of text) <= 2000)%nat ->
         let char_count := Z.of_nat (length (text_content_of text)) in
         1 <= estimate_text_tokens text
         /\ char_count / 4 <= estimate_text_tokens text
         /\ estimate_text_tokens text <= Z.max 1 (5 * char_count / 6)).
Proof.
  split.
  - intros text. split.
    + apply estimate_text_tokens_nonneg.
    + apply estimate_text_tokens_zero.
  - intros text Hne Hlen char_count.
    rewrite estimate_of_content.
    rewrite (estimate_text_tokens_exact _ Hlen).
    apply exact_estimate_bounds.
    destruct (text_content_of text); [congruence|].
    unfold char_count. simpl length. lia.
Qed.

Lemma estimate_text_tokens_bounds_witness :
  1 <= estimate_text_tokens
         (ContentList [ItemText (lit "hello"); ItemOther; ItemText (lit "world ")])
  /\ 11 / 4 <= estimate_text_tokens
                 (ContentList [ItemText (lit "hello"); ItemOther;
                               ItemText (lit "world ")])
  /\ estimate_text_tokens
       (ContentList [ItemText (lit "hello"); ItemOther; ItemText (lit "world ")])
     <= Z.max 1 (5 * 11 / 6).
Proof.
  destruct estimate_text_tokens_bounds as [_ Hbounds].
  apply (Hbounds (ContentList [ItemText (lit "hello"); ItemOther;
                               ItemText (lit "world ")])).
  - vm_compute. discriminate.
  - vm_compute. lia.
Defined.

Section MessageEstimates.

Lemma fold_items_nonneg (items : list content_item) (acc : Z) :
  0 <= acc ->
  0 <= fold_left (fun total item =>
                    match item with
                    | ItemText t => total + estimate_text_tokens (ContentStr t)
                    | ItemOther => total
                    end) items acc.
Proof.
  revert acc.
  induction items as [|[t|] items IH]; intros acc Hacc; simpl.
  - exact Hacc.
  - apply IH. pose proof (estimate_text_tokens_nonneg (ContentStr t)). lia.
  - apply IH. exact Hacc.
Qed.

Lemma message_tokens_pos (m : message) : 1 <= message_tokens m.
Proof.
  unfold message_tokens.
  destruct (content m) as [s|items].
  - pose proof (estimate_text_tokens_nonneg (ContentStr s)). lia.
  - pose proof (fold_items_nonneg items 0). lia.
Qed.

Lemma fold_message_tokens (msgs : list message) (acc : Z) :
  fold_left (fun total m => total + message_tokens m) msgs acc
  = acc + fold_left (fun total m => total + message_tokens m) msgs 0.
Proof.
  revert acc.
  induction msgs as [|m msgs IH]; intros acc; simpl.
  - lia.
  - rewrite (IH (acc + message_tokens m)), (IH (0 + message_tokens m)). lia.
Qed.

Lemma fold_message_tokens_lower (msgs : list message) :
  Z.of_nat (length msgs)
  <= fold_left (fun total m => total + message_tokens m) msgs 0.
Proof.
  induction msgs as [|m msgs IH]; simpl length; [simpl; lia|].
  cbn [fold_left]. rewrite fold_message_tokens.
  pose proof (message_tokens_pos m). lia.
Qed.

(** With at least one message the final [max] does nothing. *)
Lemma estimate_messages_tokens_sum (msgs : list message) :
  msgs <> [] ->
  estimate_messages_tokens msgs
  = fold_left (fun total m => total + message_tokens m) msgs 0
    + Z.of_nat (length msgs) * 3.
Proof.
  intros Hne. unfold estimate_messages_tokens.
  pose proof (fold_message_tokens_lower msgs).
  destruct msgs; [congruence|]. simpl length in *. lia.
Qed.

Lemma estimate_messages_tokens_lower (msgs : list message) :
  msgs <> [] ->
  4 * Z.of_nat (length msgs) <= estimate_messages_tokens msgs.
Proof.
  intros Hne. rewrite (estimate_messages_tokens_sum _ Hne).
  pose proof (fold_message_tokens_lower msgs). lia.
Qed.

Lemma estimate_request_lower (request : ClaudeMessagesRequest) :
  5 + 4 * Z.of_nat (length (messages request))
  <= estimate_request_input_tokens request.
Proof.
  unfold estimate_request_input_tokens.
  assert (Hsys : 0 <= match system request with
                      | Some sys => if is_empty sys then 0
                                    else estimate_text_tokens sys
                      | None => 0
                      end).
  { destruct (system request) as [sys|]; [|lia].
    destruct (is_empty sys); [lia | apply estimate_text_tokens_nonneg]. }
  destruct (messages request) as [|m msgs] eqn:Hmsgs.
  - simpl length. lia.
  - pose proof (estimate_messages_tokens_lower (m :: msgs)) as Hlow.
    specialize (Hlow ltac:(discriminate)). lia.
Qed.

End MessageEstimates.

(** X2.  The estimate of a list of messages is 1 for the empty list; for
    a list that is not empty it is at least four tokens a message (role,
    overhead and content), and the estimate of two such lists put together
    is the sum of their estimates. *)
Theorem estimate_messages_tokens_additive :
  estimate_messages_tokens [] = 1
  /\ (forall msgs : list message,
         msgs <> [] ->
         4 * Z.of_nat (length msgs) <= estimate_messages_tokens msgs)
  /\ (forall a b : list message,
         a <> [] -> b <> [] ->
         estimate_messages_tokens (a ++ b)
         = estimate_messages_tokens a + estimate_messages_tokens b).
Proof.
  split; [reflexivity|]. split.
  - intros msgs Hne.
    rewrite (estimate_messages_tokens_sum _ Hne).
    pose proof (fold_message_tokens_lower msgs). lia.
  - intros a b Ha Hb.
    assert (Hab : a ++ b <> []) by (destruct a; [congruence | discriminate]).
    rewrite (estimate_messages_tokens_sum _ Ha),
      (estimate_messages_tokens_sum _ Hb),
      (estimate_messages_tokens_sum _ Hab).
    rewrite fold_left_app, fold_message_tokens, length_app.
    lia.
Qed.

Lemma estimate_messages_tokens_additive_witness :
  estimate_messages_tokens
    ([{| role := lit "user"; content := ContentStr (lit "test") |}]
       ++ [{| role := lit "assistant";
              content := ContentList [ItemText (lit "fine"); ItemOther] |}])
  = estimate_messages_tokens
      [{| role := lit "user"; content := ContentStr (lit "test") |}]
    + estimate_messages_tokens
        [{| role := lit "assistant";
            content := ContentList [ItemText (lit "fine"); ItemOther] |}].
Proof.
  destruct estimate_messages_tokens_additive as (_ & _ & Hadd).
  apply Hadd; discriminate.
Defined.

(** X3.  The estimate of the input of a request is at least 5 tokens and
    four more for every message; a request without messages is estimated at
    5 tokens plus the estimate of its system prompt, although the list of
    no messages is estimated at 1 on its own. *)
Theorem estimate_input_tokens_floor :
  (forall request : ClaudeMessagesRequest,
      5 + 4 * Z.of_nat (length (messages request))
      <= estimate_input_tokens request)
  /\ (forall request : ClaudeMessagesRequest,
         messages request = [] ->
         estimate_input_tokens request
         = 5 + match system request with
               | Some sys => estimate_text_tokens sys
               | None => 0
               end).
Proof.
  split.
  - intros request. apply estimate_request_lower.
  - intros request Hnone.
    unfold estimate_input_tokens, estimate_request_input_tokens.
    rewrite Hnone.
    destruct (system request) as [sys|]; [|reflexivity].
    pose proof (estimate_text_tokens_nonneg sys) as Hpos.
    destruct (is_empty sys) eqn:Hempty; [|lia].
    assert (Hzero : estimate_text_tokens sys = 0).
    { unfold estimate_text_tokens. rewrite Hempty. reflexivity. }
    rewrite Hzero. reflexivity.
Qed.

Lemma estimate_input_tokens_floor_witness :
  estimate_input_tokens
    {| model := lit "claude-3-haiku"; max_tokens := 100; messages := [];
       system := Some (ContentStr (lit "Be brief.")) |}
  = 5 + estimate_text_tokens (ContentStr (lit "Be brief.")).
Proof.
  destruct estimate_input_tokens_floor as [_ Hnone].
  apply (Hnone {| model := lit "claude-3-haiku"; max_tokens := 100;
                  messages := [];
                  system := Some (ContentStr (lit "Be brief.")) |}).
  reflexivity.
Defined.

(** ** The stream of the client *)

Section ClientStreamFacts.

Lemma closes_stream_error (kind message : str) :
  closes_stream (Data (error_chunk kind message)).
Proof. right. exists kind, message. reflexivity. Qed.

Lemma is_cancelled_lookup (reg : registry) (request_id : str) :
  request_id <> [] ->
  is_cancelled reg (Some request_id) = default false (reg !! request_id).
Proof.
  intros Hid. destruct request_id as [|ch s]; [congruence|].
  unfold is_cancelled. reflexivity.
Qed.

(** With enough demand the chunk loop yields chunks of the backend, as
    they come, and then one closing line. *)
Lemma chunk_loop_shape (request_id : option str) (turns : list turn) :
  forall (demand chunk_count : nat) (reg : registry),
    (length turns < demand)%nat ->
    exists n last,
      fst (chunk_loop request_id demand chunk_count reg turns)
      = map Data (take n (fetched_chunks turns)) ++ [last]
      /\ closes_stream last.
Proof.
  induction turns as [|t turns IH]; intros demand chunk_count reg Hdemand.
  - destruct demand as [|demand]; [simpl in Hdemand; lia|].
    exists 0%nat, Done. split; [reflexivity | left; reflexivity].
  - destruct demand as [|demand]; [simpl in Hdemand; lia|].
    simpl in Hdemand.
    cbn [chunk_loop fetched_chunks flat_map].
    destruct (arrives t) as [c| | | |message].
    + destruct (is_cancelled (meanwhile t reg) request_id).
      { exists 0%nat. eexists. split; [reflexivity | apply closes_stream_error]. }
      destruct (ends_stream c).
      { destruct demand as [|demand]; [lia|].
        exists 1%nat, Done. split; [reflexivity | left; reflexivity]. }
      destruct (IH demand (S chunk_count) (meanwhile t reg))
        as (n & last & Hlines & Hlast); [lia|].
      destruct (chunk_loop request_id demand (S chunk_count) (meanwhile t reg)
                  turns) as [lines after].
      simpl in Hlines. subst lines.
      exists (S n), last. split; [reflexivity | exact Hlast].
    + destruct (is_cancelled (meanwhile t reg) request_id).
      { exists 0%nat. eexists. split; [reflexivity | apply closes_stream_error]. }
      destruct (IH (S demand) (S chunk_count) (meanwhile t reg))
        as (n & last & Hlines & Hlast); [lia|].
      exists n, last. split; [exact Hlines | exact Hlast].
    + exists 0%nat, Done. split; [reflexivity | left; reflexivity].
    + exists 0%nat. eexists. split; [reflexivity | apply closes_stream_error].
    + exists 0%nat. eexists. split; [reflexivity | apply closes_stream_error].
Qed.

(** After a turn that ends the loop, what the backend would send next
    plays no part. *)
Lemma chunk_loop_last_turn (request_id : option str) (t : turn)
    (post : list turn) (pre : list turn) :
  last_turn t = true ->
  forall (demand chunk_count : nat) (reg : registry),
    chunk_loop request_id demand chunk_count reg (pre ++ t :: post)
    = chunk_loop request_id demand chunk_count reg (pre ++ [t]).
Proof.
  intros Hlast.
  induction pre as [|p pre IH]; intros demand chunk_count reg.
  - destruct demand as [|demand]; [reflexivity|].
    unfold last_turn in Hlast.
    cbn [app chunk_loop].
    destruct (arrives t) as [c| | | |message]; try reflexivity;
      [|discriminate].
    rewrite Hlast. reflexivity.
  - destruct demand as [|demand]; [reflexivity|].
    cbn [app chunk_loop].
    destruct (arrives p) as [c| | | |message]; try reflexivity.
    + rewrite (IH demand). reflexivity.
    + rewrite (IH (S demand)). reflexivity.
Qed.

(** Chunks forwarded while the entry of the request is in place and not
    set, then a cancellation that is seen when the next chunk arrives. *)
Lemma chunk_loop_cancelled (request_id : str) (t : turn) (rest : list turn) :
  request_id <> [] ->
  meanwhile t = (fun r => fst (cancel_request r request_id)) ->
  (exists c, arrives t = Fetched c) \/ arrives t = Undumpable ->
  forall (pre : list turn) (chunks : list chunk),
    Forall2 (forwards request_id) pre chunks ->
    forall (demand chunk_count : nat) (reg : registry),
      reg !! request_id = Some false ->
      (length pre < demand)%nat ->
      fst (chunk_loop (Some request_id) demand chunk_count reg
             (pre ++ t :: rest))
      = map Data chunks ++ [cancelled_payload].
Proof.
  intros Hid Hcancel Harrives.
  assert (Hflag : forall reg : registry,
             reg !! request_id = Some false ->
             is_cancelled (meanwhile t reg) (Some request_id) = true).
  { intros reg Hentry.
    rewrite (is_cancelled_lookup _ _ Hid), Hcancel.
    unfold cancel_request. rewrite Hentry. simpl.
    rewrite lookup_insert_eq. reflexivity. }
  induction 1 as [|p c pre chunks (Hp & Hends & Hkeeps) Hall IH];
    intros demand chunk_count reg Hentry Hdemand.
  - destruct demand as [|demand]; [simpl in Hdemand; lia|].
    cbn [app chunk_loop].
    destruct Harrives as [[c Hc]|Hu].
    + rewrite Hc, (Hflag _ Hentry). reflexivity.
    + rewrite Hu, (Hflag _ Hentry). reflexivity.
  - destruct demand as [|demand]; [simpl in Hdemand; lia|].
    simpl in Hdemand.
    cbn [app chunk_loop]. rewrite Hp.
    assert (Hstill : meanwhile p reg !! request_id = Some false)
      by (rewrite Hkeeps; exact Hentry).
    assert (Hnot : is_cancelled (meanwhile p reg) (Some request_id) = false).
    { rewrite (is_cancelled_lookup _ _ Hid), Hstill. reflexivity. }
    rewrite Hnot, Hends.
    specialize (IH demand (S chunk_count) (meanwhile p reg) Hstill ltac:(lia)).
    destruct (chunk_loop (Some request_id) demand (S chunk_count)
                (meanwhile p reg) (pre ++ t :: rest)) as [lines after].
    simpl in IH. subst lines. reflexivity.
Qed.

End ClientStreamFacts.

(** X4.  However the backend behaves and whatever other tasks do to the
    registry, a stream of the client whose consumer takes every line is a
    run of the chunks the backend handed over, in their order and as they
    are, followed by exactly one closing line: the end marker or an error
    payload of the client.  A backend call that cannot be opened gives the
    closing error payload alone. *)
Theorem client_stream_shape
    (active_requests : registry) (request_id : option str)
    (created : option str) (turns : list turn) (demand : nat) :
  (length turns < demand)%nat ->
  exists n last,
    fst (create_chat_completion_stream active_requests request_id created
           turns demand)
    = map Data (take n (fetched_chunks turns)) ++ [last]
    /\ closes_stream last
    /\ (created <> None -> n = 0%nat).
Proof.
  intros Hdemand.
  unfold create_chat_completion_stream.
  destruct demand as [|demand]; [lia|].
  destruct created as [failure|].
  - exists 0%nat. eexists. simpl.
    split; [reflexivity|]. split; [apply closes_stream_error | reflexivity].
  - destruct (chunk_loop_shape request_id turns (S demand) 0
                (track active_requests request_id) Hdemand)
      as (n & last & Hlines & Hlast).
    destruct (chunk_loop request_id (S demand) 0
                (track active_requests request_id) turns) as [lines after].
    exists n, last. simpl in *. split; [exact Hlines|].
    split; [exact Hlast | congruence].
Qed.

Lemma client_stream_shape_witness :
  exists n last,
    fst (create_chat_completion_stream ∅ (Some (lit "req-1")) None
           [{| meanwhile := fun r => r; arrives := Fetched (usage_chunk (5, 0)) |};
            {| meanwhile := fun r => r; arrives := Undumpable |};
            {| meanwhile := fun r => r; arrives := TimeoutError |}] 4)
    = map Data
        (take n (fetched_chunks
                   [{| meanwhile := fun r => r;
                       arrives := Fetched (usage_chunk (5, 0)) |};
                    {| meanwhile := fun r => r; arrives := Undumpable |};
                    {| meanwhile := fun r => r; arrives := TimeoutError |}]))
      ++ [last]
    /\ closes_stream last.
Proof.
  destruct (client_stream_shape ∅ (Some (lit "req-1")) None
              [{| meanwhile := fun r => r;
                  arrives := Fetched (usage_chunk (5, 0)) |};
               {| meanwhile := fun r => r; arrives := Undumpable |};
               {| meanwhile := fun r => r; arrives := TimeoutError |}] 4)
    as (n & last & Hlines & Hlast & _).
  - simpl. lia.
  - exists n, last. split; [exact Hlines | exact Hlast].
Defined.

(** X5.  The client reads nothing from the backend after a chunk whose
    first choice carries one of the finish reasons stop, length,
    function_call, tool_calls and content_filter, nor after the end of the
    backend stream, a timeout or a failure of the iteration: the lines it
    yields and the registry it leaves do not depend on what the backend
    would have sent next (a usage chunk that follows the finish reason, for
    one, is never forwarded). *)
Theorem client_reads_no_further
    (active_requests : registry) (request_id : option str)
    (created : option str) (pre post : list turn) (t : turn) (demand : nat) :
  last_turn t = true ->
  create_chat_completion_stream active_requests request_id created
    (pre ++ t :: post) demand
  = create_chat_completion_stream active_requests request_id created
      (pre ++ [t]) demand.
Proof.
  intros Hlast.
  unfold create_chat_completion_stream.
  destruct demand as [|demand]; [reflexivity|].
  destruct created as [failure|]; [reflexivity|].
  rewrite (chunk_loop_last_turn request_id t post pre Hlast).
  reflexivity.
Qed.

Lemma client_reads_no_further_witness :
  create_chat_completion_stream ∅ (Some (lit "req-1")) None
    ([] ++ {| meanwhile := fun r => r;
              arrives := Fetched (finish_chunk (Val (lit "stop"))) |}
        :: [{| meanwhile := fun r => r;
               arrives := Fetched (usage_only_chunk (5, 10)) |}]) 5
  = create_chat_completion_stream ∅ (Some (lit "req-1")) None
      ([] ++ [{| meanwhile := fun r => r;
                 arrives := Fetched (finish_chunk (Val (lit "stop"))) |}]) 5.
Proof.
  apply client_reads_no_further.
  vm_compute. reflexivity.
Defined.

(** X6.  A call of [cancel_request] made by another task while a stream
    of the client waits for a chunk is answered with True, and it ends the
    stream when that chunk arrives: the chunks forwarded before are
    followed by the one error payload of type client_error, the chunk that
    arrived is not forwarded, nothing more is read, and the entry of the
    request is gone afterwards. *)
Theorem cancel_ends_stream
    (active_requests : registry) (request_id : str)
    (pre rest : list turn) (chunks : list chunk) (t : turn) (demand : nat) :
  request_id <> [] ->
  Forall2 (forwards request_id) pre chunks ->
  meanwhile t = (fun r => fst (cancel_request r request_id)) ->
  (exists c, arrives t = Fetched c) \/ arrives t = Undumpable ->
  (length pre < demand)%nat ->
  snd (cancel_request (track active_requests (Some request_id)) request_id)
  = true
  /\ fst (create_chat_completion_stream active_requests (Some request_id) None
            (pre ++ t :: rest) demand)
     = map Data chunks ++ [cancelled_payload]
  /\ snd (create_chat_completion_stream active_requests (Some request_id) None
            (pre ++ t :: rest) demand) !! request_id = None.
Proof.
  intros Hid Hpre Hcancel Harrives Hdemand.
  pose proof (track_lookup active_requests request_id Hid) as Htracked.
  split; [|split].
  - unfold cancel_request. rewrite Htracked. reflexivity.
  - unfold create_chat_completion_stream.
    destruct demand as [|demand]; [lia|].
    pose proof (chunk_loop_cancelled request_id t rest Hid Hcancel Harrives
                  pre chunks Hpre (S demand) 0%nat _ Htracked Hdemand)
      as Hlines.
    destruct (chunk_loop (Some request_id) (S demand) 0
                (track active_requests (Some request_id)) (pre ++ t :: rest))
      as [lines after].
    exact Hlines.
  - unfold create_chat_completion_stream.
    destruct demand as [|demand]; [lia|].
    destruct (chunk_loop (Some request_id) (S demand) 0
                (track active_requests (Some request_id)) (pre ++ t :: rest))
      as [lines after].
    simpl. apply untrack_lookup, Hid.
Qed.

Lemma cancel_ends_stream_witness :
  fst (create_chat_completion_stream ∅ (Some (lit "req-1")) None
         ([{| meanwhile := fun r => r; arrives := Fetched (usage_chunk (5, 0)) |}]
            ++ {| meanwhile := fun r => fst (cancel_request r (lit "req-1"));
                  arrives := Fetched (usage_chunk (5, 10)) |}
            :: []) 3)
  = map Data [usage_chunk (5, 0)] ++ [cancelled_payload].
Proof.
  refine (proj1 (proj2 (cancel_ends_stream ∅ (lit "req-1")
                          [{| meanwhile := fun r => r;
                              arrives := Fetched (usage_chunk (5, 0)) |}]
                          [] [usage_chunk (5, 0)]
                          {| meanwhile :=
                               fun r => fst (cancel_request r (lit "req-1"));
                             arrives := Fetched (usage_chunk (5, 10)) |}
                          3 _ _ _ _ _))).
  - discriminate.
  - constructor; [|constructor].
    split; [reflexivity|]. split; [reflexivity|]. intros r. reflexivity.
  - reflexivity.
  - left. eexists. reflexivity.
  - simpl. lia.
Defined.

(** ** Cancellation and the calls of the client *)

Section CancellationReach.

Lemma track_after_cancel (reg : registry) (request_id : str) :
  request_id <> [] ->
  track (fst (cancel_request reg request_id)) (Some request_id)
  = track reg (Some request_id).
Proof.
  intros Hid. destruct request_id as [|ch s]; [congruence|].
  unfold cancel_request.
  match goal with
  | |- context [match ?entry with Some _ => _ | None => _ end] =>
      destruct entry
  end; simpl; [|reflexivity].
  apply insert_insert_eq.
Qed.

Lemma cancel_request_unknown (reg : registry) (request_id : str) :
  reg !! request_id = None -> cancel_request reg request_id = (reg, false).
Proof.
  intros Hnone. unfold cancel_request. rewrite Hnone. reflexivity.
Qed.

Lemma stream_untracked (reg : registry) (request_id : str)
    (created : option str) (turns : list turn) (demand : nat) :
  request_id <> [] -> demand <> O ->
  snd (create_chat_completion_stream reg (Some request_id) created turns demand)
    !! request_id = None.
Proof.
  intros Hid Hdemand. unfold create_chat_completion_stream.
  destruct demand as [|demand]; [congruence|].
  destruct (match created with
            | Some failure => _
            | None => chunk_loop (Some request_id) (S demand) 0
                        (track reg (Some request_id)) turns
            end) as [lines after].
  simpl. apply untrack_lookup, Hid.
Qed.

End CancellationReach.

(** X7.  A cancellation reaches a call of the client only while the call
    is in flight.  Requested before the call has registered its id it is
    without effect, even when an older entry of the same id made
    [cancel_request] answer True: the call, streaming or not, runs and
    leaves the registry exactly as it would have without the request.
    Requested after the call has ended it is answered False and changes
    nothing. *)
Theorem cancel_outside_call_has_no_effect :
  (forall (A : Type) (reg : registry) (request_id : str) (env : in_flight A),
      request_id <> [] ->
      create_chat_completion (fst (cancel_request reg request_id))
        (Some request_id) env
      = create_chat_completion reg (Some request_id) env)
  /\ (forall (reg : registry) (request_id : str) (created : option str)
             (turns : list turn) (demand : nat),
         request_id <> [] -> demand <> O ->
         create_chat_completion_stream (fst (cancel_request reg request_id))
           (Some request_id) created turns demand
         = create_chat_completion_stream reg (Some request_id) created turns
             demand)
  /\ (forall (A : Type) (reg : registry) (request_id : str) (env : in_flight A),
         request_id <> [] ->
         let after := snd (create_chat_completion reg (Some request_id) env) in
         cancel_request after request_id = (after, false))
  /\ (forall (reg : registry) (request_id : str) (created : option str)
             (turns : list turn) (demand : nat),
         request_id <> [] -> demand <> O ->
         let after :=
           snd (create_chat_completion_stream reg (Some request_id) created
                  turns demand) in
         cancel_request after request_id = (after, false)).
Proof.
  split; [|split; [|split]].
  - intros A reg request_id env Hid.
    unfold create_chat_completion.
    rewrite (track_after_cancel _ _ Hid). reflexivity.
  - intros reg request_id created turns demand Hid Hdemand.
    unfold create_chat_completion_stream.
    destruct demand as [|demand]; [congruence|].
    rewrite (track_after_cancel _ _ Hid). reflexivity.
  - intros A reg request_id env Hid after.
    apply cancel_request_unknown.
    unfold after, create_chat_completion. simpl.
    apply untrack_lookup, Hid.
  - intros reg request_id created turns demand Hid Hdemand after.
    apply cancel_request_unknown.
    apply stream_untracked; assumption.
Qed.

Lemma cancel_outside_call_has_no_effect_witness :
  create_chat_completion_stream
    (fst (cancel_request {[ lit "req-1" := false ]} (lit "req-1")))
    (Some (lit "req-1")) None
    [{| meanwhile := fun r => r; arrives := Fetched (usage_chunk (5, 0)) |}] 3
  = create_chat_completion_stream {[ lit "req-1" := false ]}
      (Some (lit "req-1")) None
      [{| meanwhile := fun r => r; arrives := Fetched (usage_chunk (5, 0)) |}] 3.
Proof.
  destruct cancel_outside_call_has_no_effect as (_ & Hstream & _).
  apply Hstream; discriminate.
Defined.

(** X8.  A call of [create_chat_completion] returns the completion of
    the backend exactly when the backend answered and the call was not
    cancelled.  When the call was not cancelled and the backend failed, it
    raises an HTTP error with the status 401 for an authentication failure,
    429 for a rate-limit failure, 400 for a bad request, the status of the
    backend for another API error that carries one, and 500 for an API
    error without a status and for every other exception.  A cancelled call
    with a request id raises 500, whatever the backend answered: the 499
    raised for it inside the call is caught by the handler of unexpected
    errors.  So the statuses are 400, 401, 429 and 500, and what the backend
    put in an API error. *)
Theorem completion_status_codes
    (A : Type) (active_requests : registry) (request_id : option str)
    (env : in_flight A) :
  (forall completion,
      fst (create_chat_completion active_requests request_id env)
      = Client.Returned completion
      <-> backend env = Reply completion
          /\ truthy request_id && cancel_fired env = false)
  /\ (truthy request_id && cancel_fired env = false ->
      forall e : backend_error,
        backend env = Failure e ->
        fst (create_chat_completion active_requests request_id env)
        = HTTPError match e with
                    | AuthenticationError => 401
                    | RateLimitError => 429
                    | BadRequestError => 400
                    | APIError (Some status_code) => status_code
                    | APIError None => 500
                    | UnexpectedError => 500
                    end)
  /\ (truthy request_id = true -> cancel_fired env = true ->
      fst (create_chat_completion active_requests request_id env)
      = HTTPError 500)
  /\ (forall status_code,
         fst (create_chat_completion active_requests request_id env)
         = HTTPError status_code ->
         status_code ∈ [400; 401; 429; 500]
         \/ backend env = Failure (APIError (Some status_code))).
Proof.
  unfold create_chat_completion. simpl.
  split; [|split; [|split]].
  - intros completion.
    destruct (truthy request_id && cancel_fired env).
    + split; [discriminate | intros [_ H]; discriminate].
    + destruct (backend env) as [c|[| | |[code|]|]];
        (split; [intros H; try discriminate H | intros [H _]; try discriminate H]).
      * injection H as ->. auto.
      * injection H as ->. reflexivity.
  - intros -> e ->. destruct e as [| | |[code|]|]; reflexivity.
  - intros -> ->. reflexivity.
  - intros status_code.
    destruct (truthy request_id && cancel_fired env).
    + intros H. injection H as <-. left. set_solver.
    + destruct (backend env) as [c|[| | |[code|]|]]; intros H;
        try discriminate H; injection H as <-;
        try (left; set_solver).
      right. reflexivity.
Qed.

Lemma completion_status_codes_witness :
  fst (create_chat_completion (A := unit) ∅ (Some (lit "req-1"))
         {| others := fun r => r; cancel_fired := false;
            backend := Failure RateLimitError |})
  = HTTPError 429
  /\ fst (create_chat_completion (A := unit) ∅ None
            {| others := fun r => r; cancel_fired := true;
               backend := Failure (APIError (Some 503)) |})
     = HTTPError 503
  /\ fst (create_chat_completion (A := unit) ∅ (Some (lit "req-1"))
            {| others := fun r => r; cancel_fired := true;
               backend := Reply tt |})
     = HTTPError 500.
Proof.
  split; [|split].
  - refine (proj1 (proj2 (completion_status_codes unit ∅
                            (Some (lit "req-1"))
                            {| others := fun r => r; cancel_fired := false;
                               backend := Failure RateLimitError |}))
              _ RateLimitError _); reflexivity.
  - refine (proj1 (proj2 (completion_status_codes unit ∅ None
                            {| others := fun r => r; cancel_fired := true;
                               backend := Failure (APIError (Some 503)) |}))
              _ (APIError (Some 503)) _); reflexivity.
  - apply (completion_status_codes unit ∅ (Some (lit "req-1"))
             {| others := fun r => r; cancel_fired := true;
                backend := Reply tt |}); reflexivity.
Defined.

(** ** Endpoints *)

Section TextFacts.

Lemma startswith_app (p r : str) : startswith (p ++ r) p = true.
Proof.
  induction p as [|c p IH]; simpl; [reflexivity|].
  rewrite N.eqb_refl. exact IH.
Qed.

Lemma startswith_split (s p : str) :
  startswith s p = true -> exists r, s = p ++ r.
Proof.
  revert s.
  induction p as [|a p IH]; intros s; simpl.
  - intros _. exists s. reflexivity.
  - destruct s as [|c s]; [discriminate|].
    intros H. apply andb_prop in H as [Hc Hs].
    apply N.eqb_eq in Hc. subst c.
    destruct (IH s Hs) as [r ->]. exists r. reflexivity.
Qed.

Lemma startswith_mono (x r p : str) :
  startswith x p = true -> startswith (x ++ r) p = true.
Proof.
  intros H. apply startswith_split in H as [r' ->].
  rewrite <- app_assoc. apply startswith_app.
Qed.

Lemma before_prefix (s sep : str) : exists r, s = before s sep ++ r.
Proof.
  induction s as [|c s IH]; simpl.
  - exists []. destruct (startswith [] sep); reflexivity.
  - destruct (startswith (c :: s) sep).
    + exists (c :: s). reflexivity.
    + destruct IH as [r Hr]. exists r. simpl. rewrite <- Hr. reflexivity.
Qed.

Lemma before_none (s sep : str) :
  contains s sep = false -> before s sep = s.
Proof.
  induction s as [|c s IH]; simpl.
  - intros H. apply orb_false_elim in H as [-> _]. reflexivity.
  - intros H. apply orb_false_elim in H as [-> H].
    rewrite (IH H). reflexivity.
Qed.

Lemma contains_before (s sep : str) :
  sep <> [] -> contains (before s sep) sep = false.
Proof.
  intros Hsep.
  assert (Hnil : contains [] sep = false).
  { destruct sep; [congruence | reflexivity]. }
  induction s as [|c s IH].
  - simpl. destruct (startswith [] sep); exact Hnil.
  - cbn [before].
    destruct (startswith (c :: s) sep) eqn:Hs; [exact Hnil|].
    cbn [contains]. rewrite IH, orb_false_r.
    destruct (startswith (c :: before s sep) sep) eqn:Hb; [|reflexivity].
    destruct (before_prefix s sep) as [r Hr].
    apply (startswith_mono _ r) in Hb.
    simpl in Hb. rewrite <- Hr in Hb. congruence.
Qed.

Lemma contains_prefix (x r sep : str) :
  contains (x ++ r) sep = false -> contains x sep = false.
Proof.
  induction x as [|c x IH]; simpl.
  - intros H. destruct sep as [|d sep']; [destruct r; discriminate H | reflexivity].
  - intros H. apply orb_false_elim in H as [Hs H].
    rewrite (IH H), orb_false_r.
    destruct (startswith (c :: x) sep) eqn:Hx; [|reflexivity].
    apply (startswith_mono _ r) in Hx. simpl in Hx. congruence.
Qed.

(** A word that holds no [d] is not met across the end of a text that
    is followed by [d]. *)
Lemma startswith_unbordered (d : N) (w q r : str) :
  Forall (fun ch => ch <> d) w ->
  w <> [] ->
  startswith (q ++ d :: r) w = startswith q w.
Proof.
  intros Hw. revert q.
  induction Hw as [|a w Ha Hw IH]; intros q Hne; [congruence|].
  destruct q as [|b q]; simpl.
  - apply N.eqb_neq in Ha. rewrite N.eqb_sym, Ha. reflexivity.
  - destruct w as [|a' w'].
    + destruct (b =? a)%N; reflexivity.
    + rewrite IH by discriminate. reflexivity.
Qed.

(** What stands before the first separator, when the separator starts
    with a character that it does not hold again. *)
Lemma before_first (d : N) (w p rest : str) :
  Forall (fun ch => ch <> d) w ->
  contains p (d :: w) = false ->
  before (p ++ d :: w ++ rest) (d :: w) = p.
Proof.
  intros Hw.
  induction p as [|c p IH]; intros Hp.
  - cbn [app before].
    pose proof (startswith_app (d :: w) rest) as Hs.
    cbn [app] in Hs. rewrite Hs. reflexivity.
  - cbn [contains] in Hp. apply orb_false_elim in Hp as [Hs Hp].
    cbn [app before].
    assert (Hhead : startswith (c :: p ++ d :: w ++ rest) (d :: w) = false).
    { simpl in Hs |- *.
      destruct (c =? d)%N; [|reflexivity]. simpl in *.
      destruct w as [|a w']; [discriminate Hs|].
      rewrite startswith_unbordered; [exact Hs | exact Hw | discriminate]. }
    rewrite Hhead, (IH Hp). reflexivity.
Qed.

(** A run of characters other than the first of the separator is
    kept. *)
Lemma before_skip (d : N) (sep' x r : str) :
  Forall (fun ch => ch <> d) x ->
  before (x ++ r) (d :: sep') = x ++ before r (d :: sep').
Proof.
  induction 1 as [|a x Ha Hx IH]; [reflexivity|].
  cbn [app before]. simpl startswith.
  apply N.eqb_neq in Ha. rewrite Ha. simpl.
  rewrite IH. reflexivity.
Qed.

Lemma rstrip_prefix (s : str) (char : N) :
  exists r, s = rstrip s char ++ r.
Proof.
  induction s as [|c s [r IH]]; simpl.
  - exists []. reflexivity.
  - destruct (rstrip s char) as [|k kept].
    + destruct (c =? char)%N.
      * exists (c :: s). reflexivity.
      * exists s. reflexivity.
    + exists r. simpl. rewrite IH at 1. reflexivity.
Qed.

Lemma rstrip_last (s : str) (char : N) :
  last (rstrip s char) <> Some char.
Proof.
  induction s as [|c s IH]; simpl.
  - discriminate.
  - destruct (rstrip s char) as [|k kept] eqn:Hkept.
    + destruct (N.eqb_spec c char); simpl; congruence.
    + rewrite last_cons_cons. exact IH.
Qed.

Lemma rstrip_fixed (s : str) (char : N) :
  last s <> Some char -> rstrip s char = s.
Proof.
  induction s as [|c s IH]; [reflexivity|].
  destruct s as [|c' s'].
  - simpl. intros Hc. destruct (N.eqb_spec c char); congruence.
  - rewrite last_cons_cons. intros Hlast.
    cbn [rstrip] in IH |- *. rewrite (IH Hlast). reflexivity.
Qed.

End TextFacts.

Section EndpointFacts.

Lemma azure_endpoint_eq (base_url : str) :
  azure_endpoint base_url = rstrip (before base_url (lit "/openai")) 47.
Proof.
  unfold azure_endpoint.
  destruct (contains base_url (lit "/openai")) eqn:Hc; [reflexivity|].
  rewrite (before_none _ _ Hc). reflexivity.
Qed.

Lemma no_slash_openai :
  Forall (fun ch : N => ch <> 47%N) (lit "openai").
Proof. repeat constructor; discriminate. Qed.

(** The cut made by [Config] is made again by the client. *)
Lemma before_before (u : str) :
  before (before u (lit "/openai/")) (lit "/openai")
  = before u (lit "/openai").
Proof.
  change (lit "/openai/") with [47; 111; 112; 101; 110; 97; 105; 47]%N.
  change (lit "/openai") with [47; 111; 112; 101; 110; 97; 105]%N.
  induction u as [|c u IH]; [reflexivity|].
  cbn [before].
  destruct (startswith (c :: u) [47; 111; 112; 101; 110; 97; 105; 47]%N)
    eqn:Hlong.
  - apply startswith_split in Hlong as [r Hr]. rewrite Hr. reflexivity.
  - destruct (startswith (c :: u) [47; 111; 112; 101; 110; 97; 105]%N)
      eqn:Hshort.
    + apply startswith_split in Hshort as [r Hr].
      injection Hr as -> ->.
      change ([111; 112; 101; 110; 97; 105]%N ++ r)
        with (111 :: 112 :: 101 :: 110 :: 97 :: 105 :: r)%N.
      change (111 :: 112 :: 101 :: 110 :: 97 :: 105 :: r)%N
        with ([111; 112; 101; 110; 97; 105]%N ++ r).
      rewrite (before_skip 47 [111; 112; 101; 110; 97; 105; 47]%N
                 [111; 112; 101; 110; 97; 105]%N r);
        [reflexivity | repeat constructor; discriminate].
    + cbn [before].
      destruct (startswith
                  (c :: before u [47; 111; 112; 101; 110; 97; 105; 47]%N)
                  [47; 111; 112; 101; 110; 97; 105]%N) eqn:Hcut.
      * destruct (before_prefix u [47; 111; 112; 101; 110; 97; 105; 47]%N)
          as [r Hr].
        apply (startswith_mono _ r) in Hcut.
        cbn [app] in Hcut. rewrite <- Hr in Hcut. congruence.
      * rewrite IH. reflexivity.
Qed.

End EndpointFacts.

(** X9.  The Azure endpoint that the constructor of the client derives
    from a base URL is a prefix of that URL, holds no "/openai", does not
    end with a slash, and is left as it is when it is cleaned again.  It is
    the part of the URL before the first "/openai", without its trailing
    slashes; so a URL whose host name itself starts with "openai" is cut
    down to "https:". *)
Theorem azure_endpoint_clean :
  (forall base_url : str,
      (exists rest, base_url = azure_endpoint base_url ++ rest)
      /\ contains (azure_endpoint base_url) (lit "/openai") = false
      /\ last (azure_endpoint base_url) <> Some 47%N
      /\ azure_endpoint (azure_endpoint base_url) = azure_endpoint base_url)
  /\ (forall endpoint rest : str,
         contains endpoint (lit "/openai") = false ->
         azure_endpoint (endpoint ++ lit "/openai" ++ rest)
         = rstrip endpoint 47)
  /\ (forall rest : str,
         azure_endpoint (lit "https://openai" ++ rest) = lit "https:").
Proof.
  assert (Hcut : forall endpoint rest : str,
             contains endpoint (lit "/openai") = false ->
             azure_endpoint (endpoint ++ lit "/openai" ++ rest)
             = rstrip endpoint 47).
  { intros endpoint rest Hnone.
    rewrite azure_endpoint_eq.
    change (endpoint ++ lit "/openai" ++ rest)
      with (endpoint ++ 47%N :: lit "openai" ++ rest).
    change (lit "/openai") with (47%N :: lit "openai") in Hnone |- *.
    rewrite (before_first 47 (lit "openai") endpoint rest no_slash_openai Hnone).
    reflexivity. }
  split; [|split; [exact Hcut|]].
  - intros base_url.
    rewrite azure_endpoint_eq.
    set (cut := before base_url (lit "/openai")).
    assert (Hnone : contains (rstrip cut 47) (lit "/openai") = false).
    { destruct (rstrip_prefix cut 47) as [r Hr].
      apply (contains_prefix _ r). rewrite <- Hr.
      apply contains_before. discriminate. }
    split; [|split; [exact Hnone|split; [apply rstrip_last|]]].
    + destruct (before_prefix base_url (lit "/openai")) as [r1 Hr1].
      destruct (rstrip_prefix cut 47) as [r2 Hr2].
      exists (r2 ++ r1). rewrite app_assoc, <- Hr2. exact Hr1.
    + rewrite azure_endpoint_eq, (before_none _ _ Hnone).
      apply rstrip_fixed, rstrip_last.
  - intros rest.
    change (lit "https://openai" ++ rest)
      with (lit "https:/" ++ lit "/openai" ++ rest).
    rewrite Hcut; reflexivity.
Qed.

Lemma azure_endpoint_clean_witness :
  azure_endpoint
    (lit "https://roy-key.openai.azure.com/" ++ lit "/openai"
       ++ lit "/deployments/gpt-4.1/chat/completions")
  = rstrip (lit "https://roy-key.openai.azure.com/") 47.
Proof.
  destruct azure_endpoint_clean as (_ & Hcut & _).
  apply Hcut. vm_compute. reflexivity.
Defined.

(** X10.  The cut that [Config] makes in an Azure deployment URL is made
    again by the constructor of the client, and is all the constructor
    needs: whatever the base URL and the API version of the environment,
    the client built from the URL that [Config] keeps is the client built
    from the URL of the environment itself. *)
Theorem config_cut_is_redundant
    (api_key : str) (OPENAI_BASE_URL AZURE_API_VERSION : option str)
    (timeout : Z) :
  __init__ api_key (Config.openai_base_url OPENAI_BASE_URL AZURE_API_VERSION)
    timeout AZURE_API_VERSION
  = __init__ api_key (default (lit "https://api.openai.com/v1") OPENAI_BASE_URL)
      timeout AZURE_API_VERSION.
Proof.
  unfold __init__, Config.openai_base_url.
  set (url := default (lit "https://api.openai.com/v1") OPENAI_BASE_URL).
  destruct AZURE_API_VERSION as [[|c version]|]; try reflexivity.
  simpl truthy. cbv iota.
  destruct (contains url (lit "/openai/deployments/")); [|reflexivity].
  destruct (contains url (lit "/openai/")); [|reflexivity].
  rewrite !azure_endpoint_eq, before_before. reflexivity.
Qed.

(** ** The alternative streaming call *)

Section AlternativeFacts.

Lemma alternative_loop_all (request_id : option str) (turns : list turn) :
  forall (demand chunk_count : nat) (reg : registry),
    handed_over request_id reg turns ->
    (length turns < demand)%nat ->
    alternative_loop request_id demand chunk_count reg turns
    = (map Data (fetched_chunks turns) ++ [Done],
       fold_left (fun r t => meanwhile t r) turns reg).
Proof.
  induction turns as [|t turns IH];
    intros demand chunk_count reg Hturns Hdemand.
  - destruct demand as [|demand]; [simpl in Hdemand; lia | reflexivity].
  - destruct demand as [|demand]; [simpl in Hdemand; lia|].
    simpl in Hdemand.
    destruct Hturns as ([c Hc] & Hquiet & Hturns).
    cbn [alternative_loop fetched_chunks flat_map fold_left].
    rewrite Hc, Hquiet.
    rewrite (IH demand (S chunk_count) (meanwhile t reg) Hturns ltac:(lia)).
    reflexivity.
Qed.

End AlternativeFacts.

(** X25.  The alternative streaming call looks at no finish reason: as
    long as the request is not found cancelled when a chunk arrives, it
    forwards every chunk the backend hands over, also those that follow a
    chunk with a finish reason (where the regular call stops reading), and
    closes with the end marker when the backend stream ends.  It makes and
    removes no registry entry itself: the registry it leaves is the one
    other tasks have made of it.  When the backend call is not opened in
    time or fails, it yields one error payload and nothing else. *)
Theorem alternative_forwards_every_chunk :
  (forall (active_requests : registry) (request_id : option str)
          (turns : list turn) (demand : nat),
      handed_over request_id active_requests turns ->
      (length turns < demand)%nat ->
      _handle_azure_streaming_alternative active_requests request_id
        Created turns demand
      = (map Data (fetched_chunks turns) ++ [Done],
         fold_left (fun r t => meanwhile t r) turns active_requests))
  /\ (forall (active_requests : registry) (request_id : option str)
             (created : creation) (turns : list turn) (demand : nat),
         created <> Created -> demand <> O ->
         exists kind message,
           _handle_azure_streaming_alternative active_requests request_id
             created turns demand
           = ([Data (error_chunk kind message)], active_requests)).
Proof.
  split.
  - intros active_requests request_id turns demand Hturns Hdemand.
    unfold _handle_azure_streaming_alternative.
    destruct demand as [|demand]; [lia|].
    apply alternative_loop_all; assumption.
  - intros active_requests request_id created turns demand Hcreated Hdemand.
    unfold _handle_azure_streaming_alternative.
    destruct demand as [|demand]; [congruence|].
    destruct created as [| |message]; [congruence| |];
      eexists _, _; reflexivity.
Qed.

Lemma alternative_forwards_every_chunk_witness :
  _handle_azure_streaming_alternative {[ lit "req-1" := false ]}
    (Some (lit "req-1")) Created
    [{| meanwhile := fun r => r;
        arrives := Fetched (finish_chunk (Val (lit "stop"))) |};
     {| meanwhile := fun r => fst (cancel_request r (lit "req-2"));
        arrives := Fetched (usage_only_chunk (5, 10)) |}] 3
  = ([Data (finish_chunk (Val (lit "stop")));
      Data (usage_only_chunk (5, 10)); Done],
     {[ lit "req-1" := false ]}).
Proof.
  destruct alternative_forwards_every_chunk as [Hall _].
  rewrite Hall.
  - vm_compute. reflexivity.
  - vm_compute. repeat split; eexists; reflexivity.
  - simpl. lia.
Defined.

(** ** The events of a translation, one by one *)

Section SoundFacts.

Variable json_loads : str -> loads_result.
Variable v : variant.

Lemma sound_ret {A : Type} (a : A) :
  sound (block_event json_loads) (ret a).
Proof. split; [constructor | exact I]. Qed.

Lemma sound_raise {A : Type} (e : exn) :
  body_error e = true ->
  sound (block_event json_loads) (@raise A e).
Proof. intros He. split; [constructor | exact He]. Qed.

Lemma sound_yield (e : event) :
  block_event json_loads e = true ->
  sound (block_event json_loads) (yield e).
Proof. intros He. split; [repeat constructor; exact He | exact I]. Qed.

Lemma sound_bind {A B : Type} (m : gen A) (k : A -> gen B) :
  sound (block_event json_loads) m ->
  (forall a, sound (block_event json_loads) (k a)) ->
  sound (block_event json_loads) (bind m k).
Proof.
  intros [Hevs Hres] Hk.
  destruct m as [evs [a|e]]; simpl in *.
  - destruct (Hk a) as [Hevs' Hres'].
    destruct (k a) as [evs' r]. simpl in *.
    split; [apply Forall_app; auto | exact Hres'].
  - split; assumption.
Qed.

Lemma sound_extract_usage (st : state) (c : chunk) :
  sound (block_event json_loads) (extract_usage st c).
Proof.
  unfold extract_usage.
  destruct (get_or empty_usage (chunk_usage c)) as [usage|];
    [|apply sound_ret].
  apply sound_bind.
  - destruct (prompt_tokens usage);
      [apply sound_ret | apply sound_raise; reflexivity | apply sound_ret].
  - intros st'.
    destruct (completion_tokens usage);
      [apply sound_ret | apply sound_raise; reflexivity | apply sound_ret].
Qed.

Lemma sound_start_block (counter : Z) (tool_call : tool_call_entry) :
  sound (block_event json_loads) (start_block counter tool_call).
Proof.
  unfold start_block.
  destruct (truthy (tool_id tool_call) && truthy (tool_name tool_call)
            && negb (started tool_call)) eqn:Hguard; [|apply sound_ret].
  apply andb_prop in Hguard as [Hknown _].
  apply sound_bind.
  - apply sound_yield. exact Hknown.
  - intros _. apply sound_ret.
Qed.

Lemma sound_append_arguments (tool_call : tool_call_entry)
    (function_data : function_delta) :
  sound (block_event json_loads)
    (append_arguments json_loads v tool_call function_data).
Proof.
  unfold append_arguments.
  destruct (has_key (fn_arguments function_data) && started tool_call);
    [|apply sound_ret].
  destruct (fn_arguments function_data) as [| |fragment].
  - destruct (with_cancellation v);
      [apply sound_ret | apply sound_raise; reflexivity].
  - destruct (with_cancellation v);
      [apply sound_ret | apply sound_raise; reflexivity].
  - cbv zeta. simpl args_buffer. simpl json_sent.
    destruct (json_loads (args_buffer tool_call ++ fragment)) eqn:Hok;
      [|apply sound_ret|apply sound_raise; reflexivity].
    destruct (negb (json_sent tool_call)); [|apply sound_ret].
    apply sound_bind.
    + apply sound_yield. simpl. rewrite Hok. reflexivity.
    + intros _. apply sound_ret.
Qed.

Lemma sound_handle_tool_call_delta (st : state) (tc_delta : tool_call_delta) :
  sound (block_event json_loads)
    (handle_tool_call_delta json_loads v st tc_delta).
Proof.
  unfold handle_tool_call_delta.
  destruct (get_or empty_function (tc_function tc_delta)) as [function_data|];
    [|apply sound_raise; reflexivity].
  apply sound_bind; [apply sound_start_block|].
  intros [counter tool_call].
  apply sound_bind; [apply sound_append_arguments|].
  intros appended. apply sound_ret.
Qed.

Lemma sound_handle_tool_calls (deltas : list tool_call_delta) (st : state) :
  sound (block_event json_loads)
    (handle_tool_calls json_loads v st deltas).
Proof.
  revert st.
  induction deltas as [|tc_delta deltas IH]; intros st; simpl.
  - apply sound_ret.
  - apply sound_bind; [apply sound_handle_tool_call_delta | exact IH].
Qed.

Lemma sound_text_delta (d : delta) :
  sound (block_event json_loads) (text_delta d).
Proof.
  unfold text_delta.
  destruct (get (delta_content d)) as [[|ch text]|]; try apply sound_ret.
  apply sound_yield. reflexivity.
Qed.

Lemma sound_tool_call_deltas (st : state) (d : delta) :
  sound (block_event json_loads) (tool_call_deltas json_loads v st d).
Proof.
  unfold tool_call_deltas.
  destruct (delta_tool_calls d) as [| |deltas].
  - apply sound_ret.
  - destruct (with_cancellation v);
      [apply sound_ret | apply sound_raise; reflexivity].
  - apply sound_handle_tool_calls.
Qed.

Lemma sound_process_choice (st : state) (c : chunk) (choice : choice) :
  sound (block_event json_loads)
    (process_choice json_loads v st c choice).
Proof.
  unfold process_choice.
  apply sound_bind; [apply sound_extract_usage|].
  intros st'.
  destruct (get_or empty_delta (choice_delta choice)) as [d|];
    [|apply sound_raise; reflexivity].
  apply sound_bind; [apply sound_text_delta|].
  intros _.
  apply sound_bind; [apply sound_tool_call_deltas|].
  intros st''. apply sound_ret.
Qed.

(** The body of the loop never returns on a payload with a choice. *)
Lemma process_choice_goes_on (st : state) (c : chunk) (choice : choice)
    (evs : list event) :
  process_choice json_loads v st c choice <> (evs, Ok Return).
Proof.
  unfold process_choice. intros H.
  apply bind_ok in H as (evs0 & st0 & evs1 & _ & H & _).
  destruct (get_or empty_delta (choice_delta choice)) as [d|];
    [|discriminate].
  apply bind_ok in H as (evs2 & [] & evs3 & _ & H & _).
  apply bind_ok in H as (evs4 & st2 & evs5 & _ & H & _).
  injection H as _ H. unfold finish in H.
  destruct (get (finish_reason choice)) as [[|ch reason]|]; discriminate.
Qed.

(** One line either is a sound step that goes on or leaves the loop by
    [break] or by an error of the body, or it is the inline error of the
    second translator: one error event, and [return]. *)
Lemma process_line_cases (st : state) (l : line) :
  (sound (block_event json_loads) (process_line json_loads v st l)
   /\ snd (process_line json_loads v st l) <> Ok Return)
  \/ (with_cancellation v = true
      /\ exists kind text,
          process_line json_loads v st l = ([Error kind text], Ok Return)).
Proof.
  destruct l as [| | | |message|holds_error|c]; simpl;
    try (left; split; [apply sound_ret | discriminate]).
  { left. split; [apply sound_raise; reflexivity | discriminate]. }
  { left. destruct (reject_value_raises v holds_error) as (e & -> & He).
    split; [|discriminate].
    apply sound_raise. destruct He as [-> | ->]; reflexivity. }
  unfold process_chunk.
  destruct (with_cancellation v && has_key (error c)) eqn:Hroute.
  - apply andb_prop in Hroute as [Hv Hkey].
    unfold inline_error.
    destruct (error c) as [| |info]; [discriminate Hkey| |].
    + left. split; [apply sound_raise; reflexivity | discriminate].
    + right. split; [exact Hv|]. eexists _, _. reflexivity.
  - left.
    destruct (get_or [] (choices c)) as [[|choice rest]|];
      try (split; [apply sound_ret | discriminate]).
    split; [apply sound_process_choice|].
    destruct (process_choice json_loads v st c choice) as [evs r] eqn:Hstep.
    simpl. intros ->. exact (process_choice_goes_on _ _ _ _ Hstep).
Qed.

(** The events of the loop, by the way it is left. *)
Lemma consume_sound (http_request : nat -> bool) (request_id : str)
    (client : registry) (openai_stream : list fetch) :
  forall (polls : nat) (st : state) (evs : list event) (e : loop_end),
    consume json_loads v http_request request_id polls client st
      openai_stream = (evs, e) ->
    match e with
    | Returned =>
        with_cancellation v = true
        /\ exists body kind text,
            evs = body ++ [Error kind text]
            /\ Forall (fun e => block_event json_loads e = true) body
    | Failed x =>
        Forall (fun e => block_event json_loads e = true) evs
        /\ (body_error x = true \/ In (Raises x) openai_stream)
    | _ => Forall (fun e => block_event json_loads e = true) evs
    end.
Proof.
  induction openai_stream as [|[l|x] rest IH]; intros polls st evs e; simpl.
  - intros H. injection H as <- <-. constructor.
  - destruct (with_cancellation v && http_request polls).
    { intros H. injection H as <- <-. constructor. }
    destruct (process_line_cases st l)
      as [[[Hevs Hres] Hgo]|(Hv & kind & text & Hline)].
    + destruct (process_line json_loads v st l) as [evs1 [[st1|st1|]|e1]];
        simpl in *.
      * destruct (consume json_loads v http_request request_id (S polls)
                    client st1 rest) as [evs2 e2] eqn:Hrest.
        apply IH in Hrest.
        intros H. injection H as <- <-.
        destruct e2 as [st2|st2 client2| |x2].
        -- apply Forall_app. auto.
        -- apply Forall_app. auto.
        -- destruct Hrest as (Hv & body & kind & text & -> & Hbody).
           split; [exact Hv|].
           exists (evs1 ++ body), kind, text.
           rewrite app_assoc. split; [reflexivity|].
           apply Forall_app. auto.
        -- destruct Hrest as [Hevs2 Hx].
           split; [apply Forall_app; auto|].
           destruct Hx as [Hx|Hx]; [left; exact Hx | right; right; exact Hx].
      * intros H. injection H as <- <-. exact Hevs.
      * congruence.
      * intros H. injection H as <- <-. split; [exact Hevs | left; exact Hres].
    + rewrite Hline. intros H. injection H as <- <-.
      split; [exact Hv|]. exists [], kind, text.
      split; [reflexivity | constructor].
  - intros H. injection H as <- <-.
    split; [constructor | right; left; reflexivity].
Qed.

End SoundFacts.

(** X11.  The events of every translation follow one grammar.  They open
    with message_start, the start of text block 0 and a ping.  Then come
    only starts of tool-use blocks, each with an id and a name that are not
    empty, text deltas, each not empty and addressed to block 0, and
    tool-input deltas, each carrying a text on which [json.loads] returns.
    A translation that completes ends with the stop of block 0, further
    block stops, one message_delta and one message_stop, in this order, and
    there is none unless the [config] object has the attribute
    [enable_token_estimation]; one that is aborted ends with exactly one
    error event and has none of these closing events; one that lets an
    exception through ends after the block events when the exception is an
    HTTPException of the source, and after the block stops, with neither
    message_delta nor message_stop, when it is the [AttributeError] of the
    missing attribute. *)
Theorem event_stream_grammar
    (json_loads : str -> loads_result) (enable_token_estimation : option bool)
    (v : variant) (http_request : nat -> bool) (client : registry)
    (request_id : str) (openai_stream : list fetch)
    (original_request : ClaudeMessagesRequest) :
  exists body,
    Forall (fun e => block_event json_loads e = true) body
    /\ match snd (fst (translate json_loads enable_token_estimation v
                         http_request client request_id openai_stream
                         original_request)) with
       | Completed =>
           exists flag stops stop_reason input_tokens output_tokens,
             enable_token_estimation = Some flag
             /\ fst (fst (translate json_loads enable_token_estimation v
                            http_request client request_id openai_stream
                            original_request))
                = [MessageStart (model original_request);
                   ContentBlockStart 0 TextBlock; Ping]
                  ++ body ++ ContentBlockStop 0 :: stops
                  ++ [MessageDelta stop_reason input_tokens output_tokens;
                      MessageStop]
             /\ Forall (fun e => is_stop e = true) stops
       | Aborted =>
           exists kind text,
             fst (fst (translate json_loads enable_token_estimation v
                         http_request client request_id openai_stream
                         original_request))
             = [MessageStart (model original_request);
                ContentBlockStart 0 TextBlock; Ping]
               ++ body ++ [Error kind text]
       | Propagated e =>
           ((exists status_code detail, e = HTTPException status_code detail)
            /\ fst (fst (translate json_loads enable_token_estimation v
                           http_request client request_id openai_stream
                           original_request))
               = [MessageStart (model original_request);
                  ContentBlockStart 0 TextBlock; Ping]
                 ++ body)
           \/ (enable_token_estimation = None /\ e = AttributeError
               /\ exists stops,
                   fst (fst (translate json_loads enable_token_estimation v
                               http_request client request_id openai_stream
                               original_request))
                   = [MessageStart (model original_request);
                      ContentBlockStart 0 TextBlock; Ping]
                     ++ body ++ ContentBlockStop 0 :: stops
                   /\ Forall (fun e => is_stop e = true) stops)
       end.
Proof.
  unfold translate.
  destruct (consume json_loads v http_request request_id 0 client
              initial_state openai_stream) as [evs e] eqn:Hloop.
  apply consume_sound in Hloop.
  assert (Hstops : forall d : tool_calls,
             Forall (fun e => is_stop e = true)
               (map ContentBlockStop (started_indices d))).
  { intros d. apply Forall_forall. intros x Hx.
    apply list_elem_of_In, in_map_iff in Hx as (i & <- & _). reflexivity. }
  assert (Hleft : forall (st : state) (client' : registry),
             Forall (fun e => block_event json_loads e = true) evs ->
             let '(evs', how) :=
               close enable_token_estimation original_request st in
             match how with
             | Completed =>
                 exists flag stops stop_reason input_tokens output_tokens,
                   enable_token_estimation = Some flag
                   /\ opening original_request ++ evs ++ evs'
                      = [MessageStart (model original_request);
                         ContentBlockStart 0 TextBlock; Ping]
                        ++ evs ++ ContentBlockStop 0 :: stops
                        ++ [MessageDelta stop_reason input_tokens
                              output_tokens;
                            MessageStop]
                   /\ Forall (fun e => is_stop e = true) stops
             | Aborted => False
             | Propagated e =>
                 enable_token_estimation = None /\ e = AttributeError
                 /\ exists stops,
                     opening original_request ++ evs ++ evs'
                     = [MessageStart (model original_request);
                        ContentBlockStart 0 TextBlock; Ping]
                       ++ evs ++ ContentBlockStop 0 :: stops
                     /\ Forall (fun e => is_stop e = true) stops
             end).
  { intros st client' Hevs. rewrite close_eq.
    destruct enable_token_estimation as [flag|].
    - unfold closing_events, block_stops.
      eexists flag, _, _, _, _. split; [reflexivity|].
      split; [reflexivity | apply Hstops].
    - split; [reflexivity|]. split; [reflexivity|].
      unfold block_stops. eexists. split; [reflexivity | apply Hstops]. }
  destruct e as [st|st client'| |x].
  - exists evs. split; [exact Hloop|].
    specialize (Hleft st client Hloop).
    destruct (close enable_token_estimation original_request st)
      as [evs' [| |e]]; simpl; [exact Hleft | contradiction | right; exact Hleft].
  - exists evs. split; [exact Hloop|].
    specialize (Hleft st client' Hloop).
    destruct (close enable_token_estimation original_request st)
      as [evs' [| |e]]; simpl; [exact Hleft | contradiction | right; exact Hleft].
  - destruct Hloop as (_ & body & kind & text & -> & Hbody).
    exists body. split; [exact Hbody|]. simpl.
    exists kind, text. reflexivity.
  - destruct Hloop as [Hevs _].
    exists evs. split; [exact Hevs|].
    unfold handle_exception.
    destruct (with_cancellation v), x as [status_code detail| | |message];
      simpl; try (eexists _, _; reflexivity).
    destruct (status_code =? 499); simpl.
    + eexists _, _. reflexivity.
    + left. rewrite app_nil_r. split; [eauto | reflexivity].
Qed.

(** X12.  An exception leaves a streaming translator in two cases only.
    The source of the stream itself raises an HTTPException whose status is
    not 499, in the translator with cancellation; every other exception
    raised in the loop becomes an error event.  Or the loop has been left by
    the end of the stream or by [break] and the [config] object has no
    attribute [enable_token_estimation]: the read after the loop raises
    [AttributeError], which no handler catches.  With the object that
    [src/core/config.py] builds this happens on every translation that
    leaves the loop that way: it ends after the stops of the blocks.  With
    the attribute in place, neither translator lets an exception through
    when it is fed by the stream of the client, which yields its failures as
    payloads and raises none. *)
Theorem exceptions_stay_inside :
  (forall (json_loads : str -> loads_result)
          (enable_token_estimation : option bool)
          (v : variant) (http_request : nat -> bool) (client : registry)
          (request_id : str) (openai_stream : list fetch)
          (original_request : ClaudeMessagesRequest) (e : exn),
      snd (fst (translate json_loads enable_token_estimation v http_request
                  client request_id openai_stream original_request))
      = Propagated e ->
      (v = WithCancellation
       /\ In (Raises e) openai_stream
       /\ exists status_code detail,
           e = HTTPException status_code detail /\ status_code <> 499)
      \/ (enable_token_estimation = None /\ e = AttributeError
          /\ exists body st,
              loop_left json_loads v http_request request_id client
                openai_stream body st))
  /\ (forall (json_loads : str -> loads_result) (v : variant)
             (http_request : nat -> bool) (client : registry)
             (request_id : str) (openai_stream : list fetch)
             (original_request : ClaudeMessagesRequest)
             (body : list event) (st : state),
         loop_left json_loads v http_request request_id client openai_stream
           body st ->
         fst (translate json_loads Config.enable_token_estimation v
                http_request client request_id openai_stream original_request)
         = (opening original_request ++ body ++ block_stops st,
            Propagated AttributeError))
  /\ (forall (json_loads : str -> loads_result) (flag : bool)
             (v : variant) (http_request : nat -> bool) (client : registry)
             (request_id : str) (original_request : ClaudeMessagesRequest)
             (active_requests : registry) (id : option str)
             (created : option str) (turns : list turn) (demand : nat)
             (e : exn),
         snd (fst (translate json_loads (Some flag) v
                     http_request client request_id
                     (map Yields
                        (fst (create_chat_completion_stream active_requests id
                                created turns demand)))
                     original_request))
         <> Propagated e).
Proof.
  assert (Hflow : forall (json_loads : str -> loads_result)
                    (enable_token_estimation : option bool)
                    (v : variant) (http_request : nat -> bool)
                    (client : registry) (request_id : str)
                    (openai_stream : list fetch)
                    (original_request : ClaudeMessagesRequest) (e : exn),
             snd (fst (translate json_loads enable_token_estimation v
                         http_request client request_id openai_stream
                         original_request))
             = Propagated e ->
             (v = WithCancellation
              /\ In (Raises e) openai_stream
              /\ exists status_code detail,
                  e = HTTPException status_code detail /\ status_code <> 499)
             \/ (enable_token_estimation = None /\ e = AttributeError
                 /\ exists body st,
                     loop_left json_loads v http_request request_id client
                       openai_stream body st)).
  { intros json_loads enable v http_request client request_id openai_stream
      original_request e.
    unfold translate, loop_left.
    destruct (consume json_loads v http_request request_id 0 client
                initial_state openai_stream) as [evs how] eqn:Hloop.
    apply consume_sound in Hloop.
    destruct how as [st|st client'| |x]; simpl; try discriminate.
    - rewrite close_eq. destruct enable as [flag|]; simpl; [discriminate|].
      intros H. injection H as <-. right. eauto 10.
    - rewrite close_eq. destruct enable as [flag|]; simpl; [discriminate|].
      intros H. injection H as <-. right. eauto 10.
    - destruct Hloop as [_ Hx].
      unfold handle_exception.
      destruct v, x as [status_code detail| | |message]; simpl;
        try discriminate.
      destruct (Z.eqb_spec status_code 499) as [->|Hne]; simpl;
        [discriminate|].
      intros H. injection H as <-. left.
      split; [reflexivity|]. split.
      + destruct Hx as [Hx|Hx]; [discriminate Hx | exact Hx].
      + exists status_code, detail. auto. }
  split; [exact Hflow|]. split.
  - intros json_loads v http_request client request_id openai_stream
      original_request body st Hleft.
    unfold translate.
    destruct Hleft as [Hloop|[client' Hloop]]; rewrite Hloop, close_eq;
      reflexivity.
  - intros json_loads flag v http_request client request_id original_request
      active_requests id created turns demand e Hrun.
    apply Hflow in Hrun as [(_ & Hin & _)|(Hnone & _)]; [|discriminate].
    apply in_map_iff in Hin as (l & Hl & _). discriminate Hl.
Qed.

Lemma exceptions_stay_inside_witness :
  fst (translate Json.loads Config.enable_token_estimation Basic
         (fun _ => false) ∅ []
         [Yields (Data (usage_chunk (5, 10)));
          Yields (Data (finish_chunk (Val (lit "stop"))))]
         example_request)
  = (opening example_request ++ []
       ++ block_stops
            (set_final_stop_reason STOP_END_TURN
               (set_total_output_tokens 10
                  (set_total_input_tokens 5 initial_state))),
     Propagated AttributeError).
Proof.
  destruct exceptions_stay_inside as (_ & Hmissing & _).
  apply Hmissing.
  right. exists ∅. vm_compute. reflexivity.
Defined.

(** ** The numbering of the blocks *)

Section NumberingFacts.

Variable json_loads : str -> loads_result.
Variable v : variant.

Lemma map_seq_shift (f g : nat -> Z) (shift : nat) (len : nat) :
  (forall j, f (shift + j)%nat = g j) ->
  forall start, map f (seq (shift + start) len) = map g (seq start len).
Proof.
  intros Hfg.
  induction len as [|len IH]; intros start; simpl; [reflexivity|].
  rewrite Hfg. f_equal.
  replace (S (shift + start)) with (shift + S start)%nat by lia.
  apply IH.
Qed.

Lemma block_run_app (counter : Z) (k k' : nat) :
  block_run counter k ++ block_run (counter + Z.of_nat k) k'
  = block_run counter (k + k').
Proof.
  unfold block_run.
  rewrite seq_app, map_app. f_equal.
  symmetry. rewrite Nat.add_0_l.
  replace k with (k + 0)%nat at 1 by lia.
  apply map_seq_shift. intros j. lia.
Qed.

Lemma consecutive_cons (k : nat) :
  consecutive_from 0 (0 :: block_run 0 k).
Proof.
  unfold consecutive_from, block_run.
  simpl length. rewrite length_map, length_seq.
  cbn [seq map]. f_equal.
  symmetry. apply (map_seq_shift _ _ 1 k). intros j. lia.
Qed.

Lemma handle_tool_call_delta_run (st : state) (tc_delta : tool_call_delta)
    (evs : list event) (r : result state) :
  handle_tool_call_delta json_loads v st tc_delta = (evs, r) ->
  exists k,
    start_indices evs = block_run (tool_block_counter st) k
    /\ match r with
       | Ok st' =>
           tool_block_counter st' = tool_block_counter st + Z.of_nat k
       | Raised _ => True
       end.
Proof.
  unfold handle_tool_call_delta.
  destruct (get_or empty_function (tc_function tc_delta)) as [function_data|].
  2:{ intros H. injection H as <- <-. exists 0%nat. auto. }
  match goal with
  | |- context [start_block ?c ?t] =>
      destruct (start_block_spec c t)
        as [Hsame|(_ & opened & Hopen & _)]
  end.
  - rewrite Hsame. cbn [bind].
    match goal with
    | |- context [append_arguments _ _ ?t ?f] =>
        destruct (append_arguments json_loads v t f)
          as [evs2 [appended|e]] eqn:Happend
    end; apply append_arguments_spec in Happend; cbn;
      intros H; injection H as <- <-; exists 0%nat.
    + destruct Happend as (_ & _ & _ & _ & Hnone & _).
      rewrite app_nil_r, Hnone. split; [reflexivity | simpl; lia].
    + subst evs2. auto.
  - rewrite Hopen. cbn [bind].
    destruct (append_arguments json_loads v opened function_data)
      as [evs2 [appended|e]] eqn:Happend;
      apply append_arguments_spec in Happend; cbn;
      intros H; injection H as <- <-; exists 1%nat.
    + destruct Happend as (_ & _ & _ & _ & Hnone & _).
      rewrite app_nil_r. simpl start_indices. rewrite Hnone.
      unfold block_run. simpl. split; [f_equal; lia | lia].
    + subst evs2. unfold block_run. simpl. split; [f_equal; lia | exact I].
Qed.

Lemma handle_tool_calls_run (deltas : list tool_call_delta) :
  forall (st : state) (evs : list event) (r : result state),
    handle_tool_calls json_loads v st deltas = (evs, r) ->
    exists k,
      start_indices evs = block_run (tool_block_counter st) k
      /\ match r with
         | Ok st' =>
             tool_block_counter st' = tool_block_counter st + Z.of_nat k
         | Raised _ => True
         end.
Proof.
  induction deltas as [|tc_delta deltas IH]; intros st evs r; simpl.
  - intros H. injection H as <- <-. exists 0%nat. split; [reflexivity | lia].
  - destruct (handle_tool_call_delta json_loads v st tc_delta)
      as [evs1 [st1|e1]] eqn:Hstep;
      apply handle_tool_call_delta_run in Hstep as (k1 & Hevs1 & Hst1); simpl.
    + destruct (handle_tool_calls json_loads v st1 deltas)
        as [evs2 r2] eqn:Hrest.
      apply IH in Hrest as (k2 & Hevs2 & Hst2).
      intros H. injection H as <- <-.
      exists (k1 + k2)%nat.
      rewrite start_indices_app, Hevs1, Hevs2, Hst1, block_run_app.
      split; [reflexivity|].
      destruct r2; [lia | exact I].
    + intros H. injection H as <- <-. exists k1. auto.
Qed.

Lemma process_line_run (st : state) (l : line) (evs : list event)
    (r : result control) :
  process_line json_loads v st l = (evs, r) ->
  exists k,
    start_indices evs = block_run (tool_block_counter st) k
    /\ match r with
       | Ok (Continue st') | Ok (Break st') =>
           tool_block_counter st' = tool_block_counter st + Z.of_nat k
       | _ => True
       end.
Proof.
  destruct l as [| | | |message|holds_error|c]; simpl;
    try (intros H; injection H as <- <-; exists 0%nat;
         split; [reflexivity | first [lia | exact I]]).
  { destruct (reject_value_raises v holds_error) as (e & -> & _).
    intros H; injection H as <- <-. exists 0%nat. auto. }
  unfold process_chunk.
  destruct (with_cancellation v && has_key (error c)).
  { unfold inline_error.
    destruct (error c); simpl; intros H; injection H as <- <-;
      exists 0%nat; auto. }
  destruct (get_or [] (choices c)) as [[|choice rest]|];
    try (intros H; injection H as <- <-; exists 0%nat;
         split; [reflexivity | lia]).
  unfold process_choice.
  destruct (extract_usage st c) as [evs0 [st0|e0]] eqn:Husage;
    apply extract_usage_spec in Husage as [-> Husage]; simpl.
  2:{ intros H. injection H as <- <-. exists 0%nat. auto. }
  destruct Husage as (Hcounter & _).
  destruct (get_or empty_delta (choice_delta choice)) as [d|].
  2:{ intros H. injection H as <- <-. exists 0%nat. auto. }
  destruct (text_delta_spec d) as (evs1 & -> & Hs1 & _).
  cbn [bind].
  assert (Htools : forall evs2 r2,
             tool_call_deltas json_loads v st0 d = (evs2, r2) ->
             exists k,
               start_indices evs2 = block_run (tool_block_counter st) k
               /\ match r2 with
                  | Ok st' =>
                      tool_block_counter st'
                      = tool_block_counter st + Z.of_nat k
                  | Raised _ => True
                  end).
  { intros evs2 r2. unfold tool_call_deltas. rewrite <- Hcounter.
    destruct (delta_tool_calls d) as [| |deltas].
    - intros H. injection H as <- <-. exists 0%nat. split; [reflexivity | lia].
    - destruct (with_cancellation v); intros H; injection H as <- <-;
        exists 0%nat; split; try reflexivity; try exact I; lia.
    - apply handle_tool_calls_run. }
  destruct (tool_call_deltas json_loads v st0 d) as [evs2 [st2|e2]] eqn:Hd;
    destruct (Htools _ _ eq_refl) as (k & Hevs2 & Hst2); cbn;
    intros H; injection H as <- <-; exists k;
    rewrite start_indices_app, Hs1, ?start_indices_app, Hevs2; simpl;
    rewrite ?app_nil_r; (split; [reflexivity|]); [|exact I].
  unfold finish.
  destruct (get (finish_reason choice)) as [[|ch reason]|]; simpl; exact Hst2.
Qed.

Lemma consume_run (http_request : nat -> bool) (request_id : str)
    (client : registry) (openai_stream : list fetch) :
  forall (polls : nat) (st : state) (evs : list event) (e : loop_end),
    consume json_loads v http_request request_id polls client st
      openai_stream = (evs, e) ->
    exists k, start_indices evs = block_run (tool_block_counter st) k.
Proof.
  induction openai_stream as [|[l|x] rest IH]; intros polls st evs e; simpl.
  - intros H. injection H as <- <-. exists 0%nat. reflexivity.
  - destruct (with_cancellation v && http_request polls).
    { intros H. injection H as <- <-. exists 0%nat. reflexivity. }
    destruct (process_line json_loads v st l) as [evs1 r1] eqn:Hline.
    apply process_line_run in Hline as (k1 & Hevs1 & Hst1).
    destruct r1 as [[st1|st1|]|e1];
      try (intros H; injection H as <- <-; exists k1; exact Hevs1).
    destruct (consume json_loads v http_request request_id (S polls) client
                st1 rest) as [evs2 e2] eqn:Hrest.
    apply IH in Hrest as (k2 & Hevs2).
    intros H. injection H as <- <-.
    exists (k1 + k2)%nat.
    rewrite start_indices_app, Hevs1, Hevs2, Hst1. apply block_run_app.
  - intros H. injection H as <- <-. exists 0%nat. reflexivity.
Qed.

End NumberingFacts.

(** X13.  In every translation, however it ends, the blocks are numbered
    in the order in which they are opened: the content_block_start events
    carry the indices 0, 1, 2, ... in this order, without a gap and without
    a repetition, whatever indices the backend gave its tool calls and in
    whatever order their ids and names arrived. *)
Theorem blocks_numbered_in_order
    (json_loads : str -> loads_result) (enable_token_estimation : option bool)
    (v : variant) (http_request : nat -> bool) (client : registry)
    (request_id : str) (openai_stream : list fetch)
    (original_request : ClaudeMessagesRequest) :
  consecutive_from 0
    (start_indices
       (fst (fst (translate json_loads enable_token_estimation v
                    http_request client request_id openai_stream
                    original_request)))).
Proof.
  unfold translate.
  destruct (consume json_loads v http_request request_id 0 client
              initial_state openai_stream) as [evs e] eqn:Hloop.
  apply consume_run in Hloop as (k & Hevs).
  change (tool_block_counter initial_state) with 0 in Hevs.
  assert (Hclosing : forall st,
             start_indices
               (fst (close enable_token_estimation original_request st))
             = []).
  { intros st. rewrite close_eq.
    destruct enable_token_estimation; unfold closing_events, block_stops;
      simpl; rewrite ?start_indices_app, start_indices_stops; reflexivity. }
  assert (Hraise : forall x, start_indices (fst (handle_exception v x)) = []).
  { intros x. unfold handle_exception.
    destruct (with_cancellation v), x as [status_code detail| | |message];
      try reflexivity.
    destruct (status_code =? 499); reflexivity. }
  destruct e as [st|st client'| |x]; simpl.
  - specialize (Hclosing st).
    destruct (close enable_token_estimation original_request st)
      as [evs' how]. simpl in *.
    rewrite start_indices_app, Hclosing, app_nil_r, Hevs.
    apply consecutive_cons.
  - specialize (Hclosing st).
    destruct (close enable_token_estimation original_request st)
      as [evs' how]. simpl in *.
    rewrite start_indices_app, Hclosing, app_nil_r, Hevs.
    apply consecutive_cons.
  - rewrite Hevs. apply consecutive_cons.
  - specialize (Hraise x).
    destruct (handle_exception v x) as [evs' how]. simpl in *.
    rewrite start_indices_app, Hraise, app_nil_r, Hevs.
    apply consecutive_cons.
Qed.

(** ** What the loop reads *)

Section ReadingFacts.

Variable json_loads : str -> loads_result.
Variable v : variant.

(** Once the loop is left, the rest of the stream plays no part. *)
Lemma consume_left (http_request : nat -> bool) (request_id : str)
    (client : registry) (post : list fetch) (openai_stream : list fetch) :
  forall (polls : nat) (st : state) (evs : list event) (e : loop_end),
    consume json_loads v http_request request_id polls client st
      openai_stream = (evs, e) ->
    (forall st', e <> Exhausted st') ->
    consume json_loads v http_request request_id polls client st
      (openai_stream ++ post) = (evs, e).
Proof.
  induction openai_stream as [|[l|x] rest IH]; intros polls st evs e; simpl.
  - intros H Hleft. injection H as <- <-. exfalso. exact (Hleft st eq_refl).
  - destruct (with_cancellation v && http_request polls); [auto|].
    destruct (process_line json_loads v st l) as [evs1 [[st1|st1|]|e1]];
      auto.
    destruct (consume json_loads v http_request request_id (S polls) client
                st1 rest) as [evs2 e2] eqn:Hrest.
    intros H Hleft. injection H as <- <-.
    rewrite (IH _ _ _ _ Hrest Hleft). reflexivity.
  - auto.
Qed.

(** A stream that ends with the end marker is never read to its end. *)
Lemma consume_done (http_request : nat -> bool) (request_id : str)
    (client : registry) (pre : list fetch) :
  forall (polls : nat) (st : state) (evs : list event) (e : loop_end),
    consume json_loads v http_request request_id polls client st
      (pre ++ [Yields Done]) = (evs, e) ->
    forall st', e <> Exhausted st'.
Proof.
  induction pre as [|[l|x] pre IH]; intros polls st evs e; simpl.
  - destruct (with_cancellation v && http_request polls);
      intros H; injection H as <- <-; discriminate.
  - destruct (with_cancellation v && http_request polls).
    { intros H. injection H as <- <-. discriminate. }
    destruct (process_line json_loads v st l) as [evs1 [[st1|st1|]|e1]];
      try (intros H; injection H as <- <-; discriminate).
    destruct (consume json_loads v http_request request_id (S polls) client
                st1 (pre ++ [Yields Done])) as [evs2 e2] eqn:Hrest.
    intros H. injection H as <- <-. exact (IH _ _ _ _ Hrest).
  - intros H. injection H as <- <-. discriminate.
Qed.

(** A line that is passed over leaves the state as it is and yields
    nothing. *)
Lemma process_skipped (st : state) (l : line) :
  skipped v l = true ->
  process_line json_loads v st l = ([], Ok (Continue st)).
Proof.
  destruct l as [| | | |message|holds_error|c]; simpl; try reflexivity;
    try discriminate.
  intros H. apply andb_prop in H as [Hroute Hchoices].
  unfold process_chunk.
  apply negb_true_iff in Hroute. rewrite Hroute.
  destruct (get_or [] (choices c)) as [[|choice rest]|];
    [reflexivity | discriminate | reflexivity].
Qed.

Lemma consume_kept (http_request : nat -> bool) (request_id : str)
    (client : registry) (openai_stream : list fetch) :
  (forall polls, with_cancellation v && http_request polls = false) ->
  forall (polls polls' : nat) (st : state),
    consume json_loads v http_request request_id polls client st
      (List.filter (kept v) openai_stream)
    = consume json_loads v http_request request_id polls' client st
        openai_stream.
Proof.
  intros Hconnected.
  induction openai_stream as [|[l|x] rest IH]; intros polls polls' st;
    [reflexivity| |reflexivity].
  cbn [List.filter kept].
  destruct (skipped v l) eqn:Hskip; cbn [negb].
  - cbn [consume]. rewrite Hconnected, (process_skipped _ _ Hskip).
    rewrite (IH polls (S polls')).
    destruct (consume json_loads v http_request request_id (S polls')
                client st rest). reflexivity.
  - cbn [consume]. rewrite !Hconnected.
    destruct (process_line json_loads v st l) as [evs1 [[st1|st1|]|e1]];
      try reflexivity.
    rewrite (IH (S polls) (S polls')). reflexivity.
Qed.

(** The running totals stay non-negative. *)
Lemma process_line_nonneg (st : state) (l : line) (evs : list event)
    (next : control) (st' : state) :
  totals_nonneg st ->
  process_line json_loads v st l = (evs, Ok next) ->
  next = Continue st' \/ next = Break st' ->
  totals_nonneg st'.
Proof.
  intros Hst.
  assert (Hsame : forall next, 
             Continue st = next -> next = Continue st' \/ next = Break st' ->
             totals_nonneg st').
  { intros n <- [H|H]; [injection H as <-; exact Hst | discriminate]. }
  destruct l as [| | | |message|holds_error|c]; simpl;
    try (intros H; injection H as _ H; revert H; apply Hsame);
    try (intros H; discriminate H);
    try (destruct (reject_value_raises v holds_error) as (e0 & -> & _);
         intros H; discriminate H).
  - intros H. injection H as _ <-. intros [H|H]; [discriminate|].
    injection H as <-. exact Hst.
  - destruct (choices c) as [| |[|choice rest]] eqn:Hchoices.
    1-3: unfold process_chunk;
      destruct (with_cancellation v && has_key (error c));
      [unfold inline_error; destruct (error c); simpl; intros H;
       try discriminate H; injection H as _ <-;
       intros [H|H]; discriminate H
      |rewrite Hchoices; simpl; intros H; injection H as _ H; revert H;
       apply Hsame].
    intros Hstep Hnext.
    pose proof (process_chunk_usage json_loads v st c choice rest evs next
                  st' Hchoices Hstep Hnext) as [Hin Hout].
    destruct Hst as [Hin0 Hout0].
    unfold totals_nonneg, overwrite in *.
    rewrite Hin, Hout.
    destruct (prompt_tokens (reported_usage c)) as [| |p],
             (completion_tokens (reported_usage c)) as [| |q];
      try destruct (Z.ltb_spec 0 p); try destruct (Z.ltb_spec 0 q); lia.
Qed.

Lemma consume_nonneg (http_request : nat -> bool) (request_id : str)
    (client : registry) (openai_stream : list fetch) :
  forall (polls : nat) (st : state) (evs : list event) (e : loop_end),
    totals_nonneg st ->
    consume json_loads v http_request request_id polls client st
      openai_stream = (evs, e) ->
    match e with
    | Exhausted st' | Broken st' _ => totals_nonneg st'
    | _ => True
    end.
Proof.
  induction openai_stream as [|[l|x] rest IH]; intros polls st evs e Hst;
    simpl.
  - intros H. injection H as <- <-. exact Hst.
  - destruct (with_cancellation v && http_request polls).
    { intros H. injection H as <- <-. exact Hst. }
    destruct (process_line json_loads v st l) as [evs1 [[st1|st1|]|e1]]
      eqn:Hline.
    + pose proof (process_line_nonneg _ _ _ _ st1 Hst Hline
                    (or_introl eq_refl)) as Hst1.
      destruct (consume json_loads v http_request request_id (S polls)
                  client st1 rest) as [evs2 e2] eqn:Hrest.
      intros H. injection H as <- <-.
      exact (IH _ _ _ _ Hst1 Hrest).
    + intros H. injection H as <- <-.
      exact (process_line_nonneg _ _ _ _ st1 Hst Hline (or_intror eq_refl)).
    + intros H. injection H as <- <-. exact I.
    + intros H. injection H as <- <-. exact I.
  - intros H. injection H as <- <-. exact I.
Qed.

End ReadingFacts.

(** X14.  Once the loop of a translator has been left -- by the end
    marker, a finish reason, an inline error, a disconnected client or an
    exception -- nothing that follows in the stream of the backend is read:
    the events, the way the translation ends and the registry are those of
    the stream cut off at that point.  In particular nothing that follows
    the end marker [DONE] plays any part. *)
Theorem nothing_read_after_leaving :
  (forall (json_loads : str -> loads_result) (enable_token_estimation : option bool)
          (v : variant) (http_request : nat -> bool) (client : registry)
          (request_id : str) (openai_stream post : list fetch)
          (original_request : ClaudeMessagesRequest)
          (evs : list event) (e : loop_end),
      consume json_loads v http_request request_id 0 client initial_state
        openai_stream = (evs, e) ->
      (forall st, e <> Exhausted st) ->
      translate json_loads enable_token_estimation v http_request client
        request_id (openai_stream ++ post) original_request
      = translate json_loads enable_token_estimation v http_request client
          request_id openai_stream original_request)
  /\ (forall (json_loads : str -> loads_result) (enable_token_estimation : option bool)
             (v : variant) (http_request : nat -> bool) (client : registry)
             (request_id : str) (pre post : list fetch)
             (original_request : ClaudeMessagesRequest),
         translate json_loads enable_token_estimation v http_request client
           request_id (pre ++ Yields Done :: post) original_request
         = translate json_loads enable_token_estimation v http_request
             client request_id (pre ++ [Yields Done]) original_request).
Proof.
  split.
  - intros json_loads enable v http_request client request_id openai_stream
      post original_request evs e Hloop Hleft.
    unfold translate.
    rewrite (consume_left json_loads v http_request request_id client post
               openai_stream 0 initial_state evs e Hloop Hleft), Hloop.
    reflexivity.
  - intros json_loads enable v http_request client request_id pre post
      original_request.
    destruct (consume json_loads v http_request request_id 0 client
                initial_state (pre ++ [Yields Done])) as [evs e] eqn:Hloop.
    pose proof (consume_done json_loads v http_request request_id client pre
                  0 initial_state evs e Hloop) as Hleft.
    unfold translate.
    replace (pre ++ Yields Done :: post)
      with ((pre ++ [Yields Done]) ++ post)
      by (rewrite <- app_assoc; reflexivity).
    rewrite (consume_left json_loads v http_request request_id client post
               (pre ++ [Yields Done]) 0 initial_state evs e Hloop Hleft), Hloop.
    reflexivity.
Qed.

Lemma nothing_read_after_leaving_witness :
  translate Json.loads Config.enable_token_estimation Basic (fun _ => false)
    ∅ []
    ([Yields (Data (finish_chunk (Val (lit "stop"))))]
       ++ [Yields (Data (usage_chunk (5, 10)))])
    example_request
  = translate Json.loads Config.enable_token_estimation Basic
      (fun _ => false) ∅ []
      [Yields (Data (finish_chunk (Val (lit "stop"))))] example_request.
Proof.
  destruct nothing_read_after_leaving as [Hleft _].
  apply (Hleft Json.loads Config.enable_token_estimation Basic
           (fun _ => false) ∅ []
           [Yields (Data (finish_chunk (Val (lit "stop"))))]
           [Yields (Data (usage_chunk (5, 10)))] example_request []
           (Broken (set_final_stop_reason STOP_END_TURN initial_state) ∅)).
  - reflexivity.
  - discriminate.
Defined.

(** X15.  Lines that a translator passes over -- blank lines, lines
    without the [data: ] prefix, payloads that do not decode, payloads
    without a choice (in the first translator also the error payloads of
    the client, which have none) -- leave no trace: as long as the client
    stays connected, the translation of a stream is the translation of the
    stream without these lines. *)
Theorem skipped_lines_leave_no_trace
    (json_loads : str -> loads_result) (enable_token_estimation : option bool)
    (v : variant) (http_request : nat -> bool) (client : registry)
    (request_id : str) (openai_stream : list fetch)
    (original_request : ClaudeMessagesRequest) :
  (v = WithCancellation -> forall polls, http_request polls = false) ->
  translate json_loads enable_token_estimation v http_request client
    request_id (List.filter (kept v) openai_stream) original_request
  = translate json_loads enable_token_estimation v http_request client
      request_id openai_stream original_request.
Proof.
  intros Hconnected.
  assert (Hquiet : forall polls, with_cancellation v && http_request polls = false).
  { intros polls. destruct v; [reflexivity|].
    simpl. apply Hconnected. reflexivity. }
  unfold translate.
  rewrite (consume_kept json_loads v http_request request_id client
             openai_stream Hquiet 0 0 initial_state).
  reflexivity.
Qed.

Lemma skipped_lines_leave_no_trace_witness :
  translate Json.loads Config.enable_token_estimation Basic (fun _ => false)
    ∅ []
    (List.filter (kept Basic)
       [Yields Blank;
        Yields (Data (error_chunk (lit "timeout_error")
                        (lit "Timeout waiting for streaming chunk")));
        Yields (Data (usage_only_chunk (5, 10)));
        Yields (Data (finish_chunk (Val (lit "length"))))])
    example_request
  = translate Json.loads Config.enable_token_estimation Basic
      (fun _ => false) ∅ []
      [Yields Blank;
       Yields (Data (error_chunk (lit "timeout_error")
                       (lit "Timeout waiting for streaming chunk")));
       Yields (Data (usage_only_chunk (5, 10)));
       Yields (Data (finish_chunk (Val (lit "length"))))]
      example_request.
Proof.
  apply skipped_lines_leave_no_trace. discriminate.
Defined.

(** X16.  The usage reported by a translation that completes is never
    negative in its input count; without estimation neither count is
    negative; and with estimation enabled the two counts are never both
    zero: either the backend reported a positive count or the estimate,
    which is at least 5 input tokens, stands in. *)
Theorem reported_usage_never_zero
    (json_loads : str -> loads_result) (enable_token_estimation : option bool)
    (v : variant) (http_request : nat -> bool) (client : registry)
    (request_id : str) (openai_stream : list fetch)
    (original_request : ClaudeMessagesRequest)
    (events : list event) (client' : registry) :
  translate json_loads enable_token_estimation v http_request client
    request_id openai_stream original_request = (events, Completed, client') ->
  exists before_end stop_reason input_tokens output_tokens,
    events = before_end
             ++ [MessageDelta stop_reason input_tokens output_tokens;
                 MessageStop]
    /\ 0 <= input_tokens
    /\ (enable_token_estimation = Some false -> 0 <= output_tokens)
    /\ (enable_token_estimation = Some true ->
        0 < input_tokens \/ 0 < output_tokens).
Proof.
  intros Hrun.
  apply translate_cases in Hrun
    as (body & st & flag & -> & -> & _ & Hloop).
  assert (Hinit : totals_nonneg initial_state) by (split; simpl; lia).
  assert (Htotals : totals_nonneg st).
  { destruct Hloop as [[Hloop _]|Hloop];
      exact (consume_nonneg json_loads v http_request request_id client
               openai_stream 0 initial_state body _ Hinit Hloop). }
  destruct Htotals as [Hin Hout].
  unfold closing_events.
  eexists (opening original_request ++ body ++ block_stops st), _, _, _.
  split.
  { rewrite <- !app_assoc. reflexivity. }
  pose proof (estimate_request_lower original_request) as Hlow.
  unfold final_usage, estimate_input_tokens.
  destruct flag; simpl.
  - destruct (Z.eqb_spec (total_input_tokens st) 0) as [Hi|Hi];
      destruct (Z.eqb_spec (total_output_tokens st) 0) as [Ho|Ho]; simpl;
      (split; [lia|]); (split; [discriminate|]); intros _; lia.
  - split; [lia|]. split; [intros _; lia | discriminate].
Qed.

Lemma reported_usage_never_zero_witness :
  exists before_end stop_reason input_tokens output_tokens,
    opening example_request
      ++ [ContentBlockStop 0; MessageDelta STOP_END_TURN 10 25; MessageStop]
    = before_end
      ++ [MessageDelta stop_reason input_tokens output_tokens; MessageStop]
    /\ 0 <= input_tokens
    /\ (Some true = Some false -> 0 <= output_tokens)
    /\ (Some true = Some true -> 0 < input_tokens \/ 0 < output_tokens).
Proof.
  apply (reported_usage_never_zero Json.loads (Some true) Basic
           (fun _ => false) ∅
           [] [Yields (Data (usage_only_chunk (0, 0)))] example_request _ ∅).
  vm_compute. reflexivity.
Defined.

(** X17.  When the backend call of a stream cannot be opened, the client
    yields one error payload of type connection_error.  The translator with
    cancellation answers it with the opening events and one error event of
    that type, and ends there.  The first translator passes the payload
    over, since it has no choice, and reports no error: with the attribute
    [enable_token_estimation] in place it ends the stream as an ordinary
    empty message (the stop of block 0, a message_delta with stop reason
    end_turn and the usage 0 and 0, or the fallback estimate when estimation
    is on, and message_stop); with the [config] object of
    [src/core/config.py] it sends the stop of block 0 and raises
    [AttributeError]. *)
Theorem failed_start_through_translators
    (json_loads : str -> loads_result) (enable_token_estimation : option bool)
    (active_requests : registry) (id : option str) (failure : str)
    (turns : list turn) (demand : nat)
    (original_request : ClaudeMessagesRequest) :
  demand <> O ->
  let openai_stream :=
    map Yields (fst (create_chat_completion_stream active_requests id
                       (Some failure) turns demand)) in
  (forall (http_request : nat -> bool) (client : registry) (request_id : str),
      http_request 0%nat = false ->
      convert_openai_streaming_to_claude_with_cancellation json_loads
        enable_token_estimation openai_stream original_request http_request
        client request_id
      = (opening original_request
           ++ [Error (Some (lit "connection_error"))
                 (Message (Some (lit "Failed to start streaming: " ++ failure)))],
         Aborted, client))
  /\ convert_openai_streaming_to_claude json_loads enable_token_estimation
       openai_stream original_request
     = match enable_token_estimation with
       | Some flag =>
           (opening original_request
              ++ [ContentBlockStop 0;
                  MessageDelta STOP_END_TURN
                    (if flag then estimate_input_tokens original_request
                     else 0)
                    (if flag then Z.min (max_tokens original_request / 4) 50
                     else 0);
                  MessageStop],
            Completed)
       | None =>
           (opening original_request ++ [ContentBlockStop 0],
            Propagated AttributeError)
       end.
Proof.
  intros Hdemand.
  unfold create_chat_completion_stream.
  destruct demand as [|demand]; [congruence|].
  cbn [fst map]. split.
  - intros http_request client request_id Hconnected.
    unfold convert_openai_streaming_to_claude_with_cancellation, translate.
    cbn [consume with_cancellation andb]. rewrite Hconnected.
    reflexivity.
  - unfold convert_openai_streaming_to_claude, translate.
    cbn [consume with_cancellation andb process_line].
    unfold process_chunk. cbn -[close opening].
    rewrite close_eq.
    destruct enable_token_estimation as [[|]|]; reflexivity.
Qed.

Lemma failed_start_through_translators_witness :
  convert_openai_streaming_to_claude Json.loads Config.enable_token_estimation
    (map Yields (fst (create_chat_completion_stream ∅ (Some (lit "req-1"))
                        (Some (lit "Connection refused")) [] 1)))
    example_request
  = (opening example_request ++ [ContentBlockStop 0],
     Propagated AttributeError).
Proof.
  refine (proj2 (failed_start_through_translators Json.loads
                   Config.enable_token_estimation ∅
                   (Some (lit "req-1")) (lit "Connection refused") [] 1
                   example_request _)).
  discriminate.
Defined.

(** ** The two translators side by side *)

Section AgreementFacts.

Variable json_loads : str -> loads_result.

Lemma bind_ext {A B : Type} (m : gen A) (k k' : A -> gen B) :
  (forall a, k a = k' a) -> bind m k = bind m k'.
Proof.
  intros Hk. destruct m as [evs [a|e]]; simpl; [rewrite Hk|]; reflexivity.
Qed.

Lemma append_arguments_agree (tool_call : tool_call_entry)
    (function_data : function_delta) :
  fn_arguments function_data <> Null ->
  append_arguments json_loads Basic tool_call function_data
  = append_arguments json_loads WithCancellation tool_call function_data.
Proof.
  intros Hargs. unfold append_arguments.
  destruct (fn_arguments function_data); [reflexivity | congruence | reflexivity].
Qed.

Lemma handle_tool_call_delta_agree (st : state) (tc_delta : tool_call_delta) :
  plain_tool_call tc_delta = true ->
  handle_tool_call_delta json_loads Basic st tc_delta
  = handle_tool_call_delta json_loads WithCancellation st tc_delta.
Proof.
  intros Hplain. unfold handle_tool_call_delta, plain_tool_call in *.
  destruct (tc_function tc_delta) as [| |function_data]; simpl;
    try reflexivity.
  assert (Hargs : fn_arguments function_data <> Null)
    by (destruct (fn_arguments function_data); congruence).
  apply bind_ext. intros [counter tool_call].
  rewrite (append_arguments_agree _ _ Hargs). reflexivity.
Qed.

Lemma handle_tool_calls_agree (deltas : list tool_call_delta) :
  forallb plain_tool_call deltas = true ->
  forall st : state,
    handle_tool_calls json_loads Basic st deltas
    = handle_tool_calls json_loads WithCancellation st deltas.
Proof.
  induction deltas as [|tc_delta deltas IH]; simpl; [reflexivity|].
  intros Hall st. apply andb_prop in Hall as [Hplain Hall].
  rewrite (handle_tool_call_delta_agree _ _ Hplain).
  apply bind_ext. intros st'. apply IH, Hall.
Qed.

Lemma process_line_agree (st : state) (l : line) :
  plain_fetch (Yields l) = true ->
  process_line json_loads Basic st l
  = process_line json_loads WithCancellation st l.
Proof.
  destruct l as [| | | |message|holds_error|c]; try reflexivity.
  { simpl. intros Hplain. apply bool_decide_eq_true in Hplain.
    subst holds_error. reflexivity. }
  simpl. unfold plain_chunk, process_chunk.
  intros Hplain. apply andb_prop in Hplain as [Hkey Hplain].
  apply negb_true_iff in Hkey. rewrite Hkey. simpl.
  destruct (get_or [] (choices c)) as [[|choice rest]|]; try reflexivity.
  unfold process_choice.
  apply bind_ext. intros st'.
  destruct (choice_delta choice) as [| |d]; simpl; try reflexivity.
  apply bind_ext. intros _.
  unfold plain_delta in Hplain. unfold tool_call_deltas.
  destruct (delta_tool_calls d) as [| |deltas];
    [reflexivity | discriminate |].
  rewrite (handle_tool_calls_agree _ Hplain). reflexivity.
Qed.

(** The loops agree, the registry of a [break] apart. *)
Lemma consume_agree (http_request http_request' : nat -> bool)
    (request_id request_id' : str) (client client' : registry)
    (openai_stream : list fetch) :
  forallb plain_fetch openai_stream = true ->
  (forall polls, http_request polls = false) ->
  forall (polls polls' : nat) (st : state),
    consume json_loads WithCancellation http_request request_id polls
      client st openai_stream
    = match consume json_loads Basic http_request' request_id' polls'
              client' st openai_stream with
      | (evs, Broken st' _) => (evs, Broken st' client)
      | other => other
      end.
Proof.
  intros Hplain Hconnected.
  induction openai_stream as [|[l|x] rest IH]; intros polls polls' st;
    [reflexivity| |reflexivity].
  cbn [forallb] in Hplain. apply andb_prop in Hplain as [Hl Hrest].
  cbn [consume with_cancellation andb]. rewrite Hconnected.
  rewrite <- (process_line_agree _ _ Hl).
  destruct (process_line json_loads Basic st l) as [evs1 [[st1|st1|]|e1]];
    try reflexivity.
  rewrite (IH Hrest (S polls) (S polls') st1).
  destruct (consume json_loads Basic http_request' request_id' (S polls')
              client' st1 rest) as [evs2 [st2|st2 c2| |x2]]; reflexivity.
Qed.

End AgreementFacts.

(** X18.  As long as the client stays connected, the two streaming
    translators do the same on every stream that gives them no occasion to
    differ: no payload with an [error] key, no null in the place of the list
    of tool calls or of the arguments of a tool call, and no HTTPException
    raised by the source.  The events and the way the translation ends are
    the same, and the registry of the client is left as it was. *)
Theorem translators_agree
    (json_loads : str -> loads_result) (enable_token_estimation : option bool)
    (openai_stream : list fetch) (original_request : ClaudeMessagesRequest)
    (http_request : nat -> bool) (openai_client : registry)
    (request_id : str) :
  forallb plain_fetch openai_stream = true ->
  (forall polls, http_request polls = false) ->
  convert_openai_streaming_to_claude_with_cancellation json_loads
    enable_token_estimation openai_stream original_request http_request
    openai_client request_id
  = (convert_openai_streaming_to_claude json_loads enable_token_estimation
       openai_stream original_request,
     openai_client).
Proof.
  intros Hplain Hconnected.
  unfold convert_openai_streaming_to_claude_with_cancellation,
    convert_openai_streaming_to_claude, translate.
  rewrite (consume_agree json_loads http_request (fun _ => false)
             request_id [] openai_client ∅ openai_stream Hplain Hconnected
             0 0 initial_state).
  destruct (consume json_loads Basic (fun _ => false) [] 0 ∅ initial_state
              openai_stream) as [evs [st|st broken| |x]] eqn:Hloop;
    try reflexivity;
    try (destruct (close enable_token_estimation original_request st);
         reflexivity).
  apply consume_sound in Hloop as [_ Hx].
  assert (Hsame : handle_exception WithCancellation x
                  = handle_exception Basic x).
  { destruct x as [status_code detail| | |message]; try reflexivity.
    destruct Hx as [Hx|Hx]; [discriminate Hx|].
    rewrite forallb_forall in Hplain.
    apply Hplain in Hx. discriminate Hx. }
  rewrite Hsame.
  destruct (handle_exception Basic x) as [evs' how]. reflexivity.
Qed.

Lemma translators_agree_witness :
  convert_openai_streaming_to_claude_with_cancellation Json.loads
    Config.enable_token_estimation tool_stream example_request
    (fun _ => false) {[ lit "req-1" := false ]} (lit "req-1")
  = (convert_openai_streaming_to_claude Json.loads
       Config.enable_token_estimation tool_stream example_request,
     {[ lit "req-1" := false ]}).
Proof.
  apply translators_agree; reflexivity.
Defined.

(** ** The translated result, block by block *)

Section ContentFacts.

Variable json_loads : str -> loads_result.

Lemma tool_use_block_function (tool_call : response_tool_call)
    (block : option content_block) :
  tool_use_block json_loads tool_call = Ok block ->
  match block with
  | Some b =>
      is_function_call tool_call = true
      /\ exists function_data arguments,
          get_or empty_function (rtc_function tool_call) = Some function_data
          /\ get_or (lit "{}") (fn_arguments function_data) = Some arguments
          /\ returns_or_rejects (json_loads arguments) = true
          /\ b = ToolUse (ident_of (rtc_id tool_call))
                   (get_or [] (fn_name function_data))
                   (if decodes (json_loads arguments) then Parsed arguments
                    else RawArguments (get_or [] (fn_arguments function_data)))
  | None => is_function_call tool_call = false
  end.
Proof.
  unfold tool_use_block, is_function_call.
  destruct (bool_decide (get (rtc_type tool_call) = Some (lit "function"))).
  - destruct (get_or empty_function (rtc_function tool_call))
      as [function_data|]; [|discriminate].
    destruct (get_or (lit "{}") (fn_arguments function_data)) as [arguments|]
      eqn:Hargs; [|discriminate].
    destruct (json_loads arguments) eqn:Hloads; [| |discriminate];
      intros H; injection H as <-;
      (split; [reflexivity|]); exists function_data, arguments;
      rewrite Hloads; auto.
  - intros H. injection H as <-. reflexivity.
Qed.

Lemma add_tool_blocks_spec (calls : list response_tool_call) :
  forall acc out : list content_block,
    add_tool_blocks json_loads acc calls = Ok out ->
    exists tool_blocks,
      out = acc ++ tool_blocks
      /\ Forall2 (fun tool_call block =>
                    tool_use_block json_loads tool_call = Ok (Some block))
           (List.filter is_function_call calls) tool_blocks.
Proof.
  induction calls as [|tool_call calls IH]; intros acc out; simpl.
  - intros H. injection H as <-. exists []. rewrite app_nil_r.
    split; [reflexivity | constructor].
  - destruct (tool_use_block json_loads tool_call) as [[block|]|e] eqn:Hb;
      [| |discriminate].
    + pose proof (tool_use_block_function _ _ Hb) as [Hf _].
      rewrite Hf. intros H.
      apply IH in H as (tool_blocks & -> & Hall).
      exists (block :: tool_blocks). rewrite <- app_assoc.
      split; [reflexivity | constructor; assumption].
    + pose proof (tool_use_block_function _ _ Hb) as Hf.
      simpl in Hf. rewrite Hf. apply IH.
Qed.

Lemma response_text_tools (calls : list response_tool_call)
    (tool_blocks : list content_block) :
  Forall2 (fun tool_call block =>
             tool_use_block json_loads tool_call = Ok (Some block))
    calls tool_blocks ->
  response_text tool_blocks = [].
Proof.
  induction 1 as [|tool_call block calls tool_blocks Hb _ IH];
    [reflexivity|].
  apply tool_use_block_function in Hb as (_ & f & a & _ & _ & _ & ->).
  exact IH.
Qed.

(** Tool calls of another type play no part. *)
Lemma add_tool_blocks_filter (calls : list response_tool_call) :
  forall acc : list content_block,
    add_tool_blocks json_loads acc calls
    = add_tool_blocks json_loads acc (List.filter is_function_call calls).
Proof.
  induction calls as [|tool_call calls IH]; intros acc; [reflexivity|].
  cbn [List.filter].
  destruct (is_function_call tool_call) eqn:Hf.
  - cbn [add_tool_blocks].
    destruct (tool_use_block json_loads tool_call) as [[block|]|e];
      [apply IH | apply IH | reflexivity].
  - cbn [add_tool_blocks].
    unfold tool_use_block. unfold is_function_call in Hf. rewrite Hf.
    apply IH.
Qed.

(** Function calls on which [json.loads] returns or raises
    [JSONDecodeError] all give a block. *)
Lemma add_tool_blocks_returns (calls : list response_tool_call) :
  forallb (well_formed_tool_call json_loads) calls = true ->
  forall acc : list content_block,
  exists out, add_tool_blocks json_loads acc calls = Ok out.
Proof.
  induction calls as [|tool_call calls IH]; simpl; intros Hall acc.
  - eauto.
  - apply andb_prop in Hall as [Hcall Hall].
    destruct (tool_use_block_total json_loads tool_call Hcall)
      as [[block|] ->]; auto.
Qed.

(** The first function call on whose arguments [json.loads] raises
    something else ends the translation with that exception. *)
Lemma add_tool_blocks_raises (pre post : list response_tool_call)
    (tool_call : response_tool_call) (function_data : function_delta)
    (arguments message : str) :
  forallb (well_formed_tool_call json_loads) pre = true ->
  is_function_call tool_call = true ->
  get_or empty_function (rtc_function tool_call) = Some function_data ->
  get_or (lit "{}") (fn_arguments function_data) = Some arguments ->
  json_loads arguments = LoadsError message ->
  forall acc : list content_block,
    add_tool_blocks json_loads acc (pre ++ tool_call :: post)
    = Raised (OtherException message).
Proof.
  intros Hpre Hf Hfunction Harguments Hloads.
  induction pre as [|p pre IH]; intros acc; cbn [app add_tool_blocks].
  - unfold tool_use_block. unfold is_function_call in Hf.
    rewrite Hf, Hfunction, Harguments, Hloads. reflexivity.
  - cbn [forallb] in Hpre. apply andb_prop in Hpre as [Hp Hpre].
    destruct (tool_use_block_total json_loads p Hp) as [[block|] ->];
      apply IH; exact Hpre.
Qed.

End ContentFacts.

(** X19.  The content blocks that the non-streaming translator builds
    from a message are the text block, when the message has a text that is
    not empty, followed by one tool-use block for every tool call of type
    "function", in the order of the calls; tool calls of another type are
    dropped.  The block of a call takes over the id of the call (a fresh one
    when the call has none) and the name of its function; its input is the
    decoded arguments, or, when [json.loads] raises [JSONDecodeError] on
    them, the arguments as they are under the key raw_arguments.  So
    arguments that are not valid JSON do not make the translation fail: the
    blocks are built whenever no function call has null for its function or
    its arguments and [json.loads] raises nothing but [JSONDecodeError].
    Another exception of [json.loads] (a numeral of more than 4300 digits,
    nesting beyond the recursion limit) does end the translation. *)
Theorem content_blocks_in_order :
  (forall (json_loads : str -> loads_result) (message : response_message)
          (blocks : list content_block),
      build_content_blocks json_loads message = Ok blocks ->
      exists tool_blocks,
        blocks = text_part message ++ tool_blocks
        /\ Forall2
             (fun tool_call block =>
                exists function_data arguments,
                  get_or empty_function (rtc_function tool_call)
                  = Some function_data
                  /\ get_or (lit "{}") (fn_arguments function_data)
                     = Some arguments
                  /\ block
                     = ToolUse (ident_of (rtc_id tool_call))
                         (get_or [] (fn_name function_data))
                         (if decodes (json_loads arguments)
                          then Parsed arguments
                          else RawArguments
                                 (get_or [] (fn_arguments function_data))))
             (List.filter is_function_call (calls_of message)) tool_blocks)
  /\ (forall (json_loads : str -> loads_result) (message : response_message),
         forallb (well_formed_tool_call json_loads)
           (List.filter is_function_call (calls_of message)) = true ->
         exists blocks, build_content_blocks json_loads message = Ok blocks)
  /\ (forall (json_loads : str -> loads_result) (message : response_message)
             (pre post : list response_tool_call)
             (tool_call : response_tool_call) (function_data : function_delta)
             (arguments text : str),
         List.filter is_function_call (calls_of message)
         = pre ++ tool_call :: post ->
         forallb (well_formed_tool_call json_loads) pre = true ->
         get_or empty_function (rtc_function tool_call) = Some function_data ->
         get_or (lit "{}") (fn_arguments function_data) = Some arguments ->
         json_loads arguments = LoadsError text ->
         build_content_blocks json_loads message
         = Raised (OtherException text)).
Proof.
  split; [|split].
  - intros json_loads message blocks.
    unfold build_content_blocks. intros Hbuild.
    apply add_tool_blocks_spec in Hbuild as (tool_blocks & -> & Hall).
    exists tool_blocks. split; [reflexivity|].
    unfold calls_of.
    induction Hall as [|tool_call block calls tool_blocks Hb _ IH];
      constructor; [|exact IH].
    apply tool_use_block_function in Hb
      as (_ & function_data & arguments & Hf & Ha & _ & ->).
    exists function_data, arguments. auto.
  - intros json_loads message Hall.
    unfold build_content_blocks. fold (calls_of message).
    rewrite add_tool_blocks_filter.
    apply add_tool_blocks_returns. exact Hall.
  - intros json_loads message pre post tool_call function_data arguments text
      Hcalls Hpre Hfunction Harguments Hloads.
    unfold build_content_blocks. fold (calls_of message).
    rewrite add_tool_blocks_filter, Hcalls.
    apply (add_tool_blocks_raises json_loads pre post tool_call function_data
             arguments text Hpre); try assumption.
    assert (Hin : In tool_call
                    (List.filter is_function_call (calls_of message))).
    { rewrite Hcalls. apply in_or_app. right. left. reflexivity. }
    apply filter_In in Hin as [_ Hf]. exact Hf.
Qed.

Lemma content_blocks_in_order_witness :
  exists blocks,
    build_content_blocks Json.loads
      {| message_content := Val (lit "On it.");
         message_tool_calls :=
           Val [{| rtc_type := Val (lit "retrieval"); rtc_id := Val (lit "r");
                   rtc_function := Null |};
                {| rtc_type := Val (lit "function");
                   rtc_id := Val (lit "call_1");
                   rtc_function :=
                     Val {| fn_name := Val (lit "f");
                            fn_arguments := Val (lit "{oops") |} |}] |}
    = Ok blocks
    /\ blocks
       = [Text (lit "On it.");
          ToolUse (Given (Some (lit "call_1"))) (Some (lit "f"))
            (RawArguments (Some (lit "{oops")))].
Proof.
  destruct content_blocks_in_order as (_ & Hreturns & _).
  destruct (Hreturns Json.loads
              {| message_content := Val (lit "On it.");
                 message_tool_calls :=
                   Val [{| rtc_type := Val (lit "retrieval");
                           rtc_id := Val (lit "r");
                           rtc_function := Null |};
                        {| rtc_type := Val (lit "function");
                           rtc_id := Val (lit "call_1");
                           rtc_function :=
                             Val {| fn_name := Val (lit "f");
                                    fn_arguments := Val (lit "{oops") |} |}] |}
              eq_refl)
    as [blocks Hblocks].
  exists blocks. split; [exact Hblocks|].
  vm_compute in Hblocks. injection Hblocks as <-. reflexivity.
Defined.

(** ** The usage of a translated result *)

Section ResponseUsageFacts.

Variable json_loads : str -> loads_result.

(** What the translator has at hand when it returns. *)
Lemma response_parts (enable_token_estimation : option bool) (r : openai_response)
    (original_request : ClaudeMessagesRequest) (out : claude_response) :
  convert_openai_to_claude_response json_loads enable_token_estimation r
    original_request = Ok out ->
  exists choice rest message blocks usage_data flag,
    get_or [] (response_choices r) = Some (choice :: rest)
    /\ get_or empty_message (choice_message choice) = Some message
    /\ build_content_blocks json_loads message = Ok blocks
    /\ get_or empty_usage (response_usage r) = Some usage_data
    /\ enable_token_estimation = Some flag
    /\ (flag && should_use_estimation usage_data = true ->
        usage_input_tokens out = estimate_input_tokens original_request
        /\ usage_output_tokens out
           = estimate_output_tokens
               (response_text match blocks with
                              | [] => [Text []]
                              | _ :: _ => blocks
                              end))
    /\ (flag && should_use_estimation usage_data = false ->
        Some (usage_input_tokens out) = get_or 0 (prompt_tokens usage_data)
        /\ Some (usage_output_tokens out)
           = get_or 0 (completion_tokens usage_data)).
Proof.
  unfold convert_openai_to_claude_response.
  destruct (get_or [] (response_choices r)) as [[|choice rest]|]
    eqn:Hchoices; try discriminate.
  destruct (get_or empty_message (choice_message choice)) as [message|]
    eqn:Hmessage; [|discriminate].
  destruct (build_content_blocks json_loads message) as [blocks|e]
    eqn:Hblocks; [|discriminate].
  destruct (get_or empty_usage (response_usage r)) as [usage_data|]
    eqn:Husage; [|discriminate].
  destruct enable_token_estimation as [flag|]; [|discriminate].
  intros Hout. exists choice, rest, message, blocks, usage_data, flag.
  split; [reflexivity|]. split; [exact Hmessage|]. split; [exact Hblocks|].
  split; [reflexivity|]. split; [reflexivity|].
  destruct (flag && should_use_estimation usage_data).
  - injection Hout as <-. split; [auto | discriminate].
  - destruct (get_or 0 (prompt_tokens usage_data)),
             (get_or 0 (completion_tokens usage_data)); try discriminate.
    injection Hout as <-. split; [discriminate | auto].
Qed.

End ResponseUsageFacts.

(** X20.  The usage of a result of the non-streaming translator, which
    returns one only when the [config] object has the attribute
    [enable_token_estimation].  With estimation enabled and a usage object
    that [should_use_estimation] takes for missing, the input count is the
    estimate of the request, at least 5, and the output count is the
    estimate of the text of the message alone: tool calls add nothing, so a
    result that consists of tool calls only is given 0 output tokens.  In
    every other case the two counts are prompt_tokens and completion_tokens
    of the usage object, 0 for a missing key. *)
Theorem usage_of_translated_result
    (json_loads : str -> loads_result) (enable_token_estimation : option bool)
    (r : openai_response) (original_request : ClaudeMessagesRequest)
    (out : claude_response) :
  convert_openai_to_claude_response json_loads enable_token_estimation r
    original_request = Ok out ->
  exists choice rest message usage_data flag,
    get_or [] (response_choices r) = Some (choice :: rest)
    /\ get_or empty_message (choice_message choice) = Some message
    /\ get_or empty_usage (response_usage r) = Some usage_data
    /\ enable_token_estimation = Some flag
    /\ (flag && should_use_estimation usage_data = true ->
        usage_input_tokens out = estimate_input_tokens original_request
        /\ 5 <= usage_input_tokens out
        /\ usage_output_tokens out = estimate_output_tokens (text_of message)
        /\ (text_part message = [] -> usage_output_tokens out = 0))
    /\ (flag && should_use_estimation usage_data = false ->
        Some (usage_input_tokens out) = get_or 0 (prompt_tokens usage_data)
        /\ Some (usage_output_tokens out)
           = get_or 0 (completion_tokens usage_data)).
Proof.
  intros Hout.
  apply response_parts in Hout
    as (choice & rest & message & blocks & usage_data & flag & Hchoices
        & Hmessage & Hblocks & Husage & Hflag & Hest & Hraw).
  exists choice, rest, message, usage_data, flag.
  repeat (split; [assumption|]).
  split; [|exact Hraw].
  intros Hon. destruct (Hest Hon) as [Hin Hout].
  apply add_tool_blocks_spec in Hblocks as (tool_blocks & -> & Hall).
  apply response_text_tools in Hall.
  assert (Htext : response_text
                    match (match get (message_content message) with
                           | Some (c :: text) => [Text (c :: text)]
                           | _ => []
                           end) ++ tool_blocks with
                    | [] => [Text []]
                    | _ :: _ =>
                        (match get (message_content message) with
                         | Some (c :: text) => [Text (c :: text)]
                         | _ => []
                         end) ++ tool_blocks
                    end
                  = text_of message).
  { unfold text_of.
    destruct (get (message_content message)) as [[|c text]|]; simpl.
    - destruct tool_blocks; [reflexivity | exact Hall].
    - rewrite Hall, app_nil_r. reflexivity.
    - destruct tool_blocks; [reflexivity | exact Hall]. }
  rewrite Htext in Hout.
  split; [exact Hin|]. split.
  { rewrite Hin. pose proof (estimate_request_lower original_request).
    unfold estimate_input_tokens. lia. }
  split; [exact Hout|].
  intros Hnone. rewrite Hout.
  unfold text_part, text_of in *.
  destruct (get (message_content message)) as [[|c text]|];
    [reflexivity | discriminate | reflexivity].
Qed.

Lemma usage_of_translated_result_witness :
  exists choice rest message usage_data,
    get_or [] (response_choices empty_response) = Some (choice :: rest)
    /\ get_or empty_message (choice_message choice) = Some message
    /\ get_or empty_usage (response_usage empty_response) = Some usage_data
    /\ true && should_use_estimation usage_data = false.
Proof.
  destruct (usage_of_translated_result Json.loads (Some true) empty_response
              example_request
              {| claude_id := Given (Some (lit "chatcmpl-1"));
                 claude_model := lit "claude-3-haiku";
                 claude_content := [Text []];
                 claude_stop_reason := STOP_MAX_TOKENS;
                 usage_input_tokens := 7;
                 usage_output_tokens := 0 |})
    as (choice & rest & message & usage_data & flag & Hchoices & Hmessage
        & Husage & _ & _ & _).
  - vm_compute. reflexivity.
  - exists choice, rest, message, usage_data.
    repeat (split; [assumption|]).
    vm_compute in Husage. injection Husage as <-. reflexivity.
Defined.

(** X21.  [should_use_estimation] also reads the counts under the key
    names input_tokens and output_tokens, which the non-streaming translator
    itself never reads.  So for a usage object that reports its counts under
    these names only, and not both as zero, the result carries 0 input
    tokens and 0 output tokens, with estimation enabled as without it: the
    counts of the backend are not taken over and no estimate is made. *)
Theorem usage_under_other_key_names
    (json_loads : str -> loads_result) (enable_token_estimation : option bool)
    (r : openai_response) (original_request : ClaudeMessagesRequest)
    (out : claude_response) (usage_data : usage) :
  response_usage r = Val usage_data ->
  prompt_tokens usage_data = Absent ->
  completion_tokens usage_data = Absent ->
  get_or 0 (input_tokens usage_data) <> Some 0
  \/ get_or 0 (output_tokens usage_data) <> Some 0 ->
  convert_openai_to_claude_response json_loads enable_token_estimation r
    original_request = Ok out ->
  should_use_estimation usage_data = false
  /\ usage_input_tokens out = 0
  /\ usage_output_tokens out = 0.
Proof.
  intros Husage Hprompt Hcompletion Hsome Hrun.
  assert (Hoff : should_use_estimation usage_data = false).
  { unfold should_use_estimation. rewrite Hprompt, Hcompletion.
    apply andb_false_iff.
    destruct Hsome as [Hne|Hne]; [left | right];
      apply bool_decide_eq_false; exact Hne. }
  split; [exact Hoff|].
  apply response_parts in Hrun
    as (choice & rest & message & blocks & u & flag & _ & _ & _ & Hu & _ & _
        & Hraw).
  rewrite Husage in Hu. injection Hu as <-.
  rewrite Hoff, andb_false_r in Hraw.
  destruct (Hraw eq_refl) as [Hi Ho].
  rewrite Hprompt in Hi. rewrite Hcompletion in Ho.
  injection Hi as ->. injection Ho as ->. auto.
Qed.

Lemma usage_under_other_key_names_witness :
  should_use_estimation
    {| prompt_tokens := Absent; completion_tokens := Absent;
       input_tokens := Val 7; output_tokens := Val 3 |} = false
  /\ usage_input_tokens
       {| claude_id := Given (Some (lit "chatcmpl-1"));
          claude_model := lit "claude-3-haiku";
          claude_content := [Text (lit "Hi")];
          claude_stop_reason := STOP_END_TURN;
          usage_input_tokens := 0;
          usage_output_tokens := 0 |} = 0
  /\ usage_output_tokens
       {| claude_id := Given (Some (lit "chatcmpl-1"));
          claude_model := lit "claude-3-haiku";
          claude_content := [Text (lit "Hi")];
          claude_stop_reason := STOP_END_TURN;
          usage_input_tokens := 0;
          usage_output_tokens := 0 |} = 0.
Proof.
  apply (usage_under_other_key_names Json.loads (Some true)
           {| response_id := Val (lit "chatcmpl-1");
              response_choices :=
                Val [{| choice_message :=
                          Val {| message_content := Val (lit "Hi");
                                 message_tool_calls := Absent |};
                        choice_finish_reason := Val (lit "stop") |}];
              response_usage :=
                Val {| prompt_tokens := Absent; completion_tokens := Absent;
                       input_tokens := Val 7; output_tokens := Val 3 |} |}
           example_request).
  - reflexivity.
  - reflexivity.
  - reflexivity.
  - left. discriminate.
  - vm_compute. reflexivity.
Defined.

(** ** Where the stop reason comes from *)

Section StopReasonFacts.

Variable json_loads : str -> loads_result.
Variable v : variant.

(** As long as the loop goes on, the stop reason is the one it started
    with. *)
Lemma consume_exhausted_stop_reason (http_request : nat -> bool)
    (request_id : str) (client : registry) (openai_stream : list fetch) :
  forall (seen : list event) (polls : nat) (st st' : state)
         (evs : list event),
    invariant st seen ->
    consume json_loads v http_request request_id polls client st
      openai_stream = (evs, Exhausted st') ->
    final_stop_reason st' = final_stop_reason st.
Proof.
  induction openai_stream as [|[l|x] rest IH];
    intros seen polls st st' evs Hinv; simpl.
  - intros H. injection H as _ <-. reflexivity.
  - destruct (with_cancellation v && http_request polls); [discriminate|].
    destruct (process_line json_loads v st l) as [evs1 r1] eqn:Hline.
    pose proof (process_line_spec json_loads v seen st l evs1 r1 Hinv Hline)
      as Hspec.
    destruct r1 as [[st1|st1|]|e1]; try discriminate.
    destruct Hspec as [Hinv1 Hsame].
    destruct (consume json_loads v http_request request_id (S polls)
                client st1 rest) as [evs2 e2] eqn:Hrest.
    intros H. injection H as _ ->.
    rewrite (IH _ _ _ _ _ Hinv1 Hrest). exact Hsame.
  - discriminate.
Qed.

(** A loop left by [break] was left at one line of the stream, the lines
    before it having been read: at the check of the connection, or by the
    body of the loop. *)
Lemma consume_broken (http_request : nat -> bool) (request_id : str)
    (client : registry) (openai_stream : list fetch) :
  forall (polls : nat) (st st' : state) (evs : list event)
         (client' : registry),
    consume json_loads v http_request request_id polls client st
      openai_stream = (evs, Broken st' client') ->
    exists pre l post body0 st0,
      openai_stream = pre ++ Yields l :: post
      /\ consume json_loads v http_request request_id polls client st pre
         = (body0, Exhausted st0)
      /\ ((with_cancellation v && http_request (polls + length pre)%nat = true
           /\ st' = st0 /\ evs = body0
           /\ client' = fst (cancel_request client request_id))
          \/ (with_cancellation v && http_request (polls + length pre)%nat
              = false
              /\ client' = client
              /\ exists evs1,
                  process_line json_loads v st0 l = (evs1, Ok (Break st'))
                  /\ evs = body0 ++ evs1)).
Proof.
  induction openai_stream as [|[l|x] rest IH];
    intros polls st st' evs client'; simpl; try discriminate.
  destruct (with_cancellation v && http_request polls) eqn:Hgone.
  - intros H. injection H as <- <- <-.
    exists [], l, rest, [], st.
    split; [reflexivity|]. split; [reflexivity|].
    left. rewrite Nat.add_0_r. auto.
  - destruct (process_line json_loads v st l) as [evs1 r1] eqn:Hline.
    destruct r1 as [[st1|st1|]|e1]; try discriminate.
    + destruct (consume json_loads v http_request request_id (S polls)
                  client st1 rest) as [evs2 e2] eqn:Hrest.
      intros H. injection H as <- ->.
      destruct (IH _ _ _ _ _ Hrest)
        as (pre & l' & post & body0 & st0 & -> & Hpre & Hcases).
      exists (Yields l :: pre), l', post, (evs1 ++ body0), st0.
      split; [reflexivity|].
      split; [simpl; rewrite Hgone, Hline, Hpre; reflexivity|].
      simpl length.
      replace (polls + S (length pre))%nat with (S polls + length pre)%nat
        by lia.
      destruct Hcases as [(Hc & -> & -> & ->)|(Hc & -> & evs3 & Hl & ->)].
      * left. auto.
      * right. split; [exact Hc|]. split; [reflexivity|].
        exists evs3. split; [exact Hl | apply app_assoc].
    + intros H. injection H as <- <- <-.
      exists [], l, rest, [], st.
      split; [reflexivity|]. split; [reflexivity|].
      right. rewrite Nat.add_0_r. split; [exact Hgone|].
      split; [reflexivity|]. exists evs1. auto.
Qed.

(** The lines at which the body of the loop breaks are the end marker,
    which leaves the state as it is, and the payloads whose first choice
    has a finish reason. *)
Lemma break_line (seen : list event) (st st' : state) (l : line)
    (evs : list event) :
  invariant st seen ->
  process_line json_loads v st l = (evs, Ok (Break st')) ->
  match l with
  | Done => st' = st /\ evs = []
  | Data c =>
      exists choice rest reason,
        choices c = Val (choice :: rest)
        /\ finish_reason choice = Val reason /\ reason <> []
        /\ final_stop_reason st' = stop_reason_of_finish reason
  | _ => False
  end.
Proof.
  intros Hinv Hline.
  destruct l as [| | | |message|holds_error|c]; simpl in Hline;
    try (injection Hline as _ Hline; discriminate Hline).
  - injection Hline as <- <-. auto.
  - destruct (reject_value_raises v holds_error) as (e & He & _).
    rewrite He in Hline. discriminate Hline.
  - apply (process_chunk_spec json_loads v seen) in Hline; [|exact Hinv].
    destruct Hline as (_ & choice & others & reason & Hc & Hr & Hne & Hf & _).
    exists choice, others, reason. auto.
Qed.

End StopReasonFacts.

(** X22.  Where the stop reason that a translation reports comes from.
    A stream read to its end leaves the stop reason end_turn.  A loop left
    by [break] was left at one line of the stream, after the lines before it
    had been read without leaving: when it was left because the client had
    gone away, or at the end marker, the stop reason is end_turn; when it
    was left at a payload, the first choice of that payload has a finish
    reason that is not empty, and the stop reason is the entry of the table
    for it.  The other way round, a payload whose first choice has such a
    finish reason, processed without an exception, leaves the loop with the
    entry of the table.  The stop reason of the state in which the loop was
    left is the one of the message_delta, which is sent when the [config]
    object has the attribute [enable_token_estimation]; without it the
    translation raises [AttributeError] after the stops of the blocks. *)
Theorem stop_reason_provenance
    (json_loads : str -> loads_result) (v : variant)
    (http_request : nat -> bool) (client : registry) (request_id : str) :
  (forall (openai_stream : list fetch) (body : list event) (st : state),
      consume json_loads v http_request request_id 0 client initial_state
        openai_stream = (body, Exhausted st) ->
      final_stop_reason st = STOP_END_TURN)
  /\ (forall (openai_stream : list fetch) (body : list event) (st : state)
             (client' : registry),
         consume json_loads v http_request request_id 0 client initial_state
           openai_stream = (body, Broken st client') ->
         exists pre l post body0 st0,
           openai_stream = pre ++ Yields l :: post
           /\ consume json_loads v http_request request_id 0 client
                initial_state pre = (body0, Exhausted st0)
           /\ ((with_cancellation v && http_request (length pre) = true
                /\ st = st0 /\ body = body0
                /\ final_stop_reason st = STOP_END_TURN)
               \/ (with_cancellation v && http_request (length pre) = false
                   /\ (exists evs,
                          process_line json_loads v st0 l
                          = (evs, Ok (Break st))
                          /\ body = body0 ++ evs)
                   /\ match l with
                      | Done => final_stop_reason st = STOP_END_TURN
                      | Data c =>
                          exists choice rest reason,
                            choices c = Val (choice :: rest)
                            /\ finish_reason choice = Val reason
                            /\ reason <> []
                            /\ final_stop_reason st
                               = stop_reason_of_finish reason
                      | _ => False
                      end)))
  /\ (forall (st : state) (c : chunk) (choice : choice)
             (rest : list Wire.choice) (reason : str) (evs : list event)
             (next : control),
         with_cancellation v && has_key (error c) = false ->
         choices c = Val (choice :: rest) ->
         finish_reason choice = Val reason -> reason <> [] ->
         process_chunk json_loads v st c = (evs, Ok next) ->
         exists st',
           next = Break st'
           /\ final_stop_reason st' = stop_reason_of_finish reason)
  /\ (forall (enable_token_estimation : option bool)
             (openai_stream : list fetch)
             (original_request : ClaudeMessagesRequest)
             (body : list event) (st : state),
         loop_left json_loads v http_request request_id client openai_stream
           body st ->
         fst (translate json_loads enable_token_estimation v http_request
                client request_id openai_stream original_request)
         = match enable_token_estimation with
           | Some flag =>
               (opening original_request ++ body ++ block_stops st
                  ++ [MessageDelta (final_stop_reason st)
                        (fst (final_usage flag original_request st))
                        (snd (final_usage flag original_request st));
                      MessageStop],
                Completed)
           | None =>
               (opening original_request ++ body ++ block_stops st,
                Propagated AttributeError)
           end).
Proof.
  split; [|split; [|split]].
  - intros openai_stream body st Hloop.
    exact (consume_exhausted_stop_reason json_loads v http_request request_id
             client openai_stream [] 0 initial_state st body
             invariant_initial Hloop).
  - intros openai_stream body st client' Hloop.
    destruct (consume_broken json_loads v http_request request_id client
                openai_stream 0 initial_state st body client' Hloop)
      as (pre & l & post & body0 & st0 & Hstream & Hpre & Hcases).
    exists pre, l, post, body0, st0.
    split; [exact Hstream|]. split; [exact Hpre|].
    pose proof (consume_exhausted_stop_reason json_loads v http_request
                  request_id client pre [] 0 initial_state st0 body0
                  invariant_initial Hpre) as Hreason.
    pose proof (consume_spec json_loads v http_request request_id client
                  pre [] 0 initial_state body0 _ invariant_initial Hpre)
      as Hinv.
    simpl in Hreason, Hinv.
    destruct Hcases as [(Hgone & -> & -> & _)|(Hgone & _ & evs1 & Hline & ->)].
    + left. auto.
    + right. split; [exact Hgone|]. split; [exists evs1; auto|].
      pose proof (break_line json_loads v body0 st0 st l evs1 Hinv Hline)
        as Hbreak.
      destruct l as [| | | |message|holds_error|c]; try exact Hbreak.
      destruct Hbreak as [-> _]. exact Hreason.
  - intros st c choice rest reason evs next.
    apply finish_breaks.
  - intros enable_token_estimation openai_stream original_request body st
      Hleft.
    unfold translate.
    destruct Hleft as [Hloop|[client' Hloop]]; rewrite Hloop, close_eq;
      destruct enable_token_estimation as [flag|]; reflexivity.
Qed.

Lemma stop_reason_provenance_witness :
  let openai_stream :=
    [Yields (Data (usage_chunk (5, 10)));
     Yields (Data (finish_chunk (Val (lit "length"))));
     Yields Done] in
  exists body st,
    consume Json.loads Basic (fun _ => false) [] 0 ∅ initial_state
      openai_stream = (body, Broken st ∅)
    /\ final_stop_reason st = STOP_MAX_TOKENS
    /\ (exists pre l post body0 st0,
           openai_stream = pre ++ Yields l :: post
           /\ consume Json.loads Basic (fun _ => false) [] 0 ∅
                initial_state pre = (body0, Exhausted st0)
           /\ ((with_cancellation Basic && false = true
                /\ st = st0 /\ body = body0
                /\ final_stop_reason st = STOP_END_TURN)
               \/ (with_cancellation Basic && false = false
                   /\ (exists evs,
                          process_line Json.loads Basic st0 l
                          = (evs, Ok (Break st))
                          /\ body = body0 ++ evs)
                   /\ match l with
                      | Done => final_stop_reason st = STOP_END_TURN
                      | Data c =>
                          exists choice rest reason,
                            choices c = Val (choice :: rest)
                            /\ finish_reason choice = Val reason
                            /\ reason <> []
                            /\ final_stop_reason st
                               = stop_reason_of_finish reason
                      | _ => False
                      end)))
    /\ fst (translate Json.loads Config.enable_token_estimation Basic
              (fun _ => false) ∅ [] openai_stream example_request)
       = (opening example_request ++ body ++ block_stops st,
          Propagated AttributeError).
Proof.
  intros openai_stream.
  pose proof (stop_reason_provenance Json.loads Basic (fun _ => false) ∅ [])
    as (_ & Hbroken & _ & Hreport).
  eexists _, _.
  split; [vm_compute; reflexivity|].
  split; [reflexivity|]. split.
  - eapply Hbroken. vm_compute. reflexivity.
  - apply (Hreport Config.enable_token_estimation).
    right. exists ∅. vm_compute. reflexivity.
Defined.

(** X23.  The first translator cannot get past a payload whose delta has
    [null] under the key tool_calls (what [model_dump] writes for a field
    that is not set): it iterates over the value, the error is caught, and
    the translation ends there with one error event of type api_error,
    after at most the text delta of that payload; no block is closed and no
    message_delta is sent.  The translator with cancellation skips the
    value and goes on. *)
Theorem null_tool_calls_end_first_translator
    (json_loads : str -> loads_result) (enable_token_estimation : option bool)
    (pre post : list fetch) (c : chunk) (choice : choice)
    (rest : list Wire.choice) (d : delta)
    (original_request : ClaudeMessagesRequest)
    (body : list event) (st : state) :
  consume json_loads Basic (fun _ => false) [] 0 ∅ initial_state pre
  = (body, Exhausted st) ->
  choices c = Val (choice :: rest) ->
  choice_delta choice = Val d ->
  delta_tool_calls d = Null ->
  (exists text_events,
      convert_openai_streaming_to_claude json_loads enable_token_estimation
        (pre ++ Yields (Data c) :: post) original_request
      = (opening original_request ++ body ++ text_events
           ++ [Error (Some (lit "api_error")) (StreamingError TypeError)],
         Aborted)
      /\ (text_events = [] \/ text_events = fst (text_delta d)))
  /\ (forall st0 : state,
         tool_call_deltas json_loads WithCancellation st0 d = ([], Ok st0)).
Proof.
  intros Hpre Hchoices Hdelta Hnull. split.
  - assert (Hline : exists text_events,
               process_line json_loads Basic st (Data c)
               = (text_events, Raised TypeError)
               /\ (text_events = [] \/ text_events = fst (text_delta d))).
    { cbn [process_line]. unfold process_chunk. cbn [with_cancellation andb].
      rewrite Hchoices. cbn [get_or].
      unfold process_choice.
      destruct (extract_usage st c) as [evs0 [st0|e0]] eqn:Husage;
        pose proof (extract_usage_spec _ _ _ _ Husage) as [-> _]; cbn [bind].
      - rewrite Hdelta. cbn [get_or].
        destruct (text_delta_spec d) as (evs1 & Htext & _).
        rewrite Htext. cbn [bind].
        unfold tool_call_deltas. rewrite Hnull.
        cbn [with_cancellation raise bind app].
        exists evs1. rewrite ?app_nil_r. split; [reflexivity | right; reflexivity].
      - exists []. split; [|left; reflexivity].
        unfold extract_usage in Husage.
        destruct (get_or empty_usage (chunk_usage c)) as [u|];
          [|discriminate Husage].
        destruct (prompt_tokens u), (completion_tokens u);
          simpl in Husage; try discriminate Husage;
          injection Husage as <-; reflexivity. }
    destruct Hline as (text_events & Hline & Htext).
    exists text_events. split; [|exact Htext].
    unfold convert_openai_streaming_to_claude, translate.
    rewrite (consume_app _ _ _ _ _ _ _ _ _ _ _ Hpre).
    cbn [consume with_cancellation andb].
    rewrite Hline.
    cbn [handle_exception with_cancellation fst].
    rewrite <- app_assoc. reflexivity.
  - intros st0. unfold tool_call_deltas. rewrite Hnull. reflexivity.
Qed.

Lemma null_tool_calls_end_first_translator_witness :
  exists text_events,
    convert_openai_streaming_to_claude Json.loads
      Config.enable_token_estimation
      ([] ++ Yields (Data {| error := Absent;
                             choices :=
                               Val [{| choice_delta :=
                                         Val {| delta_content := Val (lit "Hi");
                                                delta_tool_calls := Null |};
                                       finish_reason := Null |}];
                             chunk_usage := Null |})
          :: [Yields Done])
      example_request
    = (opening example_request ++ [] ++ text_events
         ++ [Error (Some (lit "api_error")) (StreamingError TypeError)],
       Aborted)
    /\ (text_events = []
        \/ text_events
           = fst (text_delta {| delta_content := Val (lit "Hi");
                                delta_tool_calls := Null |})).
Proof.
  refine (proj1 (null_tool_calls_end_first_translator Json.loads
                   Config.enable_token_estimation
                   [] [Yields Done] _ _ [] _ example_request [] initial_state
                   _ _ _ _)); reflexivity.
Defined.

(** ** Deltas and the blocks they go to *)

Section OrderFacts.

Variable json_loads : str -> loads_result.
Variable v : variant.

Lemma follows_weaken (evs : list event) :
  forall opened opened' : list Z,
    (forall i, In i opened -> In i opened') ->
    deltas_follow_starts opened evs -> deltas_follow_starts opened' evs.
Proof.
  induction evs as [|e evs IH]; intros opened opened' Hsub; [auto|].
  destruct e as [m|index block| |index d|index|s i o| |kind text]; simpl;
    try (apply IH; exact Hsub).
  - apply IH. intros i Hi. simpl in *.
    destruct Hi as [->|Hi]; [left; reflexivity | right; auto].
  - intros [(i & -> & Hi) Hrest].
    split; [exists i; auto | exact (IH _ _ Hsub Hrest)].
Qed.

Lemma follows_app (evs1 evs2 : list event) :
  forall opened : list Z,
    deltas_follow_starts opened evs1 ->
    deltas_follow_starts (start_indices evs1 ++ opened) evs2 ->
    deltas_follow_starts opened (evs1 ++ evs2).
Proof.
  induction evs1 as [|e evs1 IH]; intros opened; [simpl; auto|].
  destruct e as [m|index block| |index d|index|s i o| |kind text]; simpl;
    try (apply IH).
  - intros H1 H2. apply IH; [exact H1|].
    eapply follows_weaken; [|exact H2].
    intros i Hi. simpl in Hi. destruct Hi as [->|Hi].
    + apply in_or_app. right. left. reflexivity.
    + apply in_app_or in Hi as [Hi|Hi]; apply in_or_app;
        [left; exact Hi | right; right; exact Hi].
  - intros [Hd H1] H2. split; [exact Hd | apply IH; assumption].
Qed.

(** Events that open no block and hold no delta. *)
Lemma follows_stops (indices : list Z) (tail : list event) (opened : list Z) :
  deltas_follow_starts opened tail ->
  deltas_follow_starts opened (map ContentBlockStop indices ++ tail).
Proof.
  induction indices as [|i indices IH]; simpl; auto.
Qed.

Lemma append_arguments_events (tool_call : tool_call_entry)
    (function_data : function_delta) :
  fst (append_arguments json_loads v tool_call function_data) = []
  \/ (started tool_call = true
      /\ exists buffer,
          fst (append_arguments json_loads v tool_call function_data)
          = [ContentBlockDelta (claude_index tool_call)
               (InputJsonDelta buffer)]).
Proof.
  destruct (started tool_call) eqn:Hstarted.
  - destruct (fn_arguments function_data) as [| |fragment] eqn:Hargs.
    + left. unfold append_arguments. rewrite Hargs. reflexivity.
    + left. unfold append_arguments. rewrite Hargs, Hstarted. simpl.
      destruct (with_cancellation v); reflexivity.
    + pose proof (append_arguments_started json_loads v tool_call
                    function_data fragment Hstarted Hargs) as Happend.
      cbv zeta in Happend.
      destruct (json_loads (args_buffer tool_call ++ fragment)) as [| |message];
        try (rewrite Happend; left; reflexivity);
        destruct Happend as (appended & -> & _); simpl;
        try (left; reflexivity).
      destruct (negb (json_sent tool_call)); [|left; reflexivity].
      right. split; [reflexivity|]. eexists. reflexivity.
  - left. rewrite append_arguments_not_started by exact Hstarted. reflexivity.
Qed.

Lemma started_lookup (k : option Z) (d : tool_calls) (i : Z) :
  started (default new_tool_call (lookup_call k d)) = true ->
  claude_index (default new_tool_call (lookup_call k d)) = Some i ->
  In i (started_indices d).
Proof.
  destruct (lookup_call k d) as [t|] eqn:Hl; simpl; [|discriminate].
  intros Hs Hi. apply lookup_call_elem in Hl.
  unfold started_indices. apply in_flat_map.
  exists (k, t). split; [exact Hl|].
  simpl. unfold started_index. rewrite Hs, Hi. left. reflexivity.
Qed.

Lemma tool_delta_follows (seen : list event) (st : state)
    (tc_delta : tool_call_delta) (opened : list Z) :
  invariant st seen ->
  (forall i, In i (start_indices seen) -> In i opened) ->
  deltas_follow_starts opened
    (fst (handle_tool_call_delta json_loads v st tc_delta)).
Proof.
  intros (_ & _ & _ & Hstarts & Hok & _) Hopened.
  unfold handle_tool_call_delta.
  set (k := get_or 0 (tc_index tc_delta)).
  destruct (initialized_lookup k (current_tool_calls st)) as [Hdefault _].
  cbv zeta in Hdefault. rewrite Hdefault.
  set (before := default new_tool_call
                   (lookup_call k (current_tool_calls st))) in *.
  assert (Hbefore : started before = true ->
                    exists i, claude_index before = Some i /\ In i opened).
  { intros Hs.
    destruct (lookup_default_ok k _ Hok) as [Hindex _]. fold before in Hindex.
    destruct (claude_index before) as [i|] eqn:Hi;
      [|exfalso; exact (Hindex Hs eq_refl)].
    exists i. split; [reflexivity|].
    apply Hopened. eapply Permutation_in; [symmetry; exact Hstarts|].
    exact (started_lookup k _ i Hs Hi). }
  destruct (get_or empty_function (tc_function tc_delta)) as [function_data|];
    [|exact I].
  destruct (merge_identity_fields before tc_delta function_data)
    as (_ & _ & Hindex & Hstarted).
  set (merged := merge_identity before tc_delta function_data) in *.
  destruct (start_block_spec (tool_block_counter st) merged)
    as [Hsame|(_ & entry & Hopen & Hentry & Hentryindex & _)].
  - rewrite Hsame. cbn [bind].
    destruct (append_arguments_events merged function_data)
      as [Hnone|(Hs & buffer & Hdelta)];
      destruct (append_arguments json_loads v merged function_data)
        as [evs2 [appended|e]]; simpl in *; subst evs2; try exact I.
    + rewrite Hstarted in Hs. destruct (Hbefore Hs) as (i & Hi & Hin).
      rewrite Hindex, Hi. split; [exists i; auto | exact I].
    + rewrite Hstarted in Hs. destruct (Hbefore Hs) as (i & Hi & Hin).
      rewrite Hindex, Hi. split; [exists i; auto | exact I].
  - rewrite Hopen. cbn [bind].
    destruct (append_arguments_events entry function_data)
      as [Hnone|(Hs & buffer & Hdelta)];
      destruct (append_arguments json_loads v entry function_data)
        as [evs2 [appended|e]]; simpl in *; subst evs2; try exact I.
    + rewrite Hentryindex.
      split; [eexists; split; [reflexivity | left; reflexivity] | exact I].
    + rewrite Hentryindex.
      split; [eexists; split; [reflexivity | left; reflexivity] | exact I].
Qed.

Lemma tool_calls_follow (deltas : list tool_call_delta) :
  forall (seen : list event) (st : state) (opened : list Z),
    invariant st seen ->
    (forall i, In i (start_indices seen) -> In i opened) ->
    deltas_follow_starts opened
      (fst (handle_tool_calls json_loads v st deltas)).
Proof.
  induction deltas as [|tc_delta deltas IH]; intros seen st opened Hinv Hopened;
    simpl; [exact I|].
  pose proof (tool_delta_follows seen st tc_delta opened Hinv Hopened) as Hone.
  destruct (handle_tool_call_delta json_loads v st tc_delta)
    as [evs1 [st1|e1]] eqn:Hstep; simpl in *; [|exact Hone].
  apply (invariant_tool_delta json_loads v seen) in Hstep; [|exact Hinv].
  destruct Hstep as [Hinv1 _].
  specialize (IH (seen ++ evs1) st1 (start_indices evs1 ++ opened) Hinv1).
  destruct (handle_tool_calls json_loads v st1 deltas) as [evs2 r2].
  simpl in *. apply follows_app; [exact Hone|].
  apply IH. intros i Hi. rewrite start_indices_app in Hi.
  apply in_app_or in Hi as [Hi|Hi]; apply in_or_app; auto.
Qed.

Lemma process_line_follows (seen : list event) (st : state) (l : line)
    (opened : list Z) :
  invariant st seen ->
  In 0 opened ->
  (forall i, In i (start_indices seen) -> In i opened) ->
  deltas_follow_starts opened (fst (process_line json_loads v st l)).
Proof.
  intros Hinv Hzero Hopened.
  destruct l as [| | | |message|holds_error|c]; simpl; try exact I.
  { destruct (reject_value_raises v holds_error) as (e & -> & _). exact I. }
  unfold process_chunk.
  destruct (with_cancellation v && has_key (error c)).
  { unfold inline_error. destruct (error c); exact I. }
  destruct (get_or [] (choices c)) as [[|choice rest]|]; try exact I.
  unfold process_choice.
  destruct (extract_usage st c) as [evs0 [st0|e0]] eqn:Husage;
    apply extract_usage_spec in Husage as [-> Husage]; simpl; [|exact I].
  destruct Husage as (Hcounter & Hcalls & _).
  pose proof (invariant_same _ _ _ Hcounter Hcalls Hinv) as Hinv0.
  destruct (get_or empty_delta (choice_delta choice)) as [d|]; [|exact I].
  assert (Htext : deltas_follow_starts opened (fst (text_delta d))).
  { unfold text_delta.
    destruct (get (delta_content d)) as [[|ch text]|]; simpl; try exact I.
    split; [exists 0; auto | exact I]. }
  destruct (text_delta_spec d) as (evs1 & Hd & Hs1 & Hd1 & Hp1 & He1).
  rewrite Hd in *. cbn [bind fst] in *.
  pose proof (invariant_app _ _ _ Hinv0 Hs1 Hd1 Hp1 He1) as Hinv1.
  assert (Htools : deltas_follow_starts (start_indices evs1 ++ opened)
                     (fst (tool_call_deltas json_loads v st0 d))).
  { unfold tool_call_deltas.
    destruct (delta_tool_calls d) as [| |deltas]; try exact I.
    - destruct (with_cancellation v); exact I.
    - apply (tool_calls_follow deltas (seen ++ evs1)); [exact Hinv1|].
      intros i Hi. rewrite start_indices_app in Hi.
      apply in_app_or in Hi as [Hi|Hi]; apply in_or_app; auto. }
  destruct (tool_call_deltas json_loads v st0 d) as [evs2 [st2|e2]];
    simpl in *; rewrite ?app_nil_r; apply follows_app; assumption.
Qed.

Lemma consume_follows (http_request : nat -> bool) (request_id : str)
    (client : registry) (openai_stream : list fetch) :
  forall (seen : list event) (polls : nat) (st : state) (opened : list Z),
    invariant st seen ->
    In 0 opened ->
    (forall i, In i (start_indices seen) -> In i opened) ->
    deltas_follow_starts opened
      (fst (consume json_loads v http_request request_id polls client st
              openai_stream)).
Proof.
  induction openai_stream as [|[l|x] rest IH];
    intros seen polls st opened Hinv Hzero Hopened; simpl; try exact I.
  destruct (with_cancellation v && http_request polls); [exact I|].
  pose proof (process_line_follows seen st l opened Hinv Hzero Hopened) as Hone.
  destruct (process_line json_loads v st l) as [evs1 r1] eqn:Hline.
  apply (process_line_spec json_loads v seen) in Hline; [|exact Hinv].
  destruct r1 as [[st1|st1|]|e1]; try exact Hone.
  destruct Hline as [Hinv1 _].
  specialize (IH (seen ++ evs1) (S polls) st1 (start_indices evs1 ++ opened)
                Hinv1).
  destruct (consume json_loads v http_request request_id (S polls) client
              st1 rest) as [evs2 e2].
  simpl in *. apply follows_app; [exact Hone|].
  apply IH.
  - apply in_or_app. right. exact Hzero.
  - intros i Hi. rewrite start_indices_app in Hi.
    apply in_app_or in Hi as [Hi|Hi]; apply in_or_app; auto.
Qed.

End OrderFacts.

(** X24.  In every translation, however it ends, each content_block_delta
    is addressed to a block that a content_block_start event has opened
    before it in the stream: a text delta to block 0, a tool-input delta to
    the tool-use block of its call.  No delta is sent for a block that has
    not been started, and none without a block index. *)
Theorem deltas_go_to_opened_blocks
    (json_loads : str -> loads_result) (enable_token_estimation : option bool)
    (v : variant) (http_request : nat -> bool) (client : registry)
    (request_id : str) (openai_stream : list fetch)
    (original_request : ClaudeMessagesRequest) :
  deltas_follow_starts []
    (fst (fst (translate json_loads enable_token_estimation v http_request
                 client request_id openai_stream original_request))).
Proof.
  unfold translate.
  pose proof (consume_follows json_loads v http_request request_id client
                openai_stream [] 0 initial_state [0] invariant_initial
                (or_introl eq_refl)) as Hloop.
  specialize (Hloop ltac:(intros i [])).
  destruct (consume json_loads v http_request request_id 0 client
              initial_state openai_stream) as [evs e].
  simpl in Hloop.
  assert (Hclosing : forall st opened,
             deltas_follow_starts opened
               (fst (close enable_token_estimation original_request st))).
  { intros st opened. rewrite close_eq.
    destruct enable_token_estimation as [flag|];
      unfold closing_events, block_stops; simpl.
    - apply follows_stops. exact I.
    - rewrite <- (app_nil_r (map ContentBlockStop _)).
      apply follows_stops. exact I. }
  assert (Hraise : forall x opened,
             deltas_follow_starts opened (fst (handle_exception v x))).
  { intros x opened. unfold handle_exception.
    destruct (with_cancellation v), x as [status_code detail| | |message];
      try exact I.
    destruct (status_code =? 499); exact I. }
  destruct e as [st|st client'| |x]; simpl.
  - specialize (Hclosing st (start_indices evs ++ [0])).
    destruct (close enable_token_estimation original_request st).
    apply follows_app; [exact Hloop | exact Hclosing].
  - specialize (Hclosing st (start_indices evs ++ [0])).
    destruct (close enable_token_estimation original_request st).
    apply follows_app; [exact Hloop | exact Hclosing].
  - exact Hloop.
  - specialize (Hraise x (start_indices evs ++ [0])).
    destruct (handle_exception v x) as [evs' how]. simpl in *.
    apply follows_app; [exact Hloop | exact Hraise].
Qed.
